(** * Eternal1OS animation engine: a shallow embedding of [scripts.js]

    The engine is embedded function by function.  JavaScript numbers are
    idealised as exact rationals ([Q]): [Math.floor] and [Math.ceil] are
    [Qfloor] and [Qceiling], integer-valued counters are [Z].  Object
    references (particles held both by [heroParticles] and by the cells of
    the spatial grid) are indices into the owning array.  Calls to
    [Math.random], [Date.now] and [performance.now] are inputs of the
    function that makes them.

    The script computes in doubles: every arithmetic operation rounds its
    result to the nearest representable number.  Rounding is monotone and
    leaves representable numbers alone, so order facts and bounds against
    the script's constants carry over from the exact model; the properties
    proved here are of that kind, or equate a result with the expression
    the script itself evaluates.  No identity between two differently
    rounded expressions is claimed. *)

From Stdlib Require Import QArith Qround Qminmax Qabs Lqa ZArith Lia List Bool.
From stdpp Require Import base list.
Import ListNotations.

Local Open Scope Q_scope.

(** ** JavaScript numeric helpers *)

Definition Math_floor (x : Q) : Z := Qfloor x.
Definition Math_ceil (x : Q) : Z := Qceiling x.
Definition Math_max (a b : Q) : Q := Qmax a b.
Definition Math_min (a b : Q) : Q := Qmin a b.

Arguments Math_floor : simpl never.
Arguments Math_ceil : simpl never.

(** [a < b], [a <= b], [a > b], [a >= b] on numbers. *)
Definition js_lt (a b : Q) : bool := negb (Qle_bool b a).
Definition js_le (a b : Q) : bool := Qle_bool a b.
Definition js_gt (a b : Q) : bool := js_lt b a.
Definition js_ge (a b : Q) : bool := js_le b a.

(** [for (let i = lo; i <= hi; i++) s = body(i, s)] *)
Fixpoint for_loop {S : Type} (n : nat) (i : Z) (body : Z -> S -> S) (s : S) : S :=
  match n with
  | O => s
  | Datatypes.S n' => for_loop n' (i + 1)%Z body (body i s)
  end.

Definition for_range {S : Type} (lo hi : Z) (body : Z -> S -> S) (s : S) : S :=
  for_loop (Z.to_nat (hi - lo + 1)) lo body s.

(** The indices visited by [for_range lo hi], in order. *)
Fixpoint zseq (n : nat) (i : Z) : list Z :=
  match n with
  | O => []
  | Datatypes.S n' => i :: zseq n' (i + 1)%Z
  end.

Definition zrange (lo hi : Z) : list Z := zseq (Z.to_nat (hi - lo + 1)) lo.

(** [Math.pow(x, n)] for a positive integer literal [n], and [Math.abs]. *)
Definition Math_pow (x : Q) (n : positive) : Q := Qpower_positive x n.
Definition Math_abs (x : Q) : Q := Qabs x.

(** ** utils *)

(** Each function returns the exact value of the expression the script
    evaluates; the script's own value is that expression with every
    operation rounded. *)
Module utils.

Definition lerp (start stop factor : Q) : Q := start + (stop - start) * factor.

(** [random(min, max)]; [rnd] is the value of [Math.random()], in [0, 1).
    After rounding the script's result can be [max] itself. *)
Definition random (rnd min max : Q) : Q := rnd * (max - min) + min.

Definition distanceSquared (x1 y1 x2 y2 : Q) : Q :=
  let dx := x2 - x1 in
  let dy := y2 - y1 in
  dx * dx + dy * dy.

Definition map (value start1 stop1 start2 stop2 : Q) : Q :=
  start2 + (stop2 - start2) * ((value - start1) / (stop1 - start1)).

Definition clamp (value min max : Q) : Q := Math_max min (Math_min max value).

Definition randomInt (rnd : Q) (min max : Z) : Z :=
  (Math_floor (rnd * inject_Z (max - min + 1)) + min)%Z.

Definition easeOutCubic (t : Q) : Q := 1 - Math_pow (1 - t) 3.

Definition easeInOutCubic (t : Q) : Q :=
  if js_lt t (5 # 10) then 4 * t * t * t
  else 1 - Math_pow (-2 * t + 2) 3 / 2.

End utils.

(** ** class SpatialGrid *)

Module SpatialGrid.
Section Def.
Context {E : Type}.

Record t := mk {
  sg_width : Q;
  sg_height : Q;
  cellSize : Q;
  cols : Z;
  rows : Z;
  grid : list (list E)
}.

(** [constructor(width, height, cellSize)] *)
Definition new_SpatialGrid (width height cs : Q) : t :=
  let c := Math_ceil (width / cs) in
  let r := Math_ceil (height / cs) in
  {| sg_width := width; sg_height := height; cellSize := cs;
     cols := c; rows := r;
     grid := replicate (Z.to_nat (c * r)) [] |}.

Definition with_grid (g : t) (cells : list (list E)) : t :=
  {| sg_width := sg_width g; sg_height := sg_height g; cellSize := cellSize g;
     cols := cols g; rows := rows g; grid := cells |}.

(** [clear()] *)
Definition clear (g : t) : t :=
  with_grid g (List.map (fun _ => []) (grid g)).

(** The guard shared by [insert] and [getNearby]:
    [col >= 0 && col < this.cols && row >= 0 && row < this.rows]. *)
Definition in_grid (g : t) (row col : Z) : bool :=
  (0 <=? col)%Z && (col <? cols g)%Z && (0 <=? row)%Z && (row <? rows g)%Z.

Definition cell_index (g : t) (row col : Z) : nat :=
  Z.to_nat (row * cols g + col).

(** [insert(particle, x, y)] *)
Definition insert (g : t) (particle : E) (x y : Q) : t :=
  let col := Math_floor (x / cellSize g) in
  let row := Math_floor (y / cellSize g) in
  if in_grid g row col then
    with_grid g (alter (fun cell => cell ++ [particle]) (cell_index g row col) (grid g))
  else g.

(** [this.grid[index]] for an index inside the array. *)
Definition cell_at (g : t) (row col : Z) : list E :=
  default [] (grid g !! cell_index g row col).

(** [getNearby(x, y, radius)] *)
Definition getNearby (g : t) (x y radius : Q) : list E :=
  let cellRadius := Math_ceil (radius / cellSize g) in
  let col := Math_floor (x / cellSize g) in
  let row := Math_floor (y / cellSize g) in
  for_range (row - cellRadius) (row + cellRadius) (fun r nearby =>
    for_range (col - cellRadius) (col + cellRadius) (fun c nearby =>
      if in_grid g r c then nearby ++ cell_at g r c else nearby) nearby) [].

(** The square of cells that [getNearby] visits around cell [(row, col)],
    in visiting order, and what the grid stores in one of them (nothing
    for a cell off the grid). *)
Definition block (row col cellRadius : Z) : list (Z * Z) :=
  flat_map (fun r => List.map (fun c => (r, c))
                       (zrange (col - cellRadius) (col + cellRadius)))
           (zrange (row - cellRadius) (row + cellRadius)).

Definition stored (g : t) (rc : Z * Z) : list E :=
  if in_grid g (fst rc) (snd rc) then cell_at g (fst rc) (snd rc) else [].

(** The positions that [insert] stores: those whose cell passes its guard. *)
Definition in_bounds (g : t) (x y : Q) : bool :=
  in_grid g (Math_floor (y / cellSize g)) (Math_floor (x / cellSize g)).

(** A grid right after construction followed by a run of [insert] calls,
    as [HeroCanvas.animate] produces it each frame. *)
Definition insert_all (g : t) (log : list (E * Q * Q)) : t :=
  fold_left (fun g '(p, x, y) => insert g p x y) log g.

(** The array has one cell per grid position (what the constructor sets up). *)
Definition grid_wf (g : t) : Prop :=
  length (grid g) = Z.to_nat (cols g * rows g).

End Def.

Arguments t : clear implicits.

End SpatialGrid.

(** ** DEVICE_CONFIG and CONFIG *)

(** [Math.round(x)]: the nearest integer, halves rounded up. *)
Definition Math_round (x : Q) : Z := Qfloor (x + (1 # 2)).

Arguments Math_round : simpl never.

Record DeviceConfig := {
  mobile : bool;
  tablet : bool;
  desktop : bool;
  highDPI : bool;
  lowEndDevice : bool;
  reducedMotion : bool
}.

(** A desktop with more than four cores and no reduced-motion preference,
    and a phone. *)
Definition desktop_device : DeviceConfig := {|
  mobile := false; tablet := false; desktop := true;
  highDPI := false; lowEndDevice := false; reducedMotion := false
|}.

Definition mobile_device : DeviceConfig := {|
  mobile := true; tablet := false; desktop := false;
  highDPI := true; lowEndDevice := false; reducedMotion := false
|}.

Definition getParticleCount (d : DeviceConfig) (base : Z) : Z :=
  if reducedMotion d then 0%Z
  else if mobile d then Math_floor (inject_Z base * (25 # 100))
  else if tablet d then Math_floor (inject_Z base * (5 # 10))
  else if lowEndDevice d then Math_floor (inject_Z base * (7 # 10))
  else base.

Definition getAnimationSpeed (d : DeviceConfig) (base : Q) : Q :=
  if reducedMotion d then 0
  else if mobile d then base * (5 # 10)
  else if lowEndDevice d then base * (8 # 10)
  else base.

(** The fields of the global [CONFIG] object that the engine reads or
    writes.  [matrix_characters_length] is the length of
    [CONFIG.matrix.characters]; a glyph is kept as its index in that string. *)
Record Config := {
  intro_particleCount : Z;
  hero_particleCount : Z;
  hero_mouseInfluence : Q;
  hero_connectionDistance : Q;
  hero_maxConnections : Z;
  matrix_characters_length : Z;
  matrix_columns : Z;
  matrix_speed : Q;
  matrix_maxTrailLength : Q;
  performance_targetFPS : Q;
  performance_memoryCleanupInterval : Q;
  performance_spatialOptimization : bool
}.

Definition CONFIG (d : DeviceConfig) : Config := {|
  intro_particleCount := getParticleCount d 15;
  hero_particleCount := getParticleCount d 12;
  hero_mouseInfluence := if mobile d then 50 else 100;
  hero_connectionDistance := if mobile d then 80 else 120;
  hero_maxConnections := if mobile d then 3%Z else 5%Z;
  matrix_characters_length := 74;
  matrix_columns := getParticleCount d 20;
  matrix_speed := getAnimationSpeed d 2;
  matrix_maxTrailLength := if mobile d then 8 else 15;
  performance_targetFPS := if mobile d then 30 else 60;
  performance_memoryCleanupInterval := 30000;
  performance_spatialOptimization := true
|}.

Definition set_counts (c : Config) (hero intro columns : Z) : Config := {|
  intro_particleCount := intro;
  hero_particleCount := hero;
  hero_mouseInfluence := hero_mouseInfluence c;
  hero_connectionDistance := hero_connectionDistance c;
  hero_maxConnections := hero_maxConnections c;
  matrix_characters_length := matrix_characters_length c;
  matrix_columns := columns;
  matrix_speed := matrix_speed c;
  matrix_maxTrailLength := matrix_maxTrailLength c;
  performance_targetFPS := performance_targetFPS c;
  performance_memoryCleanupInterval := performance_memoryCleanupInterval c;
  performance_spatialOptimization := performance_spatialOptimization c
|}.

(** ** NotificationSystem *)

Module NotificationSystem.

(** [container] tells whether the container element was found;
    [notifications] is the [Set] of live notification elements, each element
    named by the number of the [show] call that created it. *)
Record t := mk {
  container : bool;
  notifications : list nat;
  maxNotifications : Z;
  created : nat
}.

(** The object literal followed by [init()]. *)
Definition init (d : DeviceConfig) (found : bool) : t := {|
  container := found;
  notifications := [];
  maxNotifications := if mobile d then 3%Z else 5%Z;
  created := 0
|}.

(** [show(message, type, duration)] *)
Definition show (s : t) : t :=
  if negb (container s)
     || (maxNotifications s <=? Z.of_nat (length (notifications s)))%Z
  then s
  else {| container := container s;
          notifications := notifications s ++ [created s];
          maxNotifications := maxNotifications s;
          created := S (created s) |}.

(** [this.notifications.delete(notification)], which the removal timeout of
    a notification and [MemoryManager.cleanup] perform. *)
Definition delete (notification : nat) (s : t) : t :=
  {| container := container s;
     notifications := List.filter (fun n => negb (n =? notification)%nat) (notifications s);
     maxNotifications := maxNotifications s;
     created := created s |}.

Inductive Event := Show | Delete (notification : nat).

Definition step (s : t) (e : Event) : t :=
  match e with
  | Show => show s
  | Delete n => delete n s
  end.

Definition run (events : list Event) (s : t) : t := fold_left step events s.

End NotificationSystem.

(** ** PerformanceMonitor.getAverageFPS *)

Module PerformanceMonitor.

(** [this.fpsHistory.reduce((a, b) => a + b, 0)] *)
Definition sum (fpsHistory : list Z) : Z := fold_left Z.add fpsHistory 0%Z.

Definition getAverageFPS (fpsHistory : list Z) : Z :=
  if (0 <? length fpsHistory)%nat
  then Math_round (inject_Z (sum fpsHistory) / inject_Z (Z.of_nat (length fpsHistory)))
  else 0%Z.

(** [optimizeForLowFPS()] *)
Definition optimizeForLowFPS (c : Config) : Config := {|
  intro_particleCount :=
    Z.max 5 (Math_floor (inject_Z (intro_particleCount c) * (8 # 10)));
  hero_particleCount :=
    Z.max 3 (Math_floor (inject_Z (hero_particleCount c) * (8 # 10)));
  hero_mouseInfluence := hero_mouseInfluence c;
  hero_connectionDistance := Math_max 60 (hero_connectionDistance c * (9 # 10));
  hero_maxConnections := hero_maxConnections c;
  matrix_characters_length := matrix_characters_length c;
  matrix_columns := Z.max 8 (Math_floor (inject_Z (matrix_columns c) * (8 # 10)));
  matrix_speed := matrix_speed c;
  matrix_maxTrailLength := matrix_maxTrailLength c;
  performance_targetFPS := performance_targetFPS c;
  performance_memoryCleanupInterval := performance_memoryCleanupInterval c;
  performance_spatialOptimization := performance_spatialOptimization c
|}.

(** The monitor's own counters: [fps], [frames] and [lastTime]. *)
Record t := mk { mon_fps : Z; frames : Z; lastTime : Q }.

(** The block of [monitor()] that stores a sample:
    [fpsHistory.push(fps); if (fpsHistory.length > maxHistoryLength)
    fpsHistory.shift();] with [maxHistoryLength = 60]. *)
Definition store (fpsHistory : list Z) (sample : Z) : list Z :=
  let pushed := fpsHistory ++ [sample] in
  if (60 <? length pushed)%nat then tl pushed else pushed.

End PerformanceMonitor.

(** ** FPSController *)

Module FPSController.

Record t := mk {
  targetFPS : Q;
  frameInterval : Q;
  lastFrameTime : Q;
  frameCount : Z;
  qualityLevel : Q
}.

(** The object literal, evaluated once against the initial [CONFIG]. *)
Definition init (c : Config) : t := {|
  targetFPS := performance_targetFPS c;
  frameInterval := 1000 / performance_targetFPS c;
  lastFrameTime := 0;
  frameCount := 0;
  qualityLevel := 1
|}.

(** [shouldRender(currentTime)]: the answer and the controller afterwards. *)
Definition shouldRender (currentTime : Q) (f : t) : bool * t :=
  if js_ge (currentTime - lastFrameTime f) (frameInterval f) then
    (true, {| targetFPS := targetFPS f; frameInterval := frameInterval f;
              lastFrameTime := currentTime;
              frameCount := frameCount f + 1;
              qualityLevel := qualityLevel f |})
  else (false, f).

Definition set_quality (f : t) (count : Z) (q : Q) : t :=
  {| targetFPS := targetFPS f; frameInterval := frameInterval f;
     lastFrameTime := lastFrameTime f; frameCount := count; qualityLevel := q |}.

(** [adaptPerformance()] writes the three entity counts of [CONFIG]. *)
Definition adaptPerformance (f : t) (c : Config) : Config :=
  set_counts c
    (Z.max 5 (Math_floor (inject_Z (hero_particleCount c) * qualityLevel f)))
    (Z.max 8 (Math_floor (inject_Z (intro_particleCount c) * qualityLevel f)))
    (Z.max 10 (Math_floor (inject_Z (matrix_columns c) * qualityLevel f))).

(** [updateQuality()]; [fpsHistory] is [PerformanceMonitor.fpsHistory] at the
    time of the call. *)
Definition updateQuality (fpsHistory : list Z) (s : t * Config) : t * Config :=
  let (f, c) := s in
  let count := (frameCount f + 1)%Z in
  if (Z.rem count 60 =? 0)%Z then
    let avgFPS := inject_Z (PerformanceMonitor.getAverageFPS fpsHistory) in
    if js_lt avgFPS (targetFPS f * (8 # 10)) then
      let f' := set_quality f count (Math_max (3 # 10) (qualityLevel f * (9 # 10))) in
      (f', adaptPerformance f' c)
    else if js_gt avgFPS (targetFPS f * (95 # 100)) && js_lt (qualityLevel f) 1 then
      (set_quality f count (Math_min 1 (qualityLevel f * (11 # 10))), c)
    else (set_quality f count (qualityLevel f), c)
  else (set_quality f count (qualityLevel f), c).

(** The invariant of [qualityLevel]. *)
Definition quality_ok (s : t * Config) : Prop :=
  3 # 10 <= qualityLevel (fst s) <= 1.

(** The two methods that callers invoke, and any interleaving of calls. *)
Inductive Call :=
| CallShouldRender (currentTime : Q)
| CallUpdateQuality (fpsHistory : list Z).

Definition call (k : Call) (s : t * Config) : t * Config :=
  match k with
  | CallShouldRender currentTime => (snd (shouldRender currentTime (fst s)), snd s)
  | CallUpdateQuality fpsHistory => updateQuality fpsHistory s
  end.

Definition calls (ks : list Call) (s : t * Config) : t * Config :=
  fold_left (fun s k => call k s) ks s.

(** The scenes that poll [shouldRender] from their [animate]. *)
Inductive SceneId := IntroScene | HeroScene | MatrixScene.

Definition SceneId_eqb (a b : SceneId) : bool :=
  match a, b with
  | IntroScene, IntroScene | HeroScene, HeroScene | MatrixScene, MatrixScene => true
  | _, _ => false
  end.

(** A history of polls, each by one scene at one time, and the controller
    after it. *)
Definition polls (trace : list (SceneId * Q)) (f : t) : t :=
  fold_left (fun f e => snd (shouldRender (snd e) f)) trace f.

(** The polls of a history that were answered [true], oldest first. *)
Fixpoint accepted (trace : list (SceneId * Q)) (f : t) : list (SceneId * Q) :=
  match trace with
  | [] => []
  | e :: rest =>
      let (ok, f') := shouldRender (snd e) f in
      if ok then e :: accepted rest f' else accepted rest f'
  end.

(** The time of the latest accepted render of any scene, and of scene [s]
    alone; the controller's initial timestamp when there is none. *)
Definition last_render (trace : list (SceneId * Q)) (f : t) : Q :=
  List.last (List.map snd (accepted trace f)) (lastFrameTime f).

Definition own_last_render (s : SceneId) (trace : list (SceneId * Q)) (f : t) : Q :=
  List.last
    (List.map snd (List.filter (fun e => SceneId_eqb (fst e) s) (accepted trace f)))
    (lastFrameTime f).

End FPSController.

(** ** class Particle3D *)

Record Canvas := { cv_width : Q; cv_height : Q }.

(** The canvas calls that leave a mark, each with the [globalAlpha] in force
    and the alpha of its fill or stroke style. *)
Inductive DrawCmd :=
| FillRect (globalAlpha styleAlpha x y w h : Q)
| FillArc (globalAlpha x y radius : Q)
| StrokePath (globalAlpha styleAlpha : Q) (points : list (Q * Q))
| FillText (styleAlpha : Q) (white : bool) (glyph : Z) (x y : Q).

(** The elements at indices 0, 2, 4, ... *)
Fixpoint evens {A : Type} (l : list A) : list A :=
  match l with
  | a :: _ :: rest => a :: evens rest
  | [a] => [a]
  | [] => []
  end.

Module Particle3D.

Record TrailPoint := { tp_x : Q; tp_y : Q; tp_z : Q }.

Record t := mk {
  x : Q; y : Q; z : Q;
  vx : Q; vy : Q; vz : Q;
  size : Q;
  baseOpacity : Q;
  trail : list TrailPoint;
  maxTrailLength : Z;
  lastTrailTime : Q
}.

(** [reset()]; [rnd n] is the value of the [n]-th [Math.random()] call made
    during the enclosing method call. *)
Definition reset (canvas : Canvas) (rnd : nat -> Q) (p : t) : t := {|
  x := utils.random (rnd 0%nat) 0 (cv_width canvas);
  y := utils.random (rnd 1%nat) 0 (cv_height canvas);
  z := utils.random (rnd 2%nat) (-400) 400;
  vx := utils.random (rnd 3%nat) (-1) 1;
  vy := utils.random (rnd 4%nat) (-1) 1;
  vz := utils.random (rnd 5%nat) (-2) 2;
  size := utils.random (rnd 6%nat) 1 2;
  baseOpacity := utils.random (rnd 7%nat) (3 # 10) (7 # 10);
  trail := [];
  maxTrailLength := maxTrailLength p;
  lastTrailTime := 0
|}.

(** [constructor(canvas)] *)
Definition constructor (d : DeviceConfig) (canvas : Canvas) (rnd : nat -> Q) : t :=
  reset canvas rnd {|
    x := 0; y := 0; z := 0; vx := 0; vy := 0; vz := 0; size := 0; baseOpacity := 0;
    trail := [];
    maxTrailLength := if mobile d then 4%Z else 8%Z;
    lastTrailTime := 0
  |}.

Definition set_trail (p : t) (tr : list TrailPoint) (last : Q) : t := {|
  x := x p; y := y p; z := z p; vx := vx p; vy := vy p; vz := vz p;
  size := size p; baseOpacity := baseOpacity p;
  trail := tr; maxTrailLength := maxTrailLength p; lastTrailTime := last
|}.

(** The first three statements of [update]: position integration. *)
Definition move (p : t) : t := {|
  x := x p + vx p; y := y p + vy p; z := z p + vz p;
  vx := vx p; vy := vy p; vz := vz p;
  size := size p; baseOpacity := baseOpacity p;
  trail := trail p; maxTrailLength := maxTrailLength p;
  lastTrailTime := lastTrailTime p
|}.

(** The throttled trail block of [update]. *)
Definition sample_trail (currentTime : Q) (p : t) : t :=
  if js_gt (currentTime - lastTrailTime p) 50 then
    let shifted :=
      if (maxTrailLength p <=? Z.of_nat (length (trail p)))%Z
      then tl (trail p) else trail p in
    set_trail p (shifted ++ [{| tp_x := x p; tp_y := y p; tp_z := z p |}]) currentTime
  else p.

(** The condition of the boundary check of [update]. *)
Definition out_of_bounds (canvas : Canvas) (p : t) : bool :=
  js_lt (x p) (-50) || js_gt (x p) (cv_width canvas + 50) ||
  js_lt (y p) (-50) || js_gt (y p) (cv_height canvas + 50) ||
  js_lt (z p) (-400) || js_gt (z p) 400.

(** [update(currentTime)] *)
Definition update (canvas : Canvas) (currentTime : Q) (rnd : nat -> Q) (p : t) : t :=
  let p1 := sample_trail currentTime (move p) in
  if out_of_bounds canvas p1 then reset canvas rnd p1 else p1.

(** [draw()]; [quality] is [FPSController.qualityLevel].  The path of the
    trail starts at [trail[0]] and continues through [trail[2]],
    [trail[4]], ... *)
Definition draw (d : DeviceConfig) (quality : Q) (p : t) : list DrawCmd :=
  if reducedMotion d then []
  else
    let scale := utils.clamp (utils.map (z p) (-400) 400 (3 # 10) (15 # 10)) (1 # 10) 2 in
    let opacity := baseOpacity p * utils.map (Math_abs (z p)) 0 400 1 (3 # 10) in
    let drawSize := size p * scale in
    FillRect (opacity * quality) opacity
      (x p - drawSize * (5 # 10)) (y p - drawSize * (5 # 10)) drawSize drawSize
    :: (if (1 <? length (trail p))%nat && negb (mobile d) then
          [StrokePath (opacity * quality) (opacity * (5 # 10))
             (List.map (fun s => (tp_x s, tp_y s))
                (firstn 1 (trail p) ++ evens (skipn 2 (trail p))))]
        else []).

(** One tick's inputs, and a run of ticks. *)
Record Tick := { tick_canvas : Canvas; tick_time : Q; tick_rnd : nat -> Q }.

Definition run (ticks : list Tick) (p : t) : t :=
  fold_left (fun p k => update (tick_canvas k) (tick_time k) (tick_rnd k) p) ticks p.

End Particle3D.

(** ** class MatrixColumn *)

Module MatrixColumn.

Record Glyph := { char : Z; age : Z }.

Record t := mk {
  x : Q;
  y : Q;
  speed : Q;
  characters : list Glyph;
  maxLength : Q;
  opacity : Q;
  nextCharTime : Q;
  fontSize : Z
}.

(** [reset()] *)
Definition reset (d : DeviceConfig) (c : Config) (rnd : nat -> Q) (col : t) : t := {|
  x := x col;
  y := utils.random (rnd 0%nat) (-200) (-50);
  speed := utils.random (rnd 1%nat) 1 (matrix_speed c);
  characters := [];
  maxLength := utils.random (rnd 2%nat) 5 (matrix_maxTrailLength c);
  opacity := utils.random (rnd 3%nat) (3 # 10) (6 # 10);
  nextCharTime := 0;
  fontSize := if mobile d then 10%Z else 13%Z
|}.

(** [constructor(canvas, x)] *)
Definition constructor (d : DeviceConfig) (c : Config) (x0 : Q) (rnd : nat -> Q) : t :=
  reset d c rnd {|
    x := x0; y := 0; speed := 0; characters := []; maxLength := 0;
    opacity := 0; nextCharTime := 0; fontSize := 0
  |}.

Definition set_chars (col : t) (y' : Q) (cs : list Glyph) (next : Q) : t := {|
  x := x col; y := y'; speed := speed col; characters := cs;
  maxLength := maxLength col; opacity := opacity col;
  nextCharTime := next; fontSize := fontSize col
|}.

(** The throttled character addition of [update]. *)
Definition add_char (c : Config) (now : Q) (rnd : nat -> Q) (col : t) : t :=
  if js_gt now (nextCharTime col)
     && js_lt (inject_Z (Z.of_nat (length (characters col)))) (maxLength col)
  then
    set_chars col (y col)
      (characters col ++
       [{| char := utils.randomInt (rnd 0%nat) 0 (matrix_characters_length c - 1);
           age := 0 |}])
      (now + utils.random (rnd 1%nat) 100 300)
  else col.

(** The ageing loop of [update], which walks the array from its last index
    down to 0 and splices out every glyph older than 80. *)
Definition age_chars (cs : list Glyph) : list Glyph :=
  fold_right (fun g kept =>
    let g' := {| char := char g; age := age g + 1 |} in
    if (80 <? age g')%Z then kept else g' :: kept) [] cs.

(** [update()]; [now] is the value of [Date.now()]. *)
Definition update (d : DeviceConfig) (c : Config) (canvas : Canvas)
    (now : Q) (rnd : nat -> Q) (col : t) : t :=
  if reducedMotion d then col
  else
    let y' := y col + speed col in
    if js_gt y' (cv_height canvas + 100) then
      reset d c rnd (set_chars col y' (characters col) (nextCharTime col))
    else
      let col1 := add_char c now rnd (set_chars col y' (characters col) (nextCharTime col)) in
      set_chars col1 (y col1) (age_chars (characters col1)) (nextCharTime col1).

(** [draw()]: one [fillText] per glyph that is on screen. *)
Definition draw (d : DeviceConfig) (canvas : Canvas) (quality : Q) (col : t)
  : list DrawCmd :=
  if reducedMotion d then []
  else
    let qualityOpacity := opacity col * quality in
    concat (imap (fun i charObj =>
      let y' := y col - inject_Z (Z.of_nat i) * inject_Z (fontSize col + 5) in
      if js_lt y' (-20) || js_gt y' (cv_height canvas + 20) then []
      else
        let alpha :=
          qualityOpacity * Math_max 0 (1 - inject_Z (age charObj) * (2 # 100)) in
        if (i =? 0)%nat then [FillText alpha true (char charObj) (x col) y']
        else [FillText (alpha * (8 # 10)) false (char charObj) (x col) y'])
      (characters col)).

Record Tick := {
  tick_canvas : Canvas;
  tick_now : Q;
  tick_rnd : nat -> Q
}.

Definition run (d : DeviceConfig) (c : Config) (ticks : list Tick) (col : t) : t :=
  fold_left (fun col k => update d c (tick_canvas k) (tick_now k) (tick_rnd k) col) ticks col.

End MatrixColumn.

(** ** class HeroParticle *)

Module HeroParticle.

(** The numeric fields of a hero particle.  Particles are referred to by
    their index in [heroParticles]; [p2 === p1] is equality of indices. *)
Record t := mk {
  x : Q; y : Q;
  baseX : Q; baseY : Q;
  vx : Q; vy : Q;
  size : Q;
  opacity : Q;
  hue : Q;
  mouseForceX : Q; mouseForceY : Q
}.

(** A particle sitting at its home position [(x0, y0)]. *)
Definition at_rest (x0 y0 : Q) : t := {|
  x := x0; y := y0; baseX := x0; baseY := y0;
  vx := 0; vy := 0; size := 2; opacity := 2 # 10; hue := 200;
  mouseForceX := 0; mouseForceY := 0
|}.

(** [reset()] *)
Definition reset (canvas : Canvas) (rnd : nat -> Q) : t :=
  let x0 := utils.random (rnd 0%nat) 0 (cv_width canvas) in
  let y0 := utils.random (rnd 1%nat) 0 (cv_height canvas) in
  {| x := x0; y := y0; baseX := x0; baseY := y0;
     vx := utils.random (rnd 2%nat) (-5 # 10) (5 # 10);
     vy := utils.random (rnd 3%nat) (-5 # 10) (5 # 10);
     size := utils.random (rnd 4%nat) (15 # 10) 3;
     opacity := utils.random (rnd 5%nat) (1 # 10) (3 # 10);
     hue := utils.random (rnd 6%nat) 180 220;
     mouseForceX := 0; mouseForceY := 0 |}.

(** [update()].  [sqrt] stands for [Math.sqrt], which has no exact rational
    counterpart; [mouse] is the shared [{x, y}] object. *)
Definition update (sqrt : Q -> Q) (d : DeviceConfig) (c : Config) (canvas : Canvas)
    (mouse : Q * Q) (p : t) : t :=
  let x1 := x p + vx p * (3 # 10) in
  let y1 := y p + vy p * (3 # 10) in
  let moved :=
    if negb (mobile d) then
      let dx := fst mouse - x1 in
      let dy := snd mouse - y1 in
      let distSq := dx * dx + dy * dy in
      let influenceSq := hero_mouseInfluence c * hero_mouseInfluence c in
      let forces :=
        if js_lt distSq influenceSq && js_gt distSq 0 then
          let force := (influenceSq - distSq) / influenceSq in
          let dist := sqrt distSq in
          (- (dx / dist) * force * (15 # 1000), - (dy / dist) * force * (15 # 1000))
        else (mouseForceX p * (95 # 100), mouseForceY p * (95 # 100)) in
      (x1 + fst forces, y1 + snd forces, forces)
    else (x1, y1, (mouseForceX p, mouseForceY p)) in
  let x2 := utils.lerp (fst (fst moved)) (baseX p) (5 # 1000) in
  let y2 := utils.lerp (snd (fst moved)) (baseY p) (5 # 1000) in
  let x3 := if js_lt x2 (-10) then cv_width canvas + 10 else x2 in
  let x4 := if js_gt x3 (cv_width canvas + 10) then -10 else x3 in
  let y3 := if js_lt y2 (-10) then cv_height canvas + 10 else y2 in
  let y4 := if js_gt y3 (cv_height canvas + 10) then -10 else y3 in
  {| x := x4; y := y4; baseX := baseX p; baseY := baseY p;
     vx := vx p; vy := vy p; size := size p; opacity := opacity p; hue := hue p;
     mouseForceX := fst (snd moved); mouseForceY := snd (snd moved) |}.

(** The fallback loop of [findConnections]:
    [for (let particle of heroParticles) if (particle !== this) ...];
    [i] is the index of the head of [rest]. *)
Fixpoint scan (connectionDistance : Q) (this : nat) (p : t)
    (i : nat) (rest : list t) : list nat :=
  match rest with
  | [] => []
  | particle :: rest' =>
      let tail := scan connectionDistance this p (S i) rest' in
      if negb (i =? this)%nat then
        let distSq := utils.distanceSquared (x p) (y p) (x particle) (y particle) in
        if js_lt distSq (connectionDistance * connectionDistance)
        then i :: tail else tail
      else tail
  end.

(** [findConnections()] of the particle at index [this]; [spatialGrid] is
    the particle's [this.spatialGrid] field ([None] for [null]). *)
Definition findConnections (d : DeviceConfig) (c : Config)
    (spatialGrid : option (SpatialGrid.t nat)) (heroParticles : list t)
    (this : nat) : list nat :=
  if mobile d || reducedMotion d then []
  else
    match heroParticles !! this with
    | None => []
    | Some p =>
        match (if performance_spatialOptimization c then spatialGrid else None) with
        | Some g => SpatialGrid.getNearby g (x p) (y p) (hero_connectionDistance c)
        | None => scan (hero_connectionDistance c) this p 0 heroParticles
        end
    end.

End HeroParticle.

(** ** The engine's global state *)

(** A stroked segment: [moveTo(x1, y1); lineTo(x2, y2); stroke()] with the
    alpha of its [strokeStyle]. *)
Record Line := {
  line_x1 : Q; line_y1 : Q;
  line_x2 : Q; line_y2 : Q;
  line_alpha : Q
}.

(** The result of running a method that may throw: it returned, or it threw
    [e]; either way [a] is the state it left behind. *)
Inductive Outcome (Err A : Type) :=
| Returned (a : A)
| Thrown (a : A) (e : Err).

Arguments Returned {Err A} a.
Arguments Thrown {Err A} a e.

(** What one iteration of a scene's [forEach] does to an entity, i.e. the
    body [entity.update(...); entity.draw();].  [Env] stands for what the
    methods read from outside during the frame (random numbers, the mouse,
    [Date.now()]); the [nat] is the entity's index.  [typeError] is the
    exception raised when a scene touches a missing canvas context. *)
Record Behaviour (Err Env : Type) := {
  visit_particle3D : Env -> nat -> Particle3D.t -> Outcome Err Particle3D.t;
  visit_hero : Env -> nat -> HeroParticle.t -> Outcome Err HeroParticle.t;
  visit_column : Env -> nat -> MatrixColumn.t -> Outcome Err MatrixColumn.t;
  typeError : Err
}.

Arguments visit_particle3D {Err Env} b.
Arguments visit_hero {Err Env} b.
Arguments visit_column {Err Env} b.
Arguments typeError {Err Env} b.

(** [array.forEach(callback)]: entities are visited in order and mutated in
    place; an exception leaves the loop at once. *)
Fixpoint forEach {Err A : Type} (visit : nat -> A -> Outcome Err A)
    (i : nat) (l : list A) : Outcome Err (list A) :=
  match l with
  | [] => Returned []
  | a :: rest =>
      match visit i a with
      | Thrown a' e => Thrown (a' :: rest) e
      | Returned a' =>
          match forEach visit (S i) rest with
          | Returned rest' => Returned (a' :: rest')
          | Thrown rest' e => Thrown (a' :: rest') e
          end
      end
  end.

(** Exception values, and two behaviours used to run the engine on concrete
    scenes: entities that never throw and stay as they are, and hero
    particles that drift one unit to the right per frame except that the
    [update] of the particle at index 1 throws. *)
Inductive JsError := TypeError | Failure (code : nat).

Definition quiet : Behaviour JsError unit := {|
  visit_particle3D := fun _ _ p => Returned p;
  visit_hero := fun _ _ p => Returned p;
  visit_column := fun _ _ col => Returned col;
  typeError := TypeError
|}.

Definition drift (p : HeroParticle.t) : HeroParticle.t :=
  HeroParticle.at_rest (HeroParticle.x p + 1) (HeroParticle.y p).

Definition second_throws : Behaviour JsError unit := {|
  visit_particle3D := fun _ _ p => Returned p;
  visit_hero := fun _ i p => if (i =? 1)%nat then Thrown p (Failure 1) else Returned (drift p);
  visit_column := fun _ _ col => Returned col;
  typeError := TypeError
|}.

(** Entities that move and never throw: a hero particle drifts one unit to
    the right per frame, and a column takes one [update()] step on the
    800 x 600 desktop canvas with [Date.now()] at 1000 and random draws of
    one half. *)
Definition falling : Behaviour JsError unit := {|
  visit_particle3D := fun _ _ p => Returned p;
  visit_hero := fun _ _ p => Returned (drift p);
  visit_column := fun _ _ col =>
    Returned (MatrixColumn.update desktop_device (CONFIG desktop_device)
                {| cv_width := 800; cv_height := 600 |} 1000 (fun _ => 1 # 2) col);
  typeError := TypeError
|}.

(** The closures handed to [requestAnimationFrame] and [setTimeout]. *)
Inductive Callback := IntroAnimate | HeroAnimate | MatrixAnimate.

Inductive Timer := ResumeTimer | MainSiteTimer.

(** The browser side of scheduling: pending animation-frame callbacks with
    their handles, the next handle to hand out, the handles passed to
    [cancelAnimationFrame] so far, and the timeouts armed so far. *)
Record Sched := {
  queue : list (positive * Callback);
  nextHandle : positive;
  cancelled : list positive;
  timers : list Timer
}.

Definition requestAnimationFrame (cb : Callback) (s : Sched) : positive * Sched :=
  (nextHandle s,
   {| queue := queue s ++ [(nextHandle s, cb)];
      nextHandle := Pos.succ (nextHandle s);
      cancelled := cancelled s;
      timers := timers s |}).

Definition cancelAnimationFrame (h : positive) (s : Sched) : Sched :=
  {| queue := List.filter (fun e => negb (fst e =? h)%positive) (queue s);
     nextHandle := nextHandle s;
     cancelled := cancelled s ++ [h];
     timers := timers s |}.

Definition setTimeout (t : Timer) (s : Sched) : Sched :=
  {| queue := queue s; nextHandle := nextHandle s;
     cancelled := cancelled s; timers := timers s ++ [t] |}.

(** The pending callback that a handle variable remembers, if any. *)
Definition pending_of (handle : option positive) (cb : Callback)
  : list (positive * Callback) :=
  match handle with
  | Some h => [(h, cb)]
  | None => []
  end.

(** One scene: its [isActive] flag, its canvas ([None] for [null]), its
    animation-frame handle variable, and its entity array. *)
Record Scene (A : Type) := {
  isActive : bool;
  canvas : option Canvas;
  frameHandle : option positive;
  entities : list A
}.

Arguments isActive {A} s.
Arguments canvas {A} s.
Arguments frameHandle {A} s.
Arguments entities {A} s.

Definition set_isActive {A} (s : Scene A) (b : bool) : Scene A :=
  {| isActive := b; canvas := canvas s; frameHandle := frameHandle s;
     entities := entities s |}.

Definition set_frameHandle {A} (s : Scene A) (h : option positive) : Scene A :=
  {| isActive := isActive s; canvas := canvas s; frameHandle := h;
     entities := entities s |}.

Definition set_entities {A} (s : Scene A) (l : list A) : Scene A :=
  {| isActive := isActive s; canvas := canvas s; frameHandle := frameHandle s;
     entities := l |}.

(** The globals of the script.  [intro] gathers [IntroController.isActive],
    [IntroController.particlesCanvas], [animationFrame] and [particles3D];
    [hero] gathers [HeroCanvas.isActive], [HeroCanvas.canvas],
    [heroAnimationFrame] and [heroParticles]; [matrix] gathers
    [MatrixCanvas.isActive], [MatrixCanvas.canvas], [matrixAnimationFrame]
    and [MatrixCanvas.columns].  [strokes] are the connection segments drawn
    on the hero canvas so far. *)
Record World (Err : Type) := {
  introCompleted : bool;
  intro : Scene Particle3D.t;
  hero : Scene HeroParticle.t;
  matrix : Scene MatrixColumn.t;
  spatialGrid : option (SpatialGrid.t nat);
  config : Config;
  fps : FPSController.t;
  fpsHistory : list Z;
  errors : list Err;
  lastCleanup : Q;
  sched : Sched;
  strokes : list Line
}.

Arguments introCompleted {Err} w.
Arguments intro {Err} w.
Arguments hero {Err} w.
Arguments matrix {Err} w.
Arguments spatialGrid {Err} w.
Arguments config {Err} w.
Arguments fps {Err} w.
Arguments fpsHistory {Err} w.
Arguments errors {Err} w.
Arguments lastCleanup {Err} w.
Arguments sched {Err} w.
Arguments strokes {Err} w.

Definition set_intro {Err} (w : World Err) (done : bool) (s : Scene Particle3D.t)
  : World Err :=
  {| introCompleted := done; intro := s; hero := hero w; matrix := matrix w;
     spatialGrid := spatialGrid w; config := config w; fps := fps w;
     fpsHistory := fpsHistory w; errors := errors w; lastCleanup := lastCleanup w;
     sched := sched w; strokes := strokes w |}.

Definition set_hero {Err} (w : World Err) (s : Scene HeroParticle.t)
    (g : option (SpatialGrid.t nat)) (l : list Line) : World Err :=
  {| introCompleted := introCompleted w; intro := intro w; hero := s;
     matrix := matrix w; spatialGrid := g; config := config w; fps := fps w;
     fpsHistory := fpsHistory w; errors := errors w; lastCleanup := lastCleanup w;
     sched := sched w; strokes := l |}.

Definition set_matrix {Err} (w : World Err) (s : Scene MatrixColumn.t) : World Err :=
  {| introCompleted := introCompleted w; intro := intro w; hero := hero w;
     matrix := s; spatialGrid := spatialGrid w; config := config w; fps := fps w;
     fpsHistory := fpsHistory w; errors := errors w; lastCleanup := lastCleanup w;
     sched := sched w; strokes := strokes w |}.

Definition set_fps {Err} (w : World Err) (f : FPSController.t) (c : Config)
  : World Err :=
  {| introCompleted := introCompleted w; intro := intro w; hero := hero w;
     matrix := matrix w; spatialGrid := spatialGrid w; config := c; fps := f;
     fpsHistory := fpsHistory w; errors := errors w; lastCleanup := lastCleanup w;
     sched := sched w; strokes := strokes w |}.

Definition set_errors {Err} (w : World Err) (l : list Err) : World Err :=
  {| introCompleted := introCompleted w; intro := intro w; hero := hero w;
     matrix := matrix w; spatialGrid := spatialGrid w; config := config w;
     fps := fps w; fpsHistory := fpsHistory w; errors := l;
     lastCleanup := lastCleanup w; sched := sched w; strokes := strokes w |}.

Definition set_lastCleanup {Err} (w : World Err) (t : Q) : World Err :=
  {| introCompleted := introCompleted w; intro := intro w; hero := hero w;
     matrix := matrix w; spatialGrid := spatialGrid w; config := config w;
     fps := fps w; fpsHistory := fpsHistory w; errors := errors w;
     lastCleanup := t; sched := sched w; strokes := strokes w |}.

Definition set_sched {Err} (w : World Err) (s : Sched) : World Err :=
  {| introCompleted := introCompleted w; intro := intro w; hero := hero w;
     matrix := matrix w; spatialGrid := spatialGrid w; config := config w;
     fps := fps w; fpsHistory := fpsHistory w; errors := errors w;
     lastCleanup := lastCleanup w; sched := s; strokes := strokes w |}.

(** The globals as the script's top level leaves them on device [d]. *)
Definition empty_scene {A} : Scene A :=
  {| isActive := false; canvas := None; frameHandle := None; entities := [] |}.

Definition initial_world {Err} (d : DeviceConfig) : World Err := {|
  introCompleted := false;
  intro := empty_scene; hero := empty_scene; matrix := empty_scene;
  spatialGrid := None;
  config := CONFIG d;
  fps := FPSController.init (CONFIG d);
  fpsHistory := [];
  errors := [];
  lastCleanup := 0;
  sched := {| queue := []; nextHandle := 1; cancelled := []; timers := [] |};
  strokes := []
|}.

(** A scene that has been initialised on [cv] with [l] as its entities and
    whose loop is running with [h] pending. *)
Definition running_scene {A} (cv : Canvas) (l : list A) (h : option positive) : Scene A :=
  {| isActive := true; canvas := Some cv; frameHandle := h; entities := l |}.

Definition set_fpsHistory {Err} (w : World Err) (h : list Z) : World Err :=
  {| introCompleted := introCompleted w; intro := intro w; hero := hero w;
     matrix := matrix w; spatialGrid := spatialGrid w; config := config w;
     fps := fps w; fpsHistory := h; errors := errors w;
     lastCleanup := lastCleanup w; sched := sched w; strokes := strokes w |}.

(** The main site up and running on an 800 x 600 desktop canvas after the
    intro, as [HeroCanvas.init] and [MatrixCanvas.init] leave it: the hero
    scene has its spatial grid, and the hero and matrix loops each have one
    callback pending. *)
Definition main_site (ps : list HeroParticle.t) (cols : list MatrixColumn.t)
  : World JsError :=
  let cv := {| cv_width := 800; cv_height := 600 |} in
  {| introCompleted := true;
     intro := {| isActive := false; canvas := Some cv; frameHandle := None;
                 entities := [] |};
     hero := running_scene cv ps (Some 1%positive);
     matrix := running_scene cv cols (Some 2%positive);
     spatialGrid := Some (SpatialGrid.new_SpatialGrid 800 600 100);
     config := CONFIG desktop_device;
     fps := FPSController.init (CONFIG desktop_device);
     fpsHistory := [];
     errors := [];
     lastCleanup := 0;
     sched := {| queue := [(1%positive, HeroAnimate); (2%positive, MatrixAnimate)];
                 nextHandle := 3; cancelled := []; timers := [MainSiteTimer] |};
     strokes := [] |}.

(** ** ErrorHandler.logError *)

Module ErrorHandler.

(** [this.errors.push(error); if (this.errors.length > this.maxErrors)
    this.errors.shift();] with [maxErrors = 10]. *)
Definition logError {Err} (error : Err) (w : World Err) : World Err :=
  let pushed := errors w ++ [error] in
  set_errors w (if (10 <? length pushed)%nat then tl pushed else pushed).

(** The timeout armed by [handleCanvasError(error)], the "static mode":
    the three entity counts of [CONFIG] are set to 0. *)
Definition handleCanvasError_timeout (c : Config) : Config := set_counts c 0 0 0.

End ErrorHandler.

(** ** HeroCanvas *)

Module HeroCanvas.

(** The grid of the frame: every particle of [heroParticles] passed to
    [insert] with its position, after [clear()]. *)
Definition rebuild (g : SpatialGrid.t nat) (heroParticles : list HeroParticle.t)
  : SpatialGrid.t nat :=
  SpatialGrid.insert_all (SpatialGrid.clear g)
    (imap (fun i p => (i, HeroParticle.x p, HeroParticle.y p)) heroParticles).

(** The inner loop of [drawConnections]:
    [for (j = 0; j < nearby.length && connectionCount < maxConnections; j++)]. *)
Fixpoint connect (c : Config) (quality : Q) (heroParticles : list HeroParticle.t)
    (i : nat) (p1 : HeroParticle.t) (connectionCount : Z) (nearby : list nat)
  : list Line :=
  match nearby with
  | [] => []
  | j :: rest =>
      if (connectionCount <? hero_maxConnections c)%Z then
        if (j =? i)%nat then connect c quality heroParticles i p1 connectionCount rest
        else
          match heroParticles !! j with
          | None => connect c quality heroParticles i p1 connectionCount rest
          | Some p2 =>
              let connectionDistSq :=
                hero_connectionDistance c * hero_connectionDistance c in
              let distSq :=
                utils.distanceSquared (HeroParticle.x p1) (HeroParticle.y p1)
                                      (HeroParticle.x p2) (HeroParticle.y p2) in
              if js_lt distSq connectionDistSq then
                {| line_x1 := HeroParticle.x p1; line_y1 := HeroParticle.y p1;
                   line_x2 := HeroParticle.x p2; line_y2 := HeroParticle.y p2;
                   line_alpha :=
                     utils.map distSq 0 connectionDistSq (2 # 10) 0 * quality |}
                :: connect c quality heroParticles i p1 (connectionCount + 1) rest
              else connect c quality heroParticles i p1 connectionCount rest
          end
      else []
  end.

(** [nearbyParticles] for the particle at index [i]: the grid's answer, or
    [heroParticles.slice(i + 1)]. *)
Definition nearbyParticles (c : Config) (spatialGrid : option (SpatialGrid.t nat))
    (heroParticles : list HeroParticle.t) (i : nat) (p1 : HeroParticle.t) : list nat :=
  match spatialGrid with
  | Some g =>
      SpatialGrid.getNearby g (HeroParticle.x p1) (HeroParticle.y p1)
        (hero_connectionDistance c)
  | None => seq (S i) (length heroParticles - S i)
  end.

(** The segments stroked for the particle at index [i]. *)
Definition connectionsOf (c : Config) (quality : Q)
    (spatialGrid : option (SpatialGrid.t nat)) (heroParticles : list HeroParticle.t)
    (i : nat) : list Line :=
  match heroParticles !! i with
  | None => []
  | Some p1 =>
      connect c quality heroParticles i p1 0
        (nearbyParticles c spatialGrid heroParticles i p1)
  end.

(** [drawConnections()]: the segments it strokes, in order.  [quality] is
    [FPSController.qualityLevel]. *)
Definition drawConnections (d : DeviceConfig) (c : Config) (quality : Q)
    (spatialGrid : option (SpatialGrid.t nat)) (heroParticles : list HeroParticle.t)
  : list Line :=
  if mobile d || reducedMotion d then []
  else
    flat_map (connectionsOf c quality spatialGrid heroParticles)
             (seq 0 (length heroParticles)).



(** The part of [animate] that runs once the frame is accepted, inside the
    [try] block; [Thrown] hands the exception to the [catch] clause. *)
Definition render {Err Env} (b : Behaviour Err Env) (d : DeviceConfig) (env : Env)
    (w : World Err) : Outcome Err (World Err) :=
  let (f, c) := FPSController.updateQuality (fpsHistory w) (fps w, config w) in
  let w1 := set_fps w f c in
  match canvas (hero w1) with
  | None => Thrown w1 (typeError b)
  | Some _ =>
      let g := option_map (fun g => rebuild g (entities (hero w1))) (spatialGrid w1) in
      match forEach (visit_hero b env) 0 (entities (hero w1)) with
      | Thrown ps e => Thrown (set_hero w1 (set_entities (hero w1) ps) g (strokes w1)) e
      | Returned ps =>
          let lines := drawConnections d c (FPSController.qualityLevel f) g ps in
          let (h, s) := requestAnimationFrame HeroAnimate (sched w1) in
          Returned
            (set_sched
               (set_hero w1 (set_frameHandle (set_entities (hero w1) ps) (Some h)) g
                  (strokes w1 ++ lines)) s)
      end
  end.

(** [animate(currentTime)] *)
Definition animate {Err Env} (b : Behaviour Err Env) (d : DeviceConfig)
    (currentTime : Q) (env : Env) (w : World Err) : World Err :=
  if negb (isActive (hero w)) then w
  else
    let (ok, f) := FPSController.shouldRender currentTime (fps w) in
    let w0 := set_fps w f (config w) in
    if negb ok then
      let (h, s) := requestAnimationFrame HeroAnimate (sched w0) in
      set_sched (set_hero w0 (set_frameHandle (hero w0) (Some h))
                   (spatialGrid w0) (strokes w0)) s
    else
      match render b d env w0 with
      | Returned w1 => w1
      | Thrown w1 error =>
          let w2 := ErrorHandler.logError error w1 in
          set_hero w2 (set_isActive (hero w2) false) (spatialGrid w2) (strokes w2)
      end.

(** [initParticles()]: the new value of [heroParticles]; [rnd i] are the
    random draws of the [i]-th constructor call. *)
Definition initParticles (c : Config) (cv : Canvas) (rnd : nat -> nat -> Q)
  : list HeroParticle.t :=
  if (0 <? hero_particleCount c)%Z then
    List.map (fun i => HeroParticle.reset cv (rnd i))
             (seq 0 (Z.to_nat (hero_particleCount c)))
  else [].

(** [destroy()] *)
Definition destroy {Err} (w : World Err) : World Err :=
  let hero0 := set_isActive (hero w) false in
  match frameHandle hero0 with
  | Some h =>
      set_sched
        (set_hero w (set_entities (set_frameHandle hero0 None) []) None (strokes w))
        (cancelAnimationFrame h (sched w))
  | None => set_hero w (set_entities hero0 []) None (strokes w)
  end.

End HeroCanvas.

(** ** MatrixCanvas *)

Module MatrixCanvas.

Definition render {Err Env} (b : Behaviour Err Env) (env : Env)
    (w : World Err) : Outcome Err (World Err) :=
  match canvas (matrix w) with
  | None => Thrown w (typeError b)
  | Some _ =>
      match forEach (visit_column b env) 0 (entities (matrix w)) with
      | Thrown cs e => Thrown (set_matrix w (set_entities (matrix w) cs)) e
      | Returned cs =>
          let (h, s) := requestAnimationFrame MatrixAnimate (sched w) in
          Returned
            (set_sched
               (set_matrix w (set_frameHandle (set_entities (matrix w) cs) (Some h))) s)
      end
  end.

(** [animate(currentTime)] *)
Definition animate {Err Env} (b : Behaviour Err Env)
    (currentTime : Q) (env : Env) (w : World Err) : World Err :=
  if negb (isActive (matrix w)) then w
  else
    let (ok, f) := FPSController.shouldRender currentTime (fps w) in
    let w0 := set_fps w f (config w) in
    if negb ok then
      let (h, s) := requestAnimationFrame MatrixAnimate (sched w0) in
      set_sched (set_matrix w0 (set_frameHandle (matrix w0) (Some h))) s
    else
      match render b env w0 with
      | Returned w1 => w1
      | Thrown w1 error =>
          let w2 := ErrorHandler.logError error w1 in
          set_matrix w2 (set_isActive (matrix w2) false)
      end.

(** [initColumns()]: the new value of [this.columns]; [rnd i] are the random
    draws of the [i]-th constructor call. *)
Definition initColumns (d : DeviceConfig) (c : Config) (cv : Canvas)
    (rnd : nat -> nat -> Q) : list MatrixColumn.t :=
  if (0 <? matrix_columns c)%Z then
    let columnWidth := cv_width cv / inject_Z (matrix_columns c) in
    List.map (fun i =>
                MatrixColumn.constructor d c
                  (inject_Z (Z.of_nat i) * columnWidth + columnWidth / 2) (rnd i))
             (seq 0 (Z.to_nat (matrix_columns c)))
  else [].

(** [destroy()] *)
Definition destroy {Err} (w : World Err) : World Err :=
  let matrix0 := set_isActive (matrix w) false in
  match frameHandle matrix0 with
  | Some h =>
      set_sched
        (set_matrix w (set_entities (set_frameHandle matrix0 None) []))
        (cancelAnimationFrame h (sched w))
  | None => set_matrix w (set_entities matrix0 [])
  end.

End MatrixCanvas.

(** ** IntroController *)

Module IntroController.

(** [complete()]: the timeout it arms (which later initialises the main
    site) is recorded as pending. *)
Definition complete {Err} (w : World Err) : World Err :=
  let w1 := set_intro w true (set_isActive (intro w) false) in
  let w2 :=
    match frameHandle (intro w1) with
    | Some h =>
        set_sched (set_intro w1 true (set_frameHandle (intro w1) None))
                  (cancelAnimationFrame h (sched w1))
    | None => w1
    end in
  set_sched w2 (setTimeout MainSiteTimer (sched w2)).

Definition render {Err Env} (b : Behaviour Err Env) (env : Env)
    (w : World Err) : Outcome Err (World Err) :=
  match canvas (intro w) with
  | None => Thrown w (typeError b)
  | Some _ =>
      match forEach (visit_particle3D b env) 0 (entities (intro w)) with
      | Thrown ps e =>
          Thrown (set_intro w (introCompleted w) (set_entities (intro w) ps)) e
      | Returned ps =>
          let (h, s) := requestAnimationFrame IntroAnimate (sched w) in
          Returned
            (set_sched
               (set_intro w (introCompleted w)
                  (set_frameHandle (set_entities (intro w) ps) (Some h))) s)
      end
  end.

(** [animate(currentTime)] *)
Definition animate {Err Env} (b : Behaviour Err Env)
    (currentTime : Q) (env : Env) (w : World Err) : World Err :=
  if negb (isActive (intro w)) || introCompleted w then w
  else
    let (ok, f) := FPSController.shouldRender currentTime (fps w) in
    let w0 := set_fps w f (config w) in
    if negb ok then
      let (h, s) := requestAnimationFrame IntroAnimate (sched w0) in
      set_sched (set_intro w0 (introCompleted w0)
                   (set_frameHandle (intro w0) (Some h))) s
    else
      match render b env w0 with
      | Returned w1 => w1
      | Thrown w1 _ => complete w1
      end.

(** [initParticles()]: the new value of [particles3D]. *)
Definition initParticles (d : DeviceConfig) (c : Config) (cv : Canvas)
    (rnd : nat -> nat -> Q) : list Particle3D.t :=
  if (0 <? intro_particleCount c)%Z then
    List.map (fun i => Particle3D.constructor d cv (rnd i))
             (seq 0 (Z.to_nat (intro_particleCount c)))
  else [].

(** [CONFIG.intro.duration], which nothing writes. *)
Definition intro_duration : Q := 5000.

(** The progress computed by [animate(currentTime)] and the percentage it
    shows: [utils.clamp(elapsed / CONFIG.intro.duration, 0, 1)] and
    [Math.round(progress * 100)]. *)
Definition progress (startTime currentTime : Q) : Q :=
  let elapsed := currentTime - startTime in
  utils.clamp (elapsed / intro_duration) 0 1.

Definition progressPercent (startTime currentTime : Q) : Z :=
  Math_round (progress startTime currentTime * 100).

End IntroController.

(** ** MemoryManager *)

Module MemoryManager.

(** Truncation toward zero, as [Array.prototype.slice] applies to its
    argument. *)
Definition js_trunc (q : Q) : Z := if Qle_bool 0 q then Qfloor q else Qceiling q.

(** [array.slice(start)] *)
Definition slice {A} (start : Q) (l : list A) : list A :=
  let len := Z.of_nat (length l) in
  let rs := js_trunc start in
  let k := if (rs <? 0)%Z then Z.max (len + rs) 0 else Z.min rs len in
  drop (Z.to_nat k) l.

Definition trim_trail (p : Particle3D.t) : Particle3D.t :=
  if (Particle3D.maxTrailLength p <? Z.of_nat (length (Particle3D.trail p)))%Z then
    Particle3D.set_trail p
      (slice (- inject_Z (Particle3D.maxTrailLength p)) (Particle3D.trail p))
      (Particle3D.lastTrailTime p)
  else p.

Definition trim_characters (col : MatrixColumn.t) : MatrixColumn.t :=
  if js_gt (inject_Z (Z.of_nat (length (MatrixColumn.characters col))))
           (MatrixColumn.maxLength col) then
    MatrixColumn.set_chars col (MatrixColumn.y col)
      (slice (- MatrixColumn.maxLength col) (MatrixColumn.characters col))
      (MatrixColumn.nextCharTime col)
  else col.

(** [cleanup()]; [now] is the value of [performance.now()]. *)
Definition cleanup {Err} (now : Q) (w : World Err) : World Err :=
  if js_lt (now - lastCleanup w) 5000 then w
  else
    let w1 := set_intro w (introCompleted w)
                (set_entities (intro w) (List.map trim_trail (entities (intro w)))) in
    let w2 := set_matrix w1
                (set_entities (matrix w1)
                   (List.map trim_characters (entities (matrix w1)))) in
    set_lastCleanup w2 now.

Definition empty_trail (p : Particle3D.t) : Particle3D.t :=
  Particle3D.set_trail p [] (Particle3D.lastTrailTime p).

Definition empty_characters (col : MatrixColumn.t) : MatrixColumn.t :=
  MatrixColumn.set_chars col (MatrixColumn.y col) [] (MatrixColumn.nextCharTime col).

(** [forceCleanup()] *)
Definition forceCleanup {Err} (now : Q) (w : World Err) : World Err :=
  let w1 := cleanup now w in
  let w2 := set_intro w1 (introCompleted w1)
              (set_entities (intro w1) (List.map empty_trail (entities (intro w1)))) in
  set_matrix w2
    (set_entities (matrix w2) (List.map empty_characters (entities (matrix w2)))).

(** [if (handle) { cancelAnimationFrame(handle); handle = null; }] *)
Definition cancel_handle {A} (s : Scene A) (sc : Sched) : Scene A * Sched :=
  match frameHandle s with
  | Some h => (set_frameHandle s None, cancelAnimationFrame h sc)
  | None => (s, sc)
  end.

(** [pauseAnimations()] *)
Definition pauseAnimations {Err} (w : World Err) : World Err :=
  let hero0 := set_isActive (hero w) false in
  let matrix0 := set_isActive (matrix w) false in
  let intro0 := set_isActive (intro w) false in
  let (hero1, s1) := cancel_handle hero0 (sched w) in
  let (matrix1, s2) := cancel_handle matrix0 s1 in
  let (intro1, s3) := cancel_handle intro0 s2 in
  set_sched
    (set_intro
       (set_matrix (set_hero w hero1 (spatialGrid w) (strokes w)) matrix1)
       (introCompleted w) intro1) s3.

(** [resumeAnimations()] only arms a 100 ms timeout. *)
Definition resumeAnimations {Err} (w : World Err) : World Err :=
  set_sched w (setTimeout ResumeTimer (sched w)).

(** The body of that timeout.  [now1] and [now2] are the values of
    [performance.now()] taken by the [animate()] calls it makes. *)
Definition resumeAnimations_timeout {Err Env} (b : Behaviour Err Env)
    (d : DeviceConfig) (now1 now2 : Q) (env : Env) (w : World Err) : World Err :=
  if introCompleted w then
    let w1 := set_hero w (set_isActive (hero w) true) (spatialGrid w) (strokes w) in
    let w2 := set_matrix w1 (set_isActive (matrix w1) true) in
    let w3 := match canvas (hero w2) with
              | Some _ => HeroCanvas.animate b d now1 env w2
              | None => w2
              end in
    match canvas (matrix w3) with
    | Some _ => MatrixCanvas.animate b now2 env w3
    | None => w3
    end
  else
    let w1 := set_intro w (introCompleted w) (set_isActive (intro w) true) in
    match canvas (intro w1) with
    | Some _ => IntroController.animate b now1 env w1
    | None => w1
    end.

End MemoryManager.

(** ** PerformanceMonitor.monitor *)

(** One call of [PerformanceMonitor.monitor()]; the function re-arms itself
    with [requestAnimationFrame], so it runs once per animation frame.
    [now] is the value of [performance.now()]; [memoryMB] is the rounded
    heap size when [performance.memory] exists; [cleanupNow] is the clock
    read by [MemoryManager.cleanup].  The debug panel is left out:
    [CONFIG.performance.enableDebug] is [false] and nothing sets it. *)
Definition monitor {Err} (now : Q) (memoryMB : option Z) (cleanupNow : Q)
    (s : PerformanceMonitor.t * World Err) : PerformanceMonitor.t * World Err :=
  let (m, w) := s in
  let frames := (PerformanceMonitor.frames m + 1)%Z in
  if js_ge now (PerformanceMonitor.lastTime m + 1000) then
    let sample :=
      Math_round (inject_Z (frames * 1000) / (now - PerformanceMonitor.lastTime m)) in
    let w1 := set_fpsHistory w (PerformanceMonitor.store (fpsHistory w) sample) in
    let w2 :=
      if js_lt (inject_Z sample) (performance_targetFPS (config w1) * (7 # 10))
      then set_fps w1 (fps w1) (PerformanceMonitor.optimizeForLowFPS (config w1))
      else w1 in
    let w3 :=
      match memoryMB with
      | Some mb =>
          if (100 <? mb)%Z then MemoryManager.forceCleanup cleanupNow w2 else w2
      | None => w2
      end in
    ({| PerformanceMonitor.mon_fps := sample; PerformanceMonitor.frames := 0;
        PerformanceMonitor.lastTime := now |}, w3)
  else
    ({| PerformanceMonitor.mon_fps := PerformanceMonitor.mon_fps m;
        PerformanceMonitor.frames := frames;
        PerformanceMonitor.lastTime := PerformanceMonitor.lastTime m |}, w).

(** The inputs of one call, and a run of calls. *)
Record MonitorTick := {
  mt_now : Q;
  mt_memoryMB : option Z;
  mt_cleanupNow : Q
}.

Definition monitor_run {Err} (ticks : list MonitorTick)
    (s : PerformanceMonitor.t * World Err) : PerformanceMonitor.t * World Err :=
  fold_left (fun s k => monitor (mt_now k) (mt_memoryMB k) (mt_cleanupNow k) s) ticks s.

(** ** The browser's animation frame *)

Definition dispatch {Err Env} (b : Behaviour Err Env) (d : DeviceConfig)
    (time : Q) (env : Env) (cb : Callback) (w : World Err) : World Err :=
  match cb with
  | IntroAnimate => IntroController.animate b time env w
  | HeroAnimate => HeroCanvas.animate b d time env w
  | MatrixAnimate => MatrixCanvas.animate b time env w
  end.

(** One animation frame of the three scenes: their callbacks pending at its
    start run in the order they were requested, all with the same
    timestamp; a callback cancelled in the meantime is skipped; callbacks
    requested during the frame wait for the next one.  The queue holds the
    scene callbacks only.  [PerformanceMonitor.monitor], which re-arms
    itself in every frame as well, is embedded on its own as [monitor]
    below; what it writes between two frames ([fpsHistory], the counts of
    [CONFIG], emptied buffers) enters a run of frames through the world the
    run starts from. *)
Definition run_frame {Err Env} (b : Behaviour Err Env) (d : DeviceConfig)
    (time : Q) (env : Env) (w : World Err) : World Err :=
  let pending := queue (sched w) in
  let w0 := set_sched w {| queue := []; nextHandle := nextHandle (sched w);
                           cancelled := cancelled (sched w);
                           timers := timers (sched w) |} in
  fold_left (fun w e =>
               if existsb (Pos.eqb (fst e)) (cancelled (sched w)) then w
               else dispatch b d time env (snd e) w)
            pending w0.

(** A run of animation frames, one per timestamp. *)
Definition run_frames {Err Env} (b : Behaviour Err Env) (d : DeviceConfig)
    (env : Env) (times : list Q) (w : World Err) : World Err :=
  fold_left (fun w time => run_frame b d time env w) times w.

(** * Properties *)

(** ** Numeric helpers *)

Lemma js_lt_iff a b : js_lt a b = true <-> a < b.
Proof.
  unfold js_lt. rewrite negb_true_iff, <- not_true_iff_false, Qle_bool_iff.
  split; [apply Qnot_le_lt | apply Qlt_not_le].
Qed.

Lemma js_le_iff a b : js_le a b = true <-> a <= b.
Proof. apply Qle_bool_iff. Qed.

Lemma js_lt_false_iff a b : js_lt a b = false <-> b <= a.
Proof.
  unfold js_lt. rewrite negb_false_iff. apply Qle_bool_iff.
Qed.

Lemma js_le_false_iff a b : js_le a b = false <-> b < a.
Proof.
  unfold js_le. rewrite <- not_true_iff_false, Qle_bool_iff.
  split; [apply Qnot_le_lt | apply Qlt_not_le].
Qed.

Lemma for_loop_append {A : Type} (f : Z -> list A) n i acc :
  for_loop n i (fun j nearby => nearby ++ f j) acc = acc ++ flat_map f (zseq n i).
Proof.
  revert i acc. induction n as [|n IH]; intros i acc; simpl.
  - now rewrite app_nil_r.
  - rewrite IH. now rewrite <- app_assoc.
Qed.

Lemma for_loop_ext {S : Type} (f g : Z -> S -> S) n i s :
  (forall j t, f j t = g j t) -> for_loop n i f s = for_loop n i g s.
Proof.
  intros Hfg. revert i s. induction n as [|n IH]; intros i s; simpl; [reflexivity|].
  now rewrite Hfg, IH.
Qed.

Lemma in_zseq n i z : In z (zseq n i) <-> (i <= z < i + Z.of_nat n)%Z.
Proof.
  revert i. induction n as [|n IH]; intros i; simpl.
  - lia.
  - rewrite IH. lia.
Qed.

Lemma in_zrange lo hi z : In z (zrange lo hi) <-> (lo <= z <= hi)%Z.
Proof. unfold zrange. rewrite in_zseq. lia. Qed.



(** ** SpatialGrid *)

Section SpatialGridFacts.
Import SpatialGrid.
Context {E : Type}.
Implicit Types (g : SpatialGrid.t E) (e : E).

Lemma new_SpatialGrid_wf w h cs : grid_wf (@new_SpatialGrid E w h cs).
Proof. unfold grid_wf, new_SpatialGrid; simpl. apply length_replicate. Qed.

Lemma clear_wf g : grid_wf g -> grid_wf (clear g).
Proof. unfold grid_wf, clear. cbn. now rewrite length_map. Qed.

Lemma insert_shape g e x y :
  cols (insert g e x y) = cols g /\ rows (insert g e x y) = rows g /\
  cellSize (insert g e x y) = cellSize g.
Proof. unfold insert. destruct (in_grid g _ _); auto. Qed.

Lemma insert_wf g e x y : grid_wf g -> grid_wf (insert g e x y).
Proof.
  unfold grid_wf, insert. destruct (in_grid g _ _); simpl; auto.
  now rewrite length_alter.
Qed.

Lemma insert_all_shape g log :
  cols (insert_all g log) = cols g /\ rows (insert_all g log) = rows g /\
  cellSize (insert_all g log) = cellSize g.
Proof.
  revert g. induction log as [|[[p x] y] log IH]; intros g; simpl; auto.
  destruct (IH (insert g p x y)) as (-> & -> & ->). apply insert_shape.
Qed.

Lemma insert_all_wf g log : grid_wf g -> grid_wf (insert_all g log).
Proof.
  revert g. induction log as [|[[p x] y] log IH]; intros g Hwf; simpl; auto.
  apply IH, insert_wf, Hwf.
Qed.

Lemma in_grid_iff g r c :
  in_grid g r c = true <-> (0 <= c < cols g)%Z /\ (0 <= r < rows g)%Z.
Proof. unfold in_grid. rewrite !andb_true_iff. lia. Qed.

Lemma in_grid_insert g e x y r c : in_grid (insert g e x y) r c = in_grid g r c.
Proof.
  unfold in_grid. destruct (insert_shape g e x y) as (-> & -> & _). reflexivity.
Qed.

Lemma in_grid_insert_all g log r c : in_grid (insert_all g log) r c = in_grid g r c.
Proof.
  unfold in_grid. destruct (insert_all_shape g log) as (-> & -> & _). reflexivity.
Qed.

Lemma cell_index_lt g r c :
  grid_wf g -> in_grid g r c = true -> (cell_index g r c < length (grid g))%nat.
Proof.
  unfold grid_wf, cell_index. intros -> [Hc Hr]%in_grid_iff.
  apply Z2Nat.inj_lt; nia.
Qed.

(** [insert] never removes anything from a cell. *)
Lemma cell_at_insert_mono g p x y r c e :
  In e (cell_at g r c) -> In e (cell_at (insert g p x y) r c).
Proof.
  unfold cell_at, insert, cell_index.
  destruct (in_grid g _ _); simpl; auto.
  generalize (Z.to_nat (Math_floor (y / cellSize g) * cols g + Math_floor (x / cellSize g))).
  generalize (Z.to_nat (r * cols g + c)). intros j i.
  destruct (Nat.eq_dec i j) as [->|Hne].
  - rewrite list_lookup_alter_eq. destruct (grid g !! j); simpl; auto.
    intros H. apply in_or_app. now left.
  - now rewrite list_lookup_alter_ne.
Qed.

Lemma cell_at_insert_all_mono g log r c e :
  In e (cell_at g r c) -> In e (cell_at (insert_all g log) r c).
Proof.
  revert g. induction log as [|[[p x] y] log IH]; intros g H; simpl; auto.
  apply IH, cell_at_insert_mono, H.
Qed.

(** An [insert] that passes the guard stores the particle in its cell. *)
Lemma cell_at_insert_here g p x y :
  grid_wf g -> in_bounds g x y = true ->
  In p (cell_at (insert g p x y)
          (Math_floor (y / cellSize g)) (Math_floor (x / cellSize g))).
Proof.
  unfold in_bounds. intros Hwf Hin.
  pose proof (cell_index_lt _ _ _ Hwf Hin) as Hlt.
  unfold cell_at, insert. rewrite Hin. simpl.
  unfold cell_index in *. simpl. rewrite list_lookup_alter_eq.
  destruct (lookup_lt_is_Some_2 _ _ Hlt) as [cell ->]. simpl.
  apply in_or_app. right. now left.
Qed.

Lemma insert_all_stores g log p x y :
  grid_wf g -> In (p, x, y) log -> in_bounds g x y = true ->
  In p (cell_at (insert_all g log)
          (Math_floor (y / cellSize g)) (Math_floor (x / cellSize g))).
Proof.
  revert g. induction log as [|[[p' x'] y'] log IH]; intros g Hwf Hin Hb; simpl in *.
  - contradiction.
  - destruct Hin as [Heq|Hin].
    + inversion Heq; subst. apply cell_at_insert_all_mono.
      now apply cell_at_insert_here.
    + destruct (insert_shape g p' x' y') as (Hc & Hr & Hs).
      rewrite <- Hs. apply IH; auto using insert_wf.
      unfold in_bounds. rewrite in_grid_insert, Hs. exact Hb.
Qed.

(** [getNearby] is the concatenation of what the block's cells store. *)
Lemma getNearby_block g x y radius :
  getNearby g x y radius =
  flat_map (stored g)
    (block (Math_floor (y / cellSize g)) (Math_floor (x / cellSize g))
           (Math_ceil (radius / cellSize g))).
Proof.
  unfold getNearby, block, for_range, zrange.
  set (k := Math_ceil _). set (col := Math_floor (x / _)). set (row := Math_floor (y / _)).
  set (n := Z.to_nat (col + k - (col - k) + 1)).
  rewrite (for_loop_ext _
    (fun r nearby => nearby ++ flat_map (fun c => stored g (r, c)) (zseq n (col - k)%Z))).
  - rewrite for_loop_append. simpl.
    generalize (zseq (Z.to_nat (row + k - (row - k) + 1)) (row - k)%Z).
    intros l. induction l as [|r l IH]; simpl; [reflexivity|].
    rewrite flat_map_app, IH. f_equal.
    generalize (zseq n (col - k)%Z). intros lc.
    induction lc as [|c lc IHc]; simpl; [reflexivity|]. now rewrite IHc.
  - intros r t.
    rewrite (for_loop_ext _ (fun c nearby => nearby ++ stored g (r, c))).
    + apply for_loop_append.
    + intros c t'. unfold stored; simpl. destruct (in_grid g r c); [reflexivity|].
      now rewrite app_nil_r.
Qed.

Lemma in_block row col k r c :
  In (r, c) (block row col k) <->
  (row - k <= r <= row + k)%Z /\ (col - k <= c <= col + k)%Z.
Proof.
  unfold block. rewrite in_flat_map. split.
  - intros (r' & Hr & Hc). apply in_map_iff in Hc as (c' & Heq & Hc).
    inversion Heq; subst. apply in_zrange in Hr, Hc. auto.
  - intros [Hr Hc]. exists r. split; [now apply in_zrange|].
    apply in_map_iff. exists c. split; [reflexivity|now apply in_zrange].
Qed.


End SpatialGridFacts.

Lemma sq_bound (dx dy r : Q) :
  0 <= r -> dx * dx + dy * dy <= r * r -> dx <= r /\ - r <= dx.
Proof. intros. split; nra. Qed.

Lemma floor_shift (a b r cs : Q) :
  0 < cs -> a <= b + r ->
  (Qfloor (a / cs) <= Qfloor (b / cs) + Qceiling (r / cs))%Z.
Proof.
  intros Hcs Hab.
  assert (Hdiv : a / cs <= b / cs + r / cs).
  { assert (Heq : b / cs + r / cs == (b + r) / cs) by (unfold Qdiv; ring). rewrite Heq.
    unfold Qdiv. apply Qmult_le_compat_r; [exact Hab|].
    apply Qlt_le_weak, Qinv_lt_0_compat, Hcs. }
  pose proof (Qfloor_le (a / cs)) as H1.
  pose proof (Qlt_floor (b / cs)) as H2.
  pose proof (Qle_ceiling (r / cs)) as H3.
  assert (H : inject_Z (Qfloor (a / cs))
              < inject_Z (Qfloor (b / cs) + 1 + Qceiling (r / cs))).
  { rewrite !inject_Z_plus in *. lra. }
  rewrite <- Zlt_Qlt in H. lia.
Qed.

Section SpatialGridCoverage.
Import SpatialGrid.

(** A point within distance [r] of the query point lies in a cell of the
    block around the query point's cell. *)
Lemma near_point_in_block (qx qy x y r cs : Q) :
  0 < cs -> 0 <= r -> utils.distanceSquared qx qy x y <= r * r ->
  In (Math_floor (y / cs), Math_floor (x / cs))
     (block (Math_floor (qy / cs)) (Math_floor (qx / cs)) (Math_ceil (r / cs))).
Proof.
  intros Hcs Hr Hd. unfold utils.distanceSquared in Hd. cbv zeta in Hd.
  destruct (sq_bound (x - qx) (y - qy) r Hr Hd) as [Hx1 Hx2].
  assert (Hd' : (y - qy) * (y - qy) + (x - qx) * (x - qx) <= r * r) by lra.
  destruct (sq_bound (y - qy) (x - qx) r Hr Hd') as [Hy1 Hy2].
  apply in_block. unfold Math_floor, Math_ceil.
  pose proof (floor_shift x qx r cs Hcs ltac:(lra)).
  pose proof (floor_shift qx x r cs Hcs ltac:(lra)).
  pose proof (floor_shift y qy r cs Hcs ltac:(lra)).
  pose proof (floor_shift qy y r cs Hcs ltac:(lra)).
  lia.
Qed.

(** The heart of the superset property. *)
Lemma getNearby_contains {E : Type} (g0 : SpatialGrid.t E) log (qx qy r : Q) p x y :
  grid_wf g0 -> 0 < cellSize g0 ->
  In (p, x, y) log -> in_bounds g0 x y = true ->
  0 <= r -> utils.distanceSquared qx qy x y <= r * r ->
  In p (getNearby (insert_all g0 log) qx qy r).
Proof.
  intros Hwf Hcs Hin Hb Hr0 Hd.
  destruct (insert_all_shape g0 log) as (Hc & Hr & Hs).
  rewrite getNearby_block, Hs. apply in_flat_map.
  exists (Math_floor (y / cellSize g0), Math_floor (x / cellSize g0)). split.
  - now apply near_point_in_block.
  - unfold stored; cbn [fst snd]. rewrite in_grid_insert_all.
    unfold in_bounds in Hb. rewrite Hb. now apply insert_all_stores.
Qed.



(** An [insert] outside the indexed bounds is dropped, so a later query
    does not return the particle however close it is: here the particle is
    5 units left of the grid and 10 units from the query point. *)
Lemma out_of_bounds_insert_not_returned :
  getNearby (insert_all (@new_SpatialGrid nat 800 600 100) [(7%nat, -5, 50)]) 5 50 20 = [].
Proof. reflexivity. Qed.

End SpatialGridCoverage.

(** ** FPSController: quality bounds *)

Section QualityBounds.
Import FPSController.

Lemma shouldRender_quality currentTime f :
  qualityLevel (snd (shouldRender currentTime f)) = qualityLevel f.
Proof. unfold shouldRender. destruct (js_ge _ _); reflexivity. Qed.

Lemma updateQuality_quality_ok h s : quality_ok s -> quality_ok (updateQuality h s).
Proof.
  destruct s as [f c]. unfold quality_ok, updateQuality. cbn [fst].
  intros [Hlo Hhi].
  destruct (Z.rem _ 60 =? 0)%Z; [|cbn; auto].
  destruct (js_lt (inject_Z _) _).
  - cbn [fst set_quality qualityLevel]. unfold Math_max. split.
    + apply Q.le_max_l.
    + apply Q.max_lub; lra.
  - destruct (js_gt _ _ && js_lt _ _).
    + cbn [fst set_quality qualityLevel]. unfold Math_min. split.
      * apply Q.min_glb; lra.
      * apply Q.le_min_l.
    + cbn; auto.
Qed.

Lemma call_quality_ok k s : quality_ok s -> quality_ok (call k s).
Proof.
  destruct k as [t|h]; [|apply updateQuality_quality_ok].
  unfold quality_ok, call. cbn [fst]. now rewrite shouldRender_quality.
Qed.

Lemma calls_quality_ok ks s : quality_ok s -> quality_ok (calls ks s).
Proof.
  unfold calls. revert s. induction ks as [|k ks IH]; intros s Hs; cbn; auto.
  apply IH, call_quality_ok, Hs.
Qed.

(** C3. Starting from [qualityLevel = 1.0], with any target frame rate, any
    initial frame count and any configuration, after any finite sequence of
    [updateQuality()] calls (each with an arbitrary monitor history, and
    interleaved with arbitrary [shouldRender] calls, which move the frame
    counter) [qualityLevel] lies in the closed interval [0.3, 1.0]. *)
Theorem qualityLevel_stays_in_range
    (f : FPSController.t) (n : Z) (c : Config) (ks : list Call) :
  3 # 10 <= qualityLevel (fst (calls ks (set_quality f n 1, c))) <= 1.
Proof.
  apply (calls_quality_ok ks (set_quality f n 1, c)).
  unfold quality_ok. cbn. split; discriminate.
Qed.

End QualityBounds.

(** ** FPSController: the frame gate *)

Section FrameGate.
Import FPSController.

Lemma shouldRender_true_iff t f :
  fst (shouldRender t f) = true <-> frameInterval f <= t - lastFrameTime f.
Proof.
  unfold shouldRender, js_ge. destruct (js_le _ _) eqn:E; cbn [fst].
  - apply js_le_iff in E. tauto.
  - apply js_le_false_iff in E. split; [discriminate|].
    intros H. exfalso. apply (Qlt_not_le _ _ E H).
Qed.

Lemma shouldRender_accept t f :
  fst (shouldRender t f) = true ->
  lastFrameTime (snd (shouldRender t f)) = t /\
  frameCount (snd (shouldRender t f)) = (frameCount f + 1)%Z /\
  frameInterval (snd (shouldRender t f)) = frameInterval f.
Proof. unfold shouldRender. destruct (js_ge _ _); cbn; [auto|discriminate]. Qed.

Lemma shouldRender_reject t f :
  fst (shouldRender t f) = false -> snd (shouldRender t f) = f.
Proof. unfold shouldRender. destruct (js_ge _ _); cbn; [discriminate|auto]. Qed.

Lemma shouldRender_interval t f :
  frameInterval (snd (shouldRender t f)) = frameInterval f.
Proof. unfold shouldRender. destruct (js_ge _ _); reflexivity. Qed.

Lemma polls_interval trace f : frameInterval (polls trace f) = frameInterval f.
Proof.
  unfold polls. revert f. induction trace as [|e trace IH]; intros f; cbn; auto.
  rewrite IH. apply shouldRender_interval.
Qed.

Lemma last_cons {A} (a d : A) l : List.last (a :: l) d = List.last l a.
Proof.
  revert a d. induction l as [|b l IH]; intros a d; [reflexivity|].
  change (List.last (b :: l) d = List.last (b :: l) a). now rewrite !IH.
Qed.

(** The single stored timestamp is the time of the latest render accepted
    for any scene. *)
Lemma polls_lastFrameTime trace f :
  lastFrameTime (polls trace f) = last_render trace f.
Proof.
  unfold polls, last_render. revert f.
  induction trace as [|e trace IH]; intros f; [reflexivity|].
  cbn [fold_left accepted].
  destruct (shouldRender (snd e) f) as [ok f'] eqn:E. cbn [snd].
  destruct ok.
  - cbn [List.map]. rewrite last_cons, IH.
    pose proof (shouldRender_accept (snd e) f) as Ha. rewrite E in Ha.
    cbn [fst snd] in Ha. destruct (Ha eq_refl) as (Hl & _). now rewrite Hl.
  - pose proof (shouldRender_reject (snd e) f) as Hr. rewrite E in Hr.
    cbn in Hr. rewrite (Hr eq_refl). apply IH.
Qed.

Lemma accepted_spaced trace f :
  0 <= frameInterval f ->
  Forall (fun e => frameInterval f <= snd e - lastFrameTime f) (accepted trace f) /\
  ForallOrdPairs (fun a b => frameInterval f <= snd b - snd a) (accepted trace f).
Proof.
  revert f. induction trace as [|e trace IH]; intros f Hi.
  - split; constructor.
  - cbn [accepted]. destruct (shouldRender (snd e) f) as [ok f'] eqn:E.
    destruct ok.
    + pose proof (proj1 (shouldRender_true_iff (snd e) f)) as Ht.
      pose proof (shouldRender_accept (snd e) f) as Ha. rewrite E in Ht, Ha.
      cbn [fst snd] in Ht, Ha. specialize (Ht eq_refl).
      destruct (Ha eq_refl) as (Hl & _ & Hint).
      destruct (IH f') as [IH1 IH2]; [rewrite Hint; exact Hi|].
      rewrite Hint, Hl in IH1. rewrite Hint in IH2.
      split.
      * constructor; [exact Ht|].
        eapply List.Forall_impl; [|exact IH1]. cbn. intros a Ha'. lra.
      * constructor; [exact IH1|exact IH2].
    + pose proof (shouldRender_reject (snd e) f) as Hr. rewrite E in Hr.
      cbn in Hr. rewrite (Hr eq_refl) in *. apply IH, Hi.
Qed.

(** What the gate does do.  [shouldRender(now)] returns true, and then
    stores [now], exactly when the time elapsed since the latest accepted
    render of any scene is at least the frame interval; otherwise it returns
    false and changes nothing.  Any two accepted renders, of whichever
    scenes, are at least one frame interval apart.  The timestamp is shared:
    right after an accepted render, every poll made less than one interval
    later is refused, whichever scene makes it. *)
Lemma shouldRender_gates_on_shared_timestamp
    (f : FPSController.t) (trace : list (SceneId * Q)) (now : Q) :
  0 <= frameInterval f ->
  let f1 := polls trace f in
  (fst (shouldRender now f1) = true <->
   frameInterval f <= now - last_render trace f)
  /\ (fst (shouldRender now f1) = true ->
      lastFrameTime (snd (shouldRender now f1)) = now)
  /\ (fst (shouldRender now f1) = false -> snd (shouldRender now f1) = f1)
  /\ ForallOrdPairs (fun a b => frameInterval f <= snd b - snd a) (accepted trace f)
  /\ (forall later,
        fst (shouldRender now f1) = true -> later - now < frameInterval f ->
        fst (shouldRender later (snd (shouldRender now f1))) = false).
Proof.
  intros Hi f1. repeat split.
  - intros H. apply shouldRender_true_iff in H.
    unfold f1 in H. now rewrite polls_interval, polls_lastFrameTime in H.
  - intros H. apply shouldRender_true_iff.
    unfold f1. now rewrite polls_interval, polls_lastFrameTime.
  - intros H. now apply shouldRender_accept.
  - apply shouldRender_reject.
  - apply accepted_spaced, Hi.
  - intros later Hacc Hlt.
    destruct (shouldRender_accept now f1 Hacc) as (Hl & _ & Hint).
    apply not_true_iff_false. intros Habs.
    apply shouldRender_true_iff in Habs. rewrite Hl, Hint in Habs.
    unfold f1 in Habs. rewrite polls_interval in Habs.
    apply (Qlt_not_le _ _ Hlt Habs).
Qed.

(** The gate is not per scene: the hero scene's accepted render at time
    1000 makes the matrix scene's poll at the same time fail, although the
    matrix scene has never rendered (its own last render is the initial 0,
    a whole second earlier). *)
Lemma scene_gating_not_independent :
  ~ (fst (shouldRender 1000
            (polls [(HeroScene, 1000)] (FPSController.init (CONFIG desktop_device))))
     = true
     <-> frameInterval (FPSController.init (CONFIG desktop_device))
         <= 1000 - own_last_render MatrixScene [(HeroScene, 1000)]
                     (FPSController.init (CONFIG desktop_device))).
Proof.
  intros [_ H]. assert (Hge : frameInterval (FPSController.init (CONFIG desktop_device))
         <= 1000 - own_last_render MatrixScene [(HeroScene, 1000)]
                     (FPSController.init (CONFIG desktop_device))) by (vm_compute; discriminate).
  specialize (H Hge). vm_compute in H. discriminate.
Qed.

(** Of two polls made with the same timestamp the second is always
    refused: if the first was accepted it has just stored that timestamp,
    and if it was refused nothing has changed since. *)
Lemma second_poll_of_a_frame_is_refused t f :
  0 < frameInterval f ->
  fst (shouldRender t (snd (shouldRender t f))) = false.
Proof.
  intros Hi. destruct (fst (shouldRender t f)) eqn:E.
  - destruct (shouldRender_accept t f E) as (Hl & _ & Hint).
    apply not_true_iff_false. intros Habs.
    apply shouldRender_true_iff in Habs. rewrite Hl, Hint in Habs. lra.
  - now rewrite (shouldRender_reject t f E).
Qed.

End FrameGate.

(** C5.  The three scenes poll one [FPSController] with one
    [lastFrameTime]; no scene has a timestamp of its own.  The browser
    hands every callback of an animation frame the same timestamp, so of
    two scenes polling in the same frame the second is always refused.  On
    the running main site the hero callback is queued before the matrix
    callback: over 60 frames 17 ms apart the hero scene renders 60 times
    (its particle has drifted from 100 to 160) and the matrix scene not
    once (its column is exactly as it was, although the scene is active
    and its callback is pending in every frame).  With the hero scene
    switched off the same frames render the matrix scene 60 times: the
    column has fallen from -100 to -40 and has received its glyph. *)
Theorem shared_timestamp_starves_matrix_scene :
  (forall t f,
      0 < FPSController.frameInterval f ->
      fst (FPSController.shouldRender t (snd (FPSController.shouldRender t f))) = false)
  /\
  let col := MatrixColumn.mk 20 (-100) 1 [] 6 (1 # 2) 0 13 in
  let w := main_site [HeroParticle.at_rest 100 100] [col] in
  let times := List.map (fun k => inject_Z (Z.of_nat k) * 17) (seq 1 60) in
  let w1 := run_frames falling desktop_device tt times w in
  let alone := set_hero w (set_isActive (hero w) false) (spatialGrid w) (strokes w) in
  let w2 := run_frames falling desktop_device tt times alone in
  isActive (hero w) = true /\ isActive (matrix w) = true /\
  queue (sched w) = [(1, HeroAnimate); (2, MatrixAnimate)]%positive /\
  Forall2 Qeq (List.map HeroParticle.x (entities (hero w1))) [160] /\
  entities (matrix w1) = [col] /\
  isActive (matrix w1) = true /\
  queue (sched w1) = [(121, HeroAnimate); (122, MatrixAnimate)]%positive /\
  Forall2 Qeq (List.map MatrixColumn.y (entities (matrix w2))) [-40] /\
  List.map (fun c => length (MatrixColumn.characters c)) (entities (matrix w2)) = [1%nat].
Proof.
  split; [exact second_poll_of_a_frame_is_refused|].
  vm_compute. repeat split; repeat constructor.
Qed.

(** ** Particle3D: the trail buffer *)

Section TrailBuffer.
Import Particle3D.

Lemma constructor_fresh d canvas rnd :
  trail (constructor d canvas rnd) = [] /\
  (maxTrailLength (constructor d canvas rnd) = 4 \/
   maxTrailLength (constructor d canvas rnd) = 8)%Z.
Proof.
  unfold constructor, reset. cbn [trail maxTrailLength].
  destruct (mobile d); auto.
Qed.

Lemma sample_trail_cap t p :
  maxTrailLength (sample_trail t p) = maxTrailLength p.
Proof. unfold sample_trail. destruct (js_gt _ _); reflexivity. Qed.

Lemma update_cap canvas t rnd p :
  maxTrailLength (update canvas t rnd p) = maxTrailLength p.
Proof.
  unfold update. destruct (out_of_bounds _ _); cbn [reset maxTrailLength];
    now rewrite sample_trail_cap.
Qed.

Lemma sample_trail_bounded t p :
  (0 < maxTrailLength p)%Z ->
  (Z.of_nat (length (trail p)) <= maxTrailLength p)%Z ->
  (Z.of_nat (length (trail (sample_trail t p))) <= maxTrailLength p)%Z.
Proof.
  intros Hpos Hlen. unfold sample_trail. destruct (js_gt _ _); [|exact Hlen].
  cbn [set_trail trail]. rewrite length_app. cbn [length].
  destruct (Z.leb_spec (maxTrailLength p) (Z.of_nat (length (trail p)))) as [Hfull|Hroom].
  - destruct (trail p) as [|s tr]; cbn [tl length] in *; lia.
  - lia.
Qed.

Lemma update_bounded canvas t rnd p :
  (0 < maxTrailLength p)%Z ->
  (Z.of_nat (length (trail p)) <= maxTrailLength p)%Z ->
  (Z.of_nat (length (trail (update canvas t rnd p))) <= maxTrailLength p)%Z.
Proof.
  intros Hpos Hlen. unfold update. destruct (out_of_bounds _ _).
  - cbn [reset trail length]. lia.
  - apply (sample_trail_bounded t (move p)); assumption.
Qed.

(** The trail of a particle never grows past [maxTrailLength], whatever the
    number of ticks, the clock values and the random draws. *)
Lemma trail_never_exceeds_cap d canvas rnd ticks :
  (Z.of_nat (length (trail (run ticks (constructor d canvas rnd))))
   <= maxTrailLength (run ticks (constructor d canvas rnd)))%Z.
Proof.
  destruct (constructor_fresh d canvas rnd) as [Htr Hcap].
  assert (Hinv : (0 < maxTrailLength (constructor d canvas rnd))%Z /\
          (Z.of_nat (length (trail (constructor d canvas rnd)))
           <= maxTrailLength (constructor d canvas rnd))%Z).
  { rewrite Htr. cbn [length]. lia. }
  clear Htr Hcap. revert Hinv. generalize (constructor d canvas rnd).
  unfold run. induction ticks as [|k ticks IH]; intros p [Hpos Hlen]; cbn [fold_left].
  - exact Hlen.
  - apply IH. rewrite update_cap. split; [exact Hpos|].
    now apply update_bounded.
Qed.

(** A sample taken when the trail is full pushes the oldest sample out. *)
Lemma full_trail_evicts_oldest canvas t rnd p :
  (0 < maxTrailLength p)%Z ->
  Z.of_nat (length (trail p)) = maxTrailLength p ->
  js_gt (t - lastTrailTime p) 50 = true ->
  out_of_bounds canvas (sample_trail t (move p)) = false ->
  trail (update canvas t rnd p) =
  tl (trail p) ++ [{| tp_x := x p + vx p; tp_y := y p + vy p; tp_z := z p + vz p |}].
Proof.
  intros Hpos Hfull Hgate Hin. unfold update. rewrite Hin.
  unfold sample_trail. cbn [move lastTrailTime trail maxTrailLength x y z].
  rewrite Hgate. cbn [set_trail trail].
  destruct (Z.leb_spec (maxTrailLength p) (Z.of_nat (length (trail p)))); [reflexivity|lia].
Qed.

(** The trail after one [update], case by case: a reset empties it; with
    the 50 ms gate closed it is untouched; a sample taken below capacity is
    appended and evicts nothing. *)
Lemma update_trail_cases canvas t rnd p :
  (out_of_bounds canvas (sample_trail t (move p)) = true ->
   trail (update canvas t rnd p) = []) /\
  (out_of_bounds canvas (sample_trail t (move p)) = false ->
   js_gt (t - lastTrailTime p) 50 = false ->
   trail (update canvas t rnd p) = trail p) /\
  (out_of_bounds canvas (sample_trail t (move p)) = false ->
   js_gt (t - lastTrailTime p) 50 = true ->
   (Z.of_nat (length (trail p)) < maxTrailLength p)%Z ->
   trail (update canvas t rnd p) =
   trail p ++ [{| tp_x := x p + vx p; tp_y := y p + vy p; tp_z := z p + vz p |}]).
Proof.
  unfold update. repeat split.
  - intros ->. reflexivity.
  - intros -> Hgate. unfold sample_trail. cbn [move lastTrailTime].
    now rewrite Hgate.
  - intros -> Hgate Hroom. unfold sample_trail.
    cbn [move lastTrailTime trail maxTrailLength x y z]. rewrite Hgate.
    cbn [set_trail trail].
    destruct (Z.leb_spec (maxTrailLength p) (Z.of_nat (length (trail p)))); [lia|reflexivity].
Qed.

End TrailBuffer.

(** ** MatrixColumn: the glyph buffer *)

Section GlyphBuffer.
Import MatrixColumn.

Lemma length_age_chars cs : (length (age_chars cs) <= length cs)%nat.
Proof.
  induction cs as [|g cs IH]; cbn [age_chars fold_right length]; [lia|].
  fold (age_chars cs). destruct (80 <? _)%Z; cbn [length]; lia.
Qed.

Lemma reset_fields d c rnd col :
  characters (reset d c rnd col) = [].
Proof. reflexivity. Qed.

(** What the guard of [update] does guarantee: a glyph is appended only
    while the length is below [maxLength], so the length stays below
    [maxLength + 1]. *)
Lemma update_below_cap_plus_one d c canvas now rnd col :
  (length (characters col) = 0%nat \/
   inject_Z (Z.of_nat (length (characters col))) < maxLength col + 1) ->
  (length (characters (update d c canvas now rnd col)) = 0%nat \/
   inject_Z (Z.of_nat (length (characters (update d c canvas now rnd col))))
   < maxLength (update d c canvas now rnd col) + 1).
Proof.
  intros Hinv. unfold update. destruct (reducedMotion d); [exact Hinv|].
  destruct (js_gt _ _); [left; reflexivity|].
  cbn [set_chars characters maxLength y nextCharTime].
  set (col0 := set_chars col (y col + speed col) (characters col) (nextCharTime col)).
  assert (Hmax : maxLength (add_char c now rnd col0) = maxLength col).
  { unfold add_char. destruct (_ && _); reflexivity. }
  rewrite Hmax.
  assert (Hadd : inject_Z (Z.of_nat (length (characters (add_char c now rnd col0))))
                 < maxLength col + 1 \/
                 length (characters (add_char c now rnd col0)) = 0%nat).
  { unfold add_char. destruct (js_gt now _ && js_lt _ _) eqn:E.
    - left. apply andb_true_iff in E as [_ E]. apply js_lt_iff in E.
      cbn [col0 set_chars characters maxLength] in *.
      rewrite length_app. cbn [length].
      rewrite Nat2Z.inj_add, inject_Z_plus. change (inject_Z (Z.of_nat 1)) with 1. lra.
    - cbn [col0 set_chars characters]. destruct Hinv as [H0|Hlt]; [right|left]; assumption. }
  pose proof (length_age_chars (characters (add_char c now rnd col0))) as Hage.
  destruct Hadd as [Hlt|H0].
  - right. eapply Qle_lt_trans; [|exact Hlt].
    rewrite <- Zle_Qle. lia.
  - left. lia.
Qed.

Lemma add_char_length c now rnd col :
  (length (characters (add_char c now rnd col)) <= S (length (characters col)))%nat /\
  (length (characters (add_char c now rnd col)) = S (length (characters col)) ->
   inject_Z (Z.of_nat (length (characters col))) < maxLength col /\
   nextCharTime col < now).
Proof.
  unfold add_char. destruct (js_gt now _ && js_lt _ _) eqn:E.
  - apply andb_true_iff in E as [E1 E2]. apply js_lt_iff in E1, E2.
    cbn [set_chars characters]. rewrite length_app. cbn [length].
    split; [lia|auto].
  - split; [lia|]. intros H. exfalso. lia.
Qed.

(** An [update] appends at most one glyph, and only when the buffer is below
    [maxLength] and the delay has passed. *)
Lemma update_appends_below_cap d c canvas now rnd col :
  (length (characters (update d c canvas now rnd col)) <= S (length (characters col)))%nat /\
  (length (characters (update d c canvas now rnd col)) = S (length (characters col)) ->
   inject_Z (Z.of_nat (length (characters col))) < maxLength col /\
   nextCharTime col < now).
Proof.
  unfold update. destruct (reducedMotion d).
  { split; [lia|]. intros H. exfalso. lia. }
  destruct (js_gt _ _).
  { cbn [reset characters length]. split; [lia|]. intros H. exfalso. lia. }
  cbn [set_chars characters].
  set (col0 := set_chars col (y col + speed col) (characters col) (nextCharTime col)).
  pose proof (add_char_length c now rnd col0) as [Hle Heq].
  pose proof (length_age_chars (characters (add_char c now rnd col0))) as Hage.
  cbn [col0 set_chars characters maxLength nextCharTime] in Hle, Heq.
  split; [fold col0; lia|]. fold col0. intros H. apply Heq. lia.
Qed.

(** At capacity nothing is appended and nothing is evicted: the glyphs only
    age. *)
Lemma update_at_capacity d c canvas now rnd col :
  reducedMotion d = false ->
  js_gt (y col + speed col) (cv_height canvas + 100) = false ->
  maxLength col <= inject_Z (Z.of_nat (length (characters col))) ->
  characters (update d c canvas now rnd col) = age_chars (characters col).
Proof.
  intros Hrm Hy Hfull. unfold update. rewrite Hrm, Hy.
  cbn [set_chars characters]. unfold add_char.
  cbn [set_chars characters maxLength nextCharTime].
  apply js_lt_false_iff in Hfull. rewrite Hfull, andb_false_r. reflexivity.
Qed.

(** The ageing loop keeps, in order, exactly the glyphs that are not older
    than 80 once aged by one. *)
Lemma age_chars_filter cs :
  age_chars cs =
  List.filter (fun g => (age g <=? 80)%Z)
    (List.map (fun g => {| char := char g; age := age g + 1 |}) cs).
Proof.
  induction cs as [|g cs IH]; [reflexivity|].
  cbn [age_chars fold_right List.map List.filter]. fold (age_chars cs).
  cbv zeta. cbn [age]. rewrite IH.
  destruct (Z.ltb_spec 80 (age g + 1)); destruct (Z.leb_spec (age g + 1) 80);
    try lia; reflexivity.
Qed.

(** The glyph buffer after one [update], case by case.  Under reduced
    motion nothing changes.  A column that left the canvas is reset to an
    empty buffer.  Otherwise the buffer is the old one with every glyph a
    tick older and the glyphs older than 80 removed, in the old order,
    followed by the new glyph when one is due and the buffer was below
    [maxLength]: no glyph leaves in any other way. *)
Lemma update_characters_cases d c canvas now rnd col :
  (reducedMotion d = true -> update d c canvas now rnd col = col) /\
  (reducedMotion d = false ->
   js_gt (y col + speed col) (cv_height canvas + 100) = true ->
   characters (update d c canvas now rnd col) = []) /\
  (reducedMotion d = false ->
   js_gt (y col + speed col) (cv_height canvas + 100) = false ->
   characters (update d c canvas now rnd col) =
   List.filter (fun g => (age g <=? 80)%Z)
     (List.map (fun g => {| char := char g; age := age g + 1 |}) (characters col))
   ++ (if js_gt now (nextCharTime col)
          && js_lt (inject_Z (Z.of_nat (length (characters col)))) (maxLength col)
       then [{| char := utils.randomInt (rnd 0%nat) 0 (matrix_characters_length c - 1);
                age := 1 |}]
       else [])).
Proof.
  unfold update. repeat split.
  - intros ->. reflexivity.
  - intros -> ->. reflexivity.
  - intros -> ->. cbn [set_chars characters]. rewrite age_chars_filter.
    unfold add_char. cbn [set_chars characters nextCharTime maxLength].
    destruct (js_gt now (nextCharTime col) && js_lt _ (maxLength col)).
    + cbn [set_chars characters]. rewrite List.map_app, List.filter_app. reflexivity.
    + now rewrite app_nil_r.
Qed.

End GlyphBuffer.

(** C2 (amended). The trail of a [Particle3D] never grows past
    [maxTrailLength], for any number of ticks, clock values and random
    draws, and a sample taken when the trail is full evicts the oldest one
    (ring buffer); below capacity a sample evicts nothing.  The glyph
    buffer of a [MatrixColumn] is not a ring buffer: an [update] appends at
    most one glyph and only while the length is below [maxLength] (with the
    delay elapsed); at capacity the due glyph is dropped and no glyph is
    evicted; and glyphs leave the buffer only by age or when the column
    resets: after an [update] that does not reset the column the buffer
    holds, in their old order and one tick older, exactly the old glyphs
    that are not older than 80, followed by the new glyph if one was
    appended. *)
Theorem trail_is_ring_buffer_glyphs_are_guarded :
  (forall d canvas rnd ticks,
      (Z.of_nat (length (Particle3D.trail
                           (Particle3D.run ticks (Particle3D.constructor d canvas rnd))))
       <= Particle3D.maxTrailLength
            (Particle3D.run ticks (Particle3D.constructor d canvas rnd)))%Z)
  /\ (forall canvas t rnd p,
        (0 < Particle3D.maxTrailLength p)%Z ->
        Z.of_nat (length (Particle3D.trail p)) = Particle3D.maxTrailLength p ->
        js_gt (t - Particle3D.lastTrailTime p) 50 = true ->
        Particle3D.out_of_bounds canvas
          (Particle3D.sample_trail t (Particle3D.move p)) = false ->
        Particle3D.trail (Particle3D.update canvas t rnd p) =
        tl (Particle3D.trail p) ++
        [{| Particle3D.tp_x := Particle3D.x p + Particle3D.vx p;
            Particle3D.tp_y := Particle3D.y p + Particle3D.vy p;
            Particle3D.tp_z := Particle3D.z p + Particle3D.vz p |}])
  /\ (forall d c canvas now rnd col,
        (length (MatrixColumn.characters (MatrixColumn.update d c canvas now rnd col))
         <= S (length (MatrixColumn.characters col)))%nat /\
        (length (MatrixColumn.characters (MatrixColumn.update d c canvas now rnd col))
         = S (length (MatrixColumn.characters col)) ->
         inject_Z (Z.of_nat (length (MatrixColumn.characters col)))
           < MatrixColumn.maxLength col /\
         MatrixColumn.nextCharTime col < now))
  /\ (forall d c canvas now rnd col,
        reducedMotion d = false ->
        js_gt (MatrixColumn.y col + MatrixColumn.speed col) (cv_height canvas + 100)
          = false ->
        MatrixColumn.maxLength col
          <= inject_Z (Z.of_nat (length (MatrixColumn.characters col))) ->
        MatrixColumn.characters (MatrixColumn.update d c canvas now rnd col)
        = MatrixColumn.age_chars (MatrixColumn.characters col))
  /\ (forall d c canvas now rnd col,
        (reducedMotion d = true -> MatrixColumn.update d c canvas now rnd col = col) /\
        (reducedMotion d = false ->
         js_gt (MatrixColumn.y col + MatrixColumn.speed col) (cv_height canvas + 100)
           = true ->
         MatrixColumn.characters (MatrixColumn.update d c canvas now rnd col) = []) /\
        (reducedMotion d = false ->
         js_gt (MatrixColumn.y col + MatrixColumn.speed col) (cv_height canvas + 100)
           = false ->
         MatrixColumn.characters (MatrixColumn.update d c canvas now rnd col) =
         List.filter (fun g => (MatrixColumn.age g <=? 80)%Z)
           (List.map (fun g => {| MatrixColumn.char := MatrixColumn.char g;
                                  MatrixColumn.age := MatrixColumn.age g + 1 |})
                     (MatrixColumn.characters col))
         ++ (if js_gt now (MatrixColumn.nextCharTime col)
                && js_lt (inject_Z (Z.of_nat (length (MatrixColumn.characters col))))
                         (MatrixColumn.maxLength col)
             then [{| MatrixColumn.char :=
                        utils.randomInt (rnd 0%nat) 0 (matrix_characters_length c - 1);
                      MatrixColumn.age := 1 |}]
             else [])))
  /\ (forall canvas t rnd p,
        (Particle3D.out_of_bounds canvas
           (Particle3D.sample_trail t (Particle3D.move p)) = true ->
         Particle3D.trail (Particle3D.update canvas t rnd p) = []) /\
        (Particle3D.out_of_bounds canvas
           (Particle3D.sample_trail t (Particle3D.move p)) = false ->
         js_gt (t - Particle3D.lastTrailTime p) 50 = false ->
         Particle3D.trail (Particle3D.update canvas t rnd p) = Particle3D.trail p) /\
        (Particle3D.out_of_bounds canvas
           (Particle3D.sample_trail t (Particle3D.move p)) = false ->
         js_gt (t - Particle3D.lastTrailTime p) 50 = true ->
         (Z.of_nat (length (Particle3D.trail p)) < Particle3D.maxTrailLength p)%Z ->
         Particle3D.trail (Particle3D.update canvas t rnd p) =
         Particle3D.trail p ++
         [{| Particle3D.tp_x := Particle3D.x p + Particle3D.vx p;
             Particle3D.tp_y := Particle3D.y p + Particle3D.vy p;
             Particle3D.tp_z := Particle3D.z p + Particle3D.vz p |}])).
Proof.
  split; [exact trail_never_exceeds_cap|].
  split; [exact full_trail_evicts_oldest|].
  split; [exact update_appends_below_cap|].
  split; [exact update_at_capacity|].
  split; [exact update_characters_cases|exact update_trail_cases].
Qed.

(** C2, as stated, fails on the glyph buffer.  A desktop column whose
    [reset] drew 0.05 for its length has [maxLength = 5.5]; six ticks a
    second apart append six glyphs, so the buffer holds 6 > 5.5 of them.  At
    the seventh tick a glyph is due again; none is appended and the oldest
    is not evicted: the same six glyphs remain, one tick older. *)
Lemma glyph_buffer_is_not_a_ring_buffer :
  let rnd := fun _ : nat => 1 # 20 in
  let canvas := {| cv_width := 800; cv_height := 600 |} in
  let tick := fun n =>
    {| MatrixColumn.tick_canvas := canvas; MatrixColumn.tick_now := n;
       MatrixColumn.tick_rnd := rnd |} in
  let col := MatrixColumn.run desktop_device (CONFIG desktop_device)
               [tick 1000; tick 2000; tick 3000; tick 4000; tick 5000; tick 6000]
               (MatrixColumn.constructor desktop_device (CONFIG desktop_device) 20 rnd) in
  let col' := MatrixColumn.update desktop_device (CONFIG desktop_device) canvas 7000
                (fun _ => 1 # 2) col in
  MatrixColumn.maxLength col == 11 # 2 /\
  length (MatrixColumn.characters col) = 6%nat /\
  MatrixColumn.maxLength col < inject_Z (Z.of_nat (length (MatrixColumn.characters col))) /\
  MatrixColumn.nextCharTime col < 7000 /\
  List.map MatrixColumn.age (MatrixColumn.characters col) = [6; 5; 4; 3; 2; 1]%Z /\
  List.map MatrixColumn.age (MatrixColumn.characters col') = [7; 6; 5; 4; 3; 2]%Z.
Proof. vm_compute. repeat split. Qed.

Lemma trail_is_ring_buffer_glyphs_are_guarded_witness :
  let col := MatrixColumn.mk 20 (-100) 1
               [{| MatrixColumn.char := 3; MatrixColumn.age := 80 |};
                {| MatrixColumn.char := 5; MatrixColumn.age := 79 |};
                {| MatrixColumn.char := 7; MatrixColumn.age := 1 |}] 6 (1 # 2) 0 13 in
  reducedMotion desktop_device = false /\
  js_gt (MatrixColumn.y col + MatrixColumn.speed col) (600 + 100) = false /\
  MatrixColumn.characters
    (MatrixColumn.update desktop_device (CONFIG desktop_device)
       {| cv_width := 800; cv_height := 600 |} 7000 (fun _ => 1 # 2) col)
  = [{| MatrixColumn.char := 5; MatrixColumn.age := 80 |};
     {| MatrixColumn.char := 7; MatrixColumn.age := 2 |};
     {| MatrixColumn.char := 37; MatrixColumn.age := 1 |}].
Proof.
  cbv zeta. split; [reflexivity|]. split; [reflexivity|].
  exact (proj2 (proj2
           (proj1 (proj2 (proj2 (proj2 (proj2 trail_is_ring_buffer_glyphs_are_guarded))))
              desktop_device (CONFIG desktop_device)
              {| cv_width := 800; cv_height := 600 |} 7000 (fun _ => 1 # 2)
              (MatrixColumn.mk 20 (-100) 1
                 [{| MatrixColumn.char := 3; MatrixColumn.age := 80 |};
                  {| MatrixColumn.char := 5; MatrixColumn.age := 79 |};
                  {| MatrixColumn.char := 7; MatrixColumn.age := 1 |}] 6 (1 # 2) 0 13)))
           eq_refl eq_refl).
Defined.


(** ** MemoryManager: cleanup *)

Section Cleanup.
Import MemoryManager.
Context {Err : Type}.

Lemma cleanup_sizes now (w : World Err) :
  length (entities (intro (cleanup now w))) = length (entities (intro w)) /\
  length (entities (matrix (cleanup now w))) = length (entities (matrix w)).
Proof.
  unfold cleanup. destruct (js_lt _ _); [auto|].
  cbn. now rewrite !length_map.
Qed.

(** The periodic [cleanup] only cuts a trail that is over its cap, and cuts
    it back to the cap. *)
Lemma trim_trail_length p :
  (0 < Particle3D.maxTrailLength p)%Z ->
  Z.of_nat (length (Particle3D.trail (trim_trail p))) =
  Z.min (Z.of_nat (length (Particle3D.trail p))) (Particle3D.maxTrailLength p).
Proof.
  intros Hpos. unfold trim_trail.
  destruct (Z.ltb_spec (Particle3D.maxTrailLength p)
              (Z.of_nat (length (Particle3D.trail p)))) as [Hover|Hfit]; [|lia].
  cbn [Particle3D.set_trail Particle3D.trail]. unfold slice, js_trunc.
  assert (Hneg : Qle_bool 0 (- inject_Z (Particle3D.maxTrailLength p)) = false).
  { apply not_true_iff_false. rewrite Qle_bool_iff.
    intros H. assert (H' : inject_Z (Particle3D.maxTrailLength p) <= inject_Z 0).
    { change (inject_Z 0) with 0. lra. }
    rewrite <- Zle_Qle in H'. lia. }
  rewrite Hneg.
  change (- inject_Z (Particle3D.maxTrailLength p))
    with (inject_Z (- Particle3D.maxTrailLength p)).
  rewrite Qceiling_Z.
  destruct (Z.ltb_spec (- Particle3D.maxTrailLength p) 0); [|lia].
  rewrite length_drop. lia.
Qed.

(** C10. After [forceCleanup()] every [Particle3D] has an empty trail and
    every [MatrixColumn] an empty [characters] array, whatever they held
    before and whether or not the throttled [cleanup()] it starts with did
    anything; no particle or column is removed. *)
Theorem forceCleanup_empties_every_buffer (now : Q) (w : World Err) :
  Forall (fun p => length (Particle3D.trail p) = 0%nat)
         (entities (intro (forceCleanup now w)))
  /\ Forall (fun col => length (MatrixColumn.characters col) = 0%nat)
            (entities (matrix (forceCleanup now w)))
  /\ length (entities (intro (forceCleanup now w))) = length (entities (intro w))
  /\ length (entities (matrix (forceCleanup now w))) = length (entities (matrix w)).
Proof.
  unfold forceCleanup. cbn [set_matrix set_intro set_entities intro matrix entities].
  destruct (cleanup_sizes now w) as [Hi Hm].
  repeat split.
  - apply List.Forall_forall. intros p Hp. apply in_map_iff in Hp as (q & <- & _).
    reflexivity.
  - apply List.Forall_forall. intros col Hc. apply in_map_iff in Hc as (q & <- & _).
    reflexivity.
  - now rewrite length_map.
  - now rewrite length_map.
Qed.

End Cleanup.

(** ** HeroCanvas.drawConnections *)

Section ConnectionLines.
Import HeroCanvas.

(** At most [maxConnections] segments start at one particle. *)
Lemma connect_capped c q ps i p1 count nearby :
  (count <= hero_maxConnections c)%Z ->
  (Z.of_nat (length (connect c q ps i p1 count nearby))
   <= hero_maxConnections c - count)%Z.
Proof.
  revert count. induction nearby as [|j rest IH]; intros count Hc.
  - cbn. lia.
  - cbn [connect]. destruct (Z.ltb_spec count (hero_maxConnections c)) as [Hlt|Hge].
    + destruct (j =? i)%nat; [apply IH; lia|].
      destruct (ps !! j) as [p2|]; [|apply IH; lia].
      cbv zeta. destruct (js_lt _ _); [|apply IH; lia].
      cbn [length]. specialize (IH (count + 1)%Z ltac:(lia)). lia.
    + cbn. lia.
Qed.

Lemma connectionsOf_capped c q g ps i :
  (0 <= hero_maxConnections c)%Z ->
  (Z.of_nat (length (connectionsOf c q g ps i)) <= hero_maxConnections c)%Z.
Proof.
  intros Hmax. unfold connectionsOf. destruct (ps !! i) as [p1|]; [|cbn; lia].
  pose proof (connect_capped c q ps i p1 0 (nearbyParticles c g ps i p1) Hmax). lia.
Qed.

(** The segments of one particle are taken in the order the candidates are
    found: they are the first in-range candidates, never re-ordered by
    distance.  With room for every candidate the segments are exactly the
    in-range candidates, in candidate order. *)
Lemma connect_first_found c q ps i p1 count nearby :
  (count + Z.of_nat (length nearby) <= hero_maxConnections c)%Z ->
  List.map (fun l => (line_x2 l, line_y2 l)) (connect c q ps i p1 count nearby) =
  flat_map (fun j =>
      if (j =? i)%nat then []
      else match ps !! j with
           | None => []
           | Some p2 =>
               if js_lt (utils.distanceSquared (HeroParticle.x p1) (HeroParticle.y p1)
                           (HeroParticle.x p2) (HeroParticle.y p2))
                        (hero_connectionDistance c * hero_connectionDistance c)
               then [(HeroParticle.x p2, HeroParticle.y p2)] else []
           end) nearby.
Proof.
  revert count. induction nearby as [|j rest IH]; intros count Hc; [reflexivity|].
  cbn [length] in Hc. cbn [connect flat_map].
  destruct (Z.ltb_spec count (hero_maxConnections c)) as [Hlt|Hge]; [|lia].
  destruct (j =? i)%nat; [apply IH; lia|].
  destruct (ps !! j) as [p2|]; [|apply IH; lia].
  cbv zeta. destruct (js_lt _ _); [|apply IH; lia].
  cbn [List.map app line_x2 line_y2]. f_equal. apply IH. lia.
Qed.

(** On a phone, or with reduced motion, no segment is stroked at all. *)
Lemma drawConnections_disabled d c q g ps :
  mobile d = true \/ reducedMotion d = true -> drawConnections d c q g ps = [].
Proof.
  unfold drawConnections. intros [->| ->]; [reflexivity|].
  now rewrite orb_true_r.
Qed.

Lemma drawConnections_mobile c q g ps : drawConnections mobile_device c q g ps = [].
Proof. apply drawConnections_disabled. now left. Qed.

(** The linear fallback strokes an in-range pair exactly once, wherever the
    two particles are. *)
Lemma fallback_draws_pair_once d c q p1 p2 :
  mobile d = false -> reducedMotion d = false ->
  (0 < hero_maxConnections c)%Z ->
  utils.distanceSquared (HeroParticle.x p1) (HeroParticle.y p1)
                        (HeroParticle.x p2) (HeroParticle.y p2)
    < hero_connectionDistance c * hero_connectionDistance c ->
  exists l, drawConnections d c q None [p1; p2] = [l] /\
            (line_x1 l, line_y1 l) = (HeroParticle.x p1, HeroParticle.y p1) /\
            (line_x2 l, line_y2 l) = (HeroParticle.x p2, HeroParticle.y p2).
Proof.
  intros Hm Hr Hmax Hd. unfold drawConnections. rewrite Hm, Hr.
  cbn [orb length seq flat_map]. unfold connectionsOf, nearbyParticles.
  cbn [lookup list_lookup length seq Nat.sub connect].
  apply Z.ltb_lt in Hmax. rewrite Hmax. cbn [Nat.eqb lookup list_lookup].
  apply js_lt_iff in Hd. cbv zeta. rewrite Hd. cbn [app].
  eexists. split; [reflexivity|]. split; reflexivity.
Qed.

(** A candidate list that holds an in-range partner yields a segment. *)
Lemma connect_nonempty c q ps i p1 count nearby :
  (count < hero_maxConnections c)%Z ->
  (exists j p2, In j nearby /\ j <> i /\ ps !! j = Some p2 /\
     utils.distanceSquared (HeroParticle.x p1) (HeroParticle.y p1)
                           (HeroParticle.x p2) (HeroParticle.y p2)
       < hero_connectionDistance c * hero_connectionDistance c) ->
  connect c q ps i p1 count nearby <> [].
Proof.
  intros Hc (j & p2 & Hin & Hne & Hj & Hd).
  induction nearby as [|j0 rest IH]; [contradiction|].
  cbn [connect]. apply Z.ltb_lt in Hc. rewrite Hc.
  destruct (Nat.eqb_spec j0 i) as [->|Hj0].
  - apply IH. destruct Hin as [->|Hin]; [contradiction|exact Hin].
  - destruct (ps !! j0) as [p|] eqn:E.
    + cbv zeta. destruct (js_lt _ _) eqn:Elt; [discriminate|].
      apply IH. destruct Hin as [->|Hin]; [|exact Hin].
      rewrite E in Hj. inversion Hj; subst.
      apply js_lt_iff in Hd. congruence.
    + apply IH. destruct Hin as [->|Hin]; [congruence|exact Hin].
Qed.

(** With the spatial grid, any in-range pair of particles lying inside the
    grid is stroked from both ends: each of the two particles finds the
    other among its candidates, so at least two segments are drawn. *)
Lemma grid_path_draws_pair_from_both_ends d c q g0 p1 p2 :
  mobile d = false -> reducedMotion d = false ->
  SpatialGrid.grid_wf g0 -> 0 < SpatialGrid.cellSize g0 ->
  (0 < hero_maxConnections c)%Z -> 0 <= hero_connectionDistance c ->
  SpatialGrid.in_bounds g0 (HeroParticle.x p1) (HeroParticle.y p1) = true ->
  SpatialGrid.in_bounds g0 (HeroParticle.x p2) (HeroParticle.y p2) = true ->
  utils.distanceSquared (HeroParticle.x p1) (HeroParticle.y p1)
                        (HeroParticle.x p2) (HeroParticle.y p2)
    < hero_connectionDistance c * hero_connectionDistance c ->
  (2 <= length (drawConnections d c q (Some (rebuild g0 [p1; p2])) [p1; p2]))%nat.
Proof.
  intros Hm Hr Hwf Hcs Hmax Hcd Hb1 Hb2 Hd.
  assert (Hd' : utils.distanceSquared (HeroParticle.x p2) (HeroParticle.y p2)
                  (HeroParticle.x p1) (HeroParticle.y p1)
                < hero_connectionDistance c * hero_connectionDistance c).
  { unfold utils.distanceSquared in *. cbv zeta in *. lra. }
  unfold drawConnections. rewrite Hm, Hr.
  cbn [orb length seq flat_map]. rewrite app_nil_r, length_app.
  unfold connectionsOf, nearbyParticles. cbn [lookup list_lookup].
  unfold rebuild. cbn [imap]. 
  assert (Hwf' : SpatialGrid.grid_wf (SpatialGrid.clear g0)) by now apply clear_wf.
  set (log := [(0%nat, HeroParticle.x p1, HeroParticle.y p1);
               (1%nat, HeroParticle.x p2, HeroParticle.y p2)]).
  assert (H1 : connect c q [p1; p2] 0 p1 0
                 (SpatialGrid.getNearby (SpatialGrid.insert_all (SpatialGrid.clear g0) log)
                    (HeroParticle.x p1) (HeroParticle.y p1) (hero_connectionDistance c))
               <> []).
  { apply connect_nonempty; [exact Hmax|]. exists 1%nat, p2. repeat split; auto.
    apply (getNearby_contains (SpatialGrid.clear g0) log _ _ _ 1%nat
             (HeroParticle.x p2) (HeroParticle.y p2)); auto.
    - right. now left.
    - apply Qlt_le_weak, Hd. }
  assert (H2 : connect c q [p1; p2] 1 p2 0
                 (SpatialGrid.getNearby (SpatialGrid.insert_all (SpatialGrid.clear g0) log)
                    (HeroParticle.x p2) (HeroParticle.y p2) (hero_connectionDistance c))
               <> []).
  { apply connect_nonempty; [exact Hmax|]. exists 0%nat, p1. repeat split; auto.
    apply (getNearby_contains (SpatialGrid.clear g0) log _ _ _ 0%nat
             (HeroParticle.x p1) (HeroParticle.y p1)); auto.
    - now left.
    - apply Qlt_le_weak, Hd'. }
  destruct (connect c q [p1; p2] 0 p1 0 _); [contradiction|].
  destruct (connect c q [p1; p2] 1 p2 0 _); [contradiction|].
  cbn [length]. lia.
Qed.

(** C4: the failing scene.  Two particles 50 apart, [connectionDistance =
    120], [maxConnections = 5].  With the spatial grid, [drawConnections]
    strokes the pair twice (once from each end); with the linear fallback it
    strokes it once. *)
Theorem grid_path_draws_the_pair_twice :
  let ps := [HeroParticle.at_rest 100 100; HeroParticle.at_rest 150 100] in
  let c := CONFIG desktop_device in
  let g := rebuild (SpatialGrid.new_SpatialGrid 800 600 100) ps in
  let endpoints := List.map (fun l => (line_x1 l, line_y1 l, line_x2 l, line_y2 l)) in
  hero_connectionDistance c = 120 /\ hero_maxConnections c = 5%Z /\
  utils.distanceSquared 100 100 150 100 == 50 * 50 /\
  endpoints (drawConnections desktop_device c 1 (Some g) ps)
    = [(100, 100, 150, 100); (150, 100, 100, 100)] /\
  endpoints (drawConnections desktop_device c 1 None ps)
    = [(100, 100, 150, 100)].
Proof. vm_compute. repeat split. Qed.

End ConnectionLines.

(** ** HeroParticle.findConnections *)

Section FindConnections.
Import HeroParticle.

(** The fallback path returns exactly the other particles strictly within
    the connection distance. *)
Lemma scan_exact cd this p i rest j :
  In j (scan cd this p i rest) <->
  exists q, rest !! (j - i)%nat = Some q /\ (i <= j)%nat /\ j <> this /\
            utils.distanceSquared (x p) (y p) (x q) (y q) < cd * cd.
Proof.
  revert i. induction rest as [|q0 rest IH]; intros i.
  - cbn. split; [tauto|]. intros (q & H & _). discriminate.
  - cbn [scan].
    assert (Htail : In j (scan cd this p (S i) rest) <->
              exists q, (q0 :: rest) !! (j - i)%nat = Some q /\ (S i <= j)%nat /\
                        j <> this /\
                        utils.distanceSquared (x p) (y p) (x q) (y q) < cd * cd).
    { rewrite IH. split; intros (q & Hq & Hle & Hrest).
      - exists q. split; [|auto].
        replace (j - i)%nat with (S (j - S i)) by lia. exact Hq.
      - exists q. split; [|auto].
        replace (j - i)%nat with (S (j - S i)) in Hq by lia. exact Hq. }
    assert (Hhead : forall q, (q0 :: rest) !! (j - i)%nat = Some q -> (i <= j)%nat ->
                      ~ (S i <= j)%nat -> j = i /\ q = q0).
    { intros q Hq H1 H2. assert (j = i) by lia. subst j.
      rewrite Nat.sub_diag in Hq. cbn in Hq. inversion Hq. auto. }
    destruct (Nat.eqb_spec i this) as [->|Hne]; cbn [negb].
    + rewrite Htail. split; intros (q & Hq & Hle & Hn & Hd); exists q.
      * repeat split; auto. lia.
      * repeat split; auto.
        destruct (Nat.le_gt_cases (S this) j) as [|Hgt]; [assumption|].
        destruct (Hhead q Hq Hle ltac:(lia)) as [-> _]. contradiction.
    + cbv zeta. destruct (js_lt _ _) eqn:E.
      * cbn [In]. rewrite Htail. split.
        -- intros [<-|(q & Hq & Hle & Hrest)].
           ++ exists q0. rewrite Nat.sub_diag. apply js_lt_iff in E. repeat split; auto.
           ++ exists q. repeat split; try tauto. lia.
        -- intros (q & Hq & Hle & Hn & Hd).
           destruct (Nat.le_gt_cases (S i) j) as [Hs|Hgt].
           ++ right. exists q. auto.
           ++ left. destruct (Hhead q Hq Hle ltac:(lia)) as [-> _]. reflexivity.
      * rewrite Htail. split; intros (q & Hq & Hle & Hn & Hd); exists q.
        -- repeat split; auto. lia.
        -- repeat split; auto.
           destruct (Nat.le_gt_cases (S i) j) as [|Hgt]; [assumption|].
           destruct (Hhead q Hq Hle ltac:(lia)) as [-> ->].
           apply js_lt_false_iff in E. exfalso. apply (Qlt_not_le _ _ Hd E).
Qed.

(** Through the grid, every particle that lies inside the grid gets itself
    back among its connections; through the linear scan it never does.  So
    the two paths disagree for every such particle. *)
Lemma grid_path_returns_the_particle_itself d c g0 ps this p :
  mobile d = false -> reducedMotion d = false ->
  performance_spatialOptimization c = true ->
  SpatialGrid.grid_wf g0 -> 0 < SpatialGrid.cellSize g0 ->
  0 <= hero_connectionDistance c ->
  ps !! this = Some p ->
  SpatialGrid.in_bounds g0 (x p) (y p) = true ->
  In this (findConnections d c (Some (HeroCanvas.rebuild g0 ps)) ps this) /\
  ~ In this (findConnections d c None ps this).
Proof.
  intros Hm Hr Hopt Hwf Hcs Hcd Hp Hb. unfold findConnections.
  rewrite Hm, Hr, Hp, Hopt. cbn [orb]. split.
  - unfold HeroCanvas.rebuild.
    apply (getNearby_contains (SpatialGrid.clear g0) _ _ _ _ this (x p) (y p)); auto.
    + now apply clear_wf.
    + apply list_elem_of_In.
      apply (elem_of_lookup_imap_2 (fun i q => (i, x q, y q)) ps p this Hp).
    + unfold utils.distanceSquared. cbv zeta. nra.
  - intros Hin. apply scan_exact in Hin as (q & _ & _ & Hne & _). now apply Hne.
Qed.

(** C7: the failing particle.  Particle 0 at (100, 100) and particle 1 at
    (250, 100), 150 apart with [connectionDistance = 120].  Through the grid
    [findConnections] returns both particle 0 itself and the out-of-range
    particle 1; through the linear scan it returns nothing. *)
Theorem findConnections_paths_disagree :
  let ps := [at_rest 100 100; at_rest 250 100] in
  let c := CONFIG desktop_device in
  let g := HeroCanvas.rebuild (SpatialGrid.new_SpatialGrid 800 600 100) ps in
  hero_connectionDistance c * hero_connectionDistance c
    < utils.distanceSquared 100 100 250 100 /\
  findConnections desktop_device c (Some g) ps 0 = [0%nat; 1%nat] /\
  findConnections desktop_device c None ps 0 = [].
Proof. vm_compute. repeat split. Qed.

End FindConnections.

(** ** FPSController: quality re-evaluation *)

Section QualityStep.
Import FPSController.

Lemma adaptPerformance_minimums f c :
  (5 <= hero_particleCount (adaptPerformance f c))%Z /\
  (8 <= intro_particleCount (adaptPerformance f c))%Z /\
  (10 <= matrix_columns (adaptPerformance f c))%Z.
Proof. unfold adaptPerformance, set_counts. cbn. lia. Qed.

(** What one [updateQuality()] call does: it bumps the frame counter and
    looks at the average only when the bumped counter is a multiple of 60;
    below 80% of the target it multiplies the quality by 0.9 (not below 0.3)
    and shrinks the three counts; above 95% with quality below 1 it
    multiplies by 1.1 (not above 1) and leaves the counts alone. *)
Lemma updateQuality_step h f c :
  let count := (frameCount f + 1)%Z in
  let avgFPS := inject_Z (PerformanceMonitor.getAverageFPS h) in
  let s := updateQuality h (f, c) in
  frameCount (fst s) = count /\
  (Z.rem count 60 <> 0%Z -> qualityLevel (fst s) = qualityLevel f /\ snd s = c) /\
  (Z.rem count 60 = 0%Z -> avgFPS < targetFPS f * (8 # 10) ->
     qualityLevel (fst s) = Math_max (3 # 10) (qualityLevel f * (9 # 10)) /\
     snd s = adaptPerformance (fst s) c) /\
  (Z.rem count 60 = 0%Z -> targetFPS f * (8 # 10) <= avgFPS ->
     targetFPS f * (95 # 100) < avgFPS -> qualityLevel f < 1 ->
     qualityLevel (fst s) = Math_min 1 (qualityLevel f * (11 # 10)) /\ snd s = c).
Proof.
  intros count avgFPS s. unfold s, updateQuality. fold count. fold avgFPS.
  destruct (Z.eqb_spec (Z.rem count 60) 0) as [Hz|Hnz].
  - destruct (js_lt avgFPS _) eqn:Elow.
    + apply js_lt_iff in Elow. cbn [fst snd set_quality frameCount qualityLevel].
      repeat split; intros; try tauto; try lra.
    + apply js_lt_false_iff in Elow.
      destruct (js_gt avgFPS _ && js_lt _ 1) eqn:Ehigh;
        cbn [fst snd set_quality frameCount qualityLevel].
      * repeat split; intros; try tauto; try lra.
      * apply andb_false_iff in Ehigh. unfold js_gt in Ehigh.
        rewrite !js_lt_false_iff in Ehigh.
        repeat split; intros; try tauto; try lra.
  - cbn [fst snd set_quality frameCount qualityLevel].
    repeat split; intros; try tauto; try lra.
Qed.

(** A frame of the hero scene bumps the frame counter twice: once in
    [shouldRender] when the frame is accepted and once in [updateQuality]. *)
Lemma accepted_hero_frame_counts_twice time h f c :
  fst (shouldRender time f) = true ->
  frameCount (fst (updateQuality h (snd (shouldRender time f), c)))
  = (frameCount f + 2)%Z.
Proof.
  intros Hok. destruct (updateQuality_step h (snd (shouldRender time f)) c) as [Hc _].
  cbv zeta in Hc. rewrite Hc.
  destruct (shouldRender_accept time f Hok) as (_ & -> & _). lia.
Qed.

(** C6: the failing run.  On a desktop ([targetFPS = 60]) with a constant
    average of 20 FPS, the main site runs 60 animation frames 17 ms apart;
    the hero scene renders in each of them (and the matrix scene, polling
    after it with the same timestamp, in none).
    Each accepted frame bumps the frame counter twice (in [shouldRender] and
    in [updateQuality]), so the quality is re-evaluated after 30 and after 60
    accepted frames: [qualityLevel] ends at 0.81 and
    [CONFIG.hero.particleCount] at 8, not at 0.9 and 10.  When the intro has
    left the counter odd (301 here), no re-evaluation happens at all in 60
    accepted frames.  Sixty bare [updateQuality()] calls re-evaluate once. *)
Theorem quality_reevaluated_twice_in_60_frames :
  let d := desktop_device in
  let w0 : World JsError :=
    set_fpsHistory (main_site [] []) [20; 20; 20; 20; 20; 20]%Z in
  let w0' := set_fps w0 (set_quality (fps w0) 301 1) (config w0) in
  let times := List.map (fun k => 17 * inject_Z k) (zrange 1 60) in
  let w30 := run_frames quiet d tt (firstn 30 times) w0 in
  let w60 := run_frames quiet d tt times w0 in
  let w60' := run_frames quiet d tt times w0' in
  let bare := calls (repeat (CallUpdateQuality (fpsHistory w0)) 60) (fps w0, config w0) in
  length (accepted (List.map (fun t => (HeroScene, t)) times) (fps w0)) = 60%nat /\
  frameCount (fps w60) = 120%Z /\
  qualityLevel (fps w0) == 1 /\ hero_particleCount (config w0) = 12%Z /\
  qualityLevel (fps w30) == 9 # 10 /\ hero_particleCount (config w30) = 10%Z /\
  qualityLevel (fps w60) == 81 # 100 /\ hero_particleCount (config w60) = 8%Z /\
  qualityLevel (fps w60') == 1 /\ hero_particleCount (config w60') = 12%Z /\
  qualityLevel (fst bare) == 9 # 10 /\ hero_particleCount (snd bare) = 10%Z.
Proof. vm_compute. repeat split. Qed.

End QualityStep.

(** ** Exceptions inside a frame *)

Section FrameFailure.
Context {Err Env : Type}.

(** When [forEach] is left by an exception, the entities after the one that
    threw are exactly as they were: they were never visited. *)
Lemma forEach_thrown {A} (visit : nat -> A -> Outcome Err A) i l l' e :
  forEach visit i l = Thrown l' e ->
  exists pre a rest pre' a',
    l = pre ++ a :: rest /\ l' = pre' ++ a' :: rest /\
    length pre' = length pre /\
    forEach visit i pre = Returned pre' /\
    visit (i + length pre)%nat a = Thrown a' e.
Proof.
  revert i l'. induction l as [|a l IH]; intros i l' H; [discriminate|].
  cbn [forEach] in H. destruct (visit i a) as [a1|a1 e1] eqn:Ev.
  - destruct (forEach visit (S i) l) as [r|r e2] eqn:Er; [discriminate|].
    inversion H; subst. destruct (IH (S i) r Er)
      as (pre & b & rest & pre' & b' & -> & -> & Hlen & Hpre & Hb).
    exists (a :: pre), b, rest, (a1 :: pre'), b'. repeat split.
    + cbn. now rewrite Hlen.
    + cbn [forEach]. now rewrite Ev, Hpre.
    + cbn [length]. rewrite <- Hb. f_equal. lia.
  - inversion H; subst. exists [], a, l, [], a1. repeat split.
    cbn [length]. now rewrite Nat.add_0_r.
Qed.

Lemma logError_errors (error : Err) (w : World Err) :
  errors (ErrorHandler.logError error w) =
  (if (10 <? length (errors w ++ [error]))%nat
   then tl (errors w ++ [error]) else errors w ++ [error]) /\
  In error (errors (ErrorHandler.logError error w)).
Proof.
  unfold ErrorHandler.logError. cbn [set_errors errors]. split; [reflexivity|].
  destruct (Nat.ltb_spec 10 (length (errors w ++ [error]))) as [Hlt|Hle].
  - destruct (errors w) as [|e0 l]; cbn [app length tl] in *; [lia|].
    apply in_or_app. right. now left.
  - apply in_or_app. right. now left.
Qed.

(** The hero scene's frame when one particle throws. *)
Lemma hero_frame_failure (b : Behaviour Err Env) d time env (w : World Err) ps e :
  isActive (hero w) = true ->
  fst (FPSController.shouldRender time (fps w)) = true ->
  canvas (hero w) <> None ->
  forEach (visit_hero b env) 0 (entities (hero w)) = Thrown ps e ->
  let w' := HeroCanvas.animate b d time env w in
  entities (hero w') = ps /\
  isActive (hero w') = false /\
  In e (errors w') /\
  frameHandle (hero w') = frameHandle (hero w) /\
  sched w' = sched w /\
  intro w' = intro w /\ matrix w' = matrix w /\ introCompleted w' = introCompleted w.
Proof.
  intros Hact Hok Hcv Hthrow. unfold HeroCanvas.animate. rewrite Hact. cbn [negb].
  destruct (FPSController.shouldRender time (fps w)) as [ok f] eqn:E.
  cbn [fst] in Hok. subst ok. cbn [negb].
  unfold HeroCanvas.render.
  destruct (FPSController.updateQuality _ _) as [f2 c2].
  cbn [set_fps set_hero hero canvas fps config fpsHistory spatialGrid strokes
       entities sched matrix intro introCompleted errors].
  destruct (canvas (hero w)) as [cv|]; [|congruence].
  rewrite Hthrow. cbv zeta.
  repeat split; try reflexivity.
  apply (logError_errors e).
Qed.

(** The matrix scene's frame when one column throws. *)
Lemma matrix_frame_failure (b : Behaviour Err Env) time env (w : World Err) cs e :
  isActive (matrix w) = true ->
  fst (FPSController.shouldRender time (fps w)) = true ->
  canvas (matrix w) <> None ->
  forEach (visit_column b env) 0 (entities (matrix w)) = Thrown cs e ->
  let w' := MatrixCanvas.animate b time env w in
  entities (matrix w') = cs /\
  isActive (matrix w') = false /\
  In e (errors w') /\
  frameHandle (matrix w') = frameHandle (matrix w) /\
  sched w' = sched w /\
  intro w' = intro w /\ hero w' = hero w /\ introCompleted w' = introCompleted w.
Proof.
  intros Hact Hok Hcv Hthrow. unfold MatrixCanvas.animate. rewrite Hact. cbn [negb].
  destruct (FPSController.shouldRender time (fps w)) as [ok f] eqn:E.
  cbn [fst] in Hok. subst ok. cbn [negb].
  unfold MatrixCanvas.render.
  cbn [set_fps set_matrix hero canvas fps config fpsHistory spatialGrid strokes
       entities sched matrix intro introCompleted errors].
  destruct (canvas (matrix w)) as [cv|]; [|congruence].
  rewrite Hthrow. cbv zeta.
  repeat split; try reflexivity.
  apply (logError_errors e).
Qed.

End FrameFailure.

Section FrameFailureScenes.
Context {Err Env : Type}.

(** C8 (amended). In an accepted frame of the hero or of the matrix scene,
    an exception thrown by one entity's [update] or [draw] ends the pass:
    the entities before it have been visited, the one that threw keeps the
    state it was left in, and the entities after it are left exactly as
    they were (neither updated nor drawn).  The exception is caught by
    [animate], logged by [ErrorHandler.logError], and that scene alone is
    marked inactive and requests no further frame; the other scenes, their
    flags and handles and all pending callbacks are untouched. *)
Theorem exception_ends_pass_and_stops_only_that_scene
    (b : Behaviour Err Env) (d : DeviceConfig) (time : Q) (env : Env)
    (w : World Err) :
  fst (FPSController.shouldRender time (fps w)) = true ->
  (forall ps e,
      isActive (hero w) = true -> canvas (hero w) <> None ->
      forEach (visit_hero b env) 0 (entities (hero w)) = Thrown ps e ->
      let w' := HeroCanvas.animate b d time env w in
      (exists pre a rest pre' a',
          entities (hero w) = pre ++ a :: rest /\
          entities (hero w') = pre' ++ a' :: rest /\
          length pre' = length pre /\
          forEach (visit_hero b env) 0 pre = Returned pre' /\
          visit_hero b env (length pre) a = Thrown a' e) /\
      isActive (hero w') = false /\ In e (errors w') /\
      frameHandle (hero w') = frameHandle (hero w) /\ sched w' = sched w /\
      intro w' = intro w /\ matrix w' = matrix w /\
      introCompleted w' = introCompleted w)
  /\
  (forall cs e,
      isActive (matrix w) = true -> canvas (matrix w) <> None ->
      forEach (visit_column b env) 0 (entities (matrix w)) = Thrown cs e ->
      let w' := MatrixCanvas.animate b time env w in
      (exists pre a rest pre' a',
          entities (matrix w) = pre ++ a :: rest /\
          entities (matrix w') = pre' ++ a' :: rest /\
          length pre' = length pre /\
          forEach (visit_column b env) 0 pre = Returned pre' /\
          visit_column b env (length pre) a = Thrown a' e) /\
      isActive (matrix w') = false /\ In e (errors w') /\
      frameHandle (matrix w') = frameHandle (matrix w) /\ sched w' = sched w /\
      intro w' = intro w /\ hero w' = hero w /\
      introCompleted w' = introCompleted w).
Proof.
  intros Hok. split.
  - intros ps e Hact Hcv Hthrow w'.
    destruct (hero_frame_failure b d time env w ps e Hact Hok Hcv Hthrow)
      as (Hps & Hrest).
    split; [|exact Hrest].
    destruct (forEach_thrown _ _ _ _ _ Hthrow)
      as (pre & a & rest & pre' & a' & H1 & H2 & H3 & H4 & H5).
    exists pre, a, rest, pre', a'. unfold w'. rewrite Hps. auto.
  - intros cs e Hact Hcv Hthrow w'.
    destruct (matrix_frame_failure b time env w cs e Hact Hok Hcv Hthrow)
      as (Hcs & Hrest).
    split; [|exact Hrest].
    destruct (forEach_thrown _ _ _ _ _ Hthrow)
      as (pre & a & rest & pre' & a' & H1 & H2 & H3 & H4 & H5).
    exists pre, a, rest, pre', a'. unfold w'. rewrite Hcs. auto.
Qed.

End FrameFailureScenes.

Lemma exception_ends_pass_and_stops_only_that_scene_witness :
  fst (FPSController.shouldRender 1000
         (fps (main_site [HeroParticle.at_rest 100 100; HeroParticle.at_rest 200 200;
                          HeroParticle.at_rest 300 300] []))) = true /\
  isActive (hero (HeroCanvas.animate second_throws desktop_device 1000 tt
             (main_site [HeroParticle.at_rest 100 100; HeroParticle.at_rest 200 200;
                         HeroParticle.at_rest 300 300] []))) = false.
Proof.
  split; [reflexivity|].
  refine (proj1 (proj2 (proj1
    (exception_ends_pass_and_stops_only_that_scene second_throws desktop_device
       1000 tt
       (main_site [HeroParticle.at_rest 100 100; HeroParticle.at_rest 200 200;
                   HeroParticle.at_rest 300 300] []) _)
    [drift (HeroParticle.at_rest 100 100); HeroParticle.at_rest 200 200;
     HeroParticle.at_rest 300 300] (Failure 1) _ _ _))).
  - reflexivity.
  - reflexivity.
  - discriminate.
  - reflexivity.
Defined.

(** C8, as stated, fails: with three hero particles of which the second
    throws in [update], the third, whose visit would have moved it, is left
    where it was: the exception aborted the rest of the pass. *)
Lemma exception_aborts_remaining_entities :
  let w0 :=
    main_site [HeroParticle.at_rest 100 100; HeroParticle.at_rest 200 200;
               HeroParticle.at_rest 300 300] [] in
  let w' := HeroCanvas.animate second_throws desktop_device 1000 tt w0 in
  visit_hero second_throws tt 1 (HeroParticle.at_rest 200 200)
    = Thrown (HeroParticle.at_rest 200 200) (Failure 1) /\
  visit_hero second_throws tt 2 (HeroParticle.at_rest 300 300)
    = Returned (HeroParticle.at_rest 301 300) /\
  entities (hero w') =
    [HeroParticle.at_rest 101 100; HeroParticle.at_rest 200 200;
     HeroParticle.at_rest 300 300] /\
  entities (hero w') !! 2%nat <> Some (HeroParticle.at_rest 301 300).
Proof. vm_compute. repeat split. discriminate. Qed.

(** ** MemoryManager: pause and resume *)

Section PauseResume.
Import MemoryManager.

(** After [pauseAnimations()] every scene is inactive and every handle
    variable is [null]. *)
Lemma pauseAnimations_stops_all {Err} (w : World Err) :
  let w' := pauseAnimations w in
  isActive (hero w') = false /\ isActive (matrix w') = false /\
  isActive (intro w') = false /\
  frameHandle (hero w') = None /\ frameHandle (matrix w') = None /\
  frameHandle (intro w') = None.
Proof.
  destruct w as [done i h m g c f fh er lc sc st].
  destruct i as [ia ic [ih|] ie]; destruct h as [ha hc [hh|] he];
    destruct m as [ma mc [mh|] me]; cbn; auto 10.
Qed.

(** Pausing twice is pausing once: the second call finds every flag false
    and every handle [null], cancels nothing (the log of cancelled handles
    does not move) and changes nothing else. *)
Lemma pauseAnimations_idempotent {Err} (w : World Err) :
  pauseAnimations (pauseAnimations w) = pauseAnimations w.
Proof.
  destruct w as [done i h m g c f fh er lc sc st].
  destruct i as [ia ic [ih|] ie]; destruct h as [ha hc [hh|] he];
    destruct m as [ma mc [mh|] me]; reflexivity.
Qed.

(** C9: the failing resume.  On the running main site (hero and matrix
    scenes active, one callback pending for each), [resumeAnimations()]
    followed by its timeout calls [animate()] on both scenes, and each call
    requests one more frame: two callbacks per scene are now pending, only
    the newer handle is remembered, both chains re-arm themselves at the
    next frame, and a later [pauseAnimations()] cancels the newer handles
    only. *)
Theorem resume_on_active_scene_starts_second_loop :
  let w := main_site [] [] in
  let w1 := resumeAnimations_timeout quiet desktop_device 5000 5001 tt
              (resumeAnimations w) in
  isActive (hero w) = true /\ isActive (matrix w) = true /\
  queue (sched w) = [(1, HeroAnimate); (2, MatrixAnimate)]%positive /\
  queue (sched w1) =
    [(1, HeroAnimate); (2, MatrixAnimate); (3, HeroAnimate); (4, MatrixAnimate)]%positive /\
  frameHandle (hero w1) = Some 3%positive /\
  frameHandle (matrix w1) = Some 4%positive /\
  queue (sched (run_frame quiet desktop_device 5017 tt w1)) =
    [(5, HeroAnimate); (6, MatrixAnimate); (7, HeroAnimate); (8, MatrixAnimate)]%positive /\
  queue (sched (pauseAnimations w1)) = [(1, HeroAnimate); (2, MatrixAnimate)]%positive.
Proof. vm_compute. repeat split. Qed.

End PauseResume.

(** * Further properties of the script *)

(** ** utils *)

Section Utils.
Import utils.

Lemma Math_pow_3 x : Math_pow x 3 == x * x * x.
Proof. unfold Math_pow. cbn. ring. Qed.

Lemma Math_max_cases a b : (a <= b /\ Math_max a b == b) \/ (b <= a /\ Math_max a b == a).
Proof.
  unfold Math_max. destruct (Q.max_spec a b) as [[H1 H2]|[H1 H2]]; [left|right]; split; auto.
  now apply Qlt_le_weak.
Qed.

Lemma Math_min_cases a b : (a <= b /\ Math_min a b == a) \/ (b <= a /\ Math_min a b == b).
Proof.
  unfold Math_min. destruct (Q.min_spec a b) as [[H1 H2]|[H1 H2]]; [left|right]; split; auto.
  now apply Qlt_le_weak.
Qed.

(** X1. [clamp(value, min, max)] with [min <= max] always lands in
    [[min, max]], returns a value already in the interval unchanged, and
    clamping twice is clamping once. *)
Theorem clamp_into_interval (value min max : Q) :
  min <= max ->
  (min <= clamp value min max <= max) /\
  (min <= value <= max -> clamp value min max == value) /\
  clamp (clamp value min max) min max == clamp value min max.
Proof.
  intros Hmm. unfold clamp.
  destruct (Math_min_cases max value) as [[H1 E1]|[H1 E1]];
  destruct (Math_max_cases min (Math_min max value)) as [[H2 E2]|[H2 E2]];
  destruct (Math_min_cases max (Math_max min (Math_min max value))) as [[H3 E3]|[H3 E3]];
  destruct (Math_max_cases min (Math_min max (Math_max min (Math_min max value))))
    as [[H4 E4]|[H4 E4]];
  repeat split; intros; lra.
Qed.

Lemma clamp_into_interval_witness :
  0 <= 1 /\ (0 <= clamp (7 # 2) 0 1 <= 1).
Proof.
  split; [discriminate|].
  exact (proj1 (clamp_into_interval (7 # 2) 0 1 ltac:(discriminate))).
Defined.

(** X2. [lerp(start, end, factor)] returns [start] at factor 0 and moves
    from [start] towards [end] as the factor grows, never to the far side
    of [start].  For a factor of at most one half, such as the 0.005 of
    [HeroParticle.update], the result lies between the two endpoints,
    whichever is larger. *)
Theorem lerp_stays_between (start stop f1 f2 : Q) :
  0 <= f1 <= f2 ->
  lerp start stop 0 == start /\
  (start <= stop -> start <= lerp start stop f1 <= lerp start stop f2) /\
  (stop <= start -> lerp start stop f2 <= lerp start stop f1 <= start) /\
  (f1 <= 1 # 2 -> start <= stop -> lerp start stop f1 <= stop) /\
  (f1 <= 1 # 2 -> stop <= start -> stop <= lerp start stop f1).
Proof.
  intros [H0 H1]. unfold lerp. repeat split; intros; try ring; nra.
Qed.

Lemma lerp_stays_between_witness :
  0 <= 5 # 1000 <= 1 /\ 10 <= lerp 10 20 (5 # 1000) <= lerp 10 20 1 /\
  lerp 10 20 (5 # 1000) <= 20.
Proof.
  split; [split; discriminate|].
  pose proof (lerp_stays_between 10 20 (5 # 1000) 1 ltac:(split; discriminate))
    as (_ & H1 & _ & H2 & _).
  split; [apply H1; discriminate|apply H2; discriminate].
Defined.

Lemma randomInt_range (rnd : Q) (imin imax : Z) :
  0 <= rnd < 1 -> (imin <= imax)%Z ->
  (imin <= randomInt rnd imin imax <= imax)%Z.
Proof.
  intros [H0 H1] Hi. unfold randomInt, Math_floor.
  set (n := (imax - imin + 1)%Z).
  assert (Hn : 1 <= inject_Z n).
  { change 1 with (inject_Z 1). rewrite <- Zle_Qle. unfold n. lia. }
  assert (Hlo : inject_Z 0 <= rnd * inject_Z n) by (change (inject_Z 0) with 0; nra).
  assert (Hhi : rnd * inject_Z n < inject_Z n) by nra.
  apply Qfloor_resp_le in Hlo. rewrite Qfloor_Z in Hlo.
  pose proof (Qfloor_le (rnd * inject_Z n)) as Hfl.
  assert (Hlt : inject_Z (Qfloor (rnd * inject_Z n)) < inject_Z n) by lra.
  rewrite <- Zlt_Qlt in Hlt. unfold n in *. lia.
Qed.

Lemma random_range (rnd qmin qmax : Q) :
  0 <= rnd < 1 -> qmin <= qmax ->
  qmin <= random rnd qmin qmax <= qmax /\ (qmin < qmax -> random rnd qmin qmax < qmax).
Proof. intros [H0 H1] Hq. unfold random. repeat split; intros; nra. Qed.

(** X3. For a [Math.random()] value in [[0, 1)]: with integers
    [min <= max], [randomInt(min, max)] is an integer of [[min, max]]; with
    numbers [min <= max], [random(min, max)] lies between [min] and [max],
    ends included. *)
Theorem random_draws_in_range (rnd : Q) (imin imax : Z) (qmin qmax : Q) :
  0 <= rnd < 1 -> (imin <= imax)%Z -> qmin <= qmax ->
  (imin <= randomInt rnd imin imax <= imax)%Z /\
  qmin <= random rnd qmin qmax <= qmax.
Proof.
  intros Hr Hi Hq. split; [now apply randomInt_range|].
  destruct (random_range rnd qmin qmax Hr Hq). auto.
Qed.

Lemma random_draws_in_range_witness :
  0 <= 99 # 100 < 1 /\ (0 <= 73)%Z /\ 100 <= 300 /\
  (0 <= randomInt (99 # 100) 0 73 <= 73)%Z /\
  100 <= random (99 # 100) 100 300 <= 300.
Proof.
  split; [split; [discriminate|reflexivity]|]. split; [lia|]. split; [discriminate|].
  refine (random_draws_in_range (99 # 100) 0 73 100 300 _ _ _).
  - split; [discriminate|reflexivity].
  - lia.
  - discriminate.
Defined.

(** X4. [map] sends [start1] to [start2] and keeps the order of its
    argument when the target range ascends, reverses it when the target
    range descends (source range ascending): the nearer of two pairs gets
    the more opaque connection line, the deeper of two particles the
    smaller scale.  A value at or after [start1] is never mapped to the far
    side of [start2]. *)
Theorem map_keeps_order (v1 v2 start1 stop1 start2 stop2 : Q) :
  start1 < stop1 -> v1 <= v2 ->
  map start1 start1 stop1 start2 stop2 == start2 /\
  (start2 <= stop2 ->
   map v1 start1 stop1 start2 stop2 <= map v2 start1 stop1 start2 stop2) /\
  (stop2 <= start2 ->
   map v2 start1 stop1 start2 stop2 <= map v1 start1 stop1 start2 stop2) /\
  (start1 <= v1 -> start2 <= stop2 -> start2 <= map v1 start1 stop1 start2 stop2) /\
  (start1 <= v1 -> stop2 <= start2 -> map v1 start1 stop1 start2 stop2 <= start2).
Proof.
  intros Hs Hv. unfold map, Qdiv.
  assert (Hd : 0 < / (stop1 - start1)) by (apply Qinv_lt_0_compat; lra).
  set (k := / (stop1 - start1)) in *.
  assert (H12 : (v1 - start1) * k <= (v2 - start1) * k) by nra.
  split; [ring|].
  split; [intros; nra|]. split; [intros; nra|].
  split; intros H1 H2; assert (0 <= (v1 - start1) * k) by nra; nra.
Qed.

Lemma map_keeps_order_witness :
  0 < 14400 /\ 2500 <= 10000 /\
  map 10000 0 14400 (2 # 10) 0 <= map 2500 0 14400 (2 # 10) 0 /\
  map 2500 0 14400 (2 # 10) 0 <= 2 # 10.
Proof.
  split; [reflexivity|]. split; [discriminate|].
  pose proof (map_keeps_order 2500 10000 0 14400 (2 # 10) 0 ltac:(reflexivity)
                ltac:(discriminate)) as (_ & _ & H1 & _ & H2).
  split; [apply H1; discriminate|apply H2; discriminate].
Defined.

Lemma cube_below_half (u : Q) : 0 <= u <= 1 # 2 -> 0 <= 4 * (u * u * u) <= 1 # 2.
Proof.
  intros [H0 H1].
  assert (A : 0 <= u * ((1 # 2) - u)) by (apply Qmult_le_0_compat; lra).
  assert (B : 0 <= u * u) by (apply Qmult_le_0_compat; lra).
  assert (C : 0 <= u * u * u) by (apply Qmult_le_0_compat; lra).
  assert (D : 0 <= (u * u) * ((1 # 2) - u)) by (apply Qmult_le_0_compat; lra).
  split; lra.
Qed.

Lemma cube_mono (a b : Q) : 0 <= a <= b -> a * a * a <= b * b * b.
Proof.
  intros [H0 H1].
  assert (A : a * a <= b * b) by nra.
  assert (B : 0 <= a * a) by nra.
  nra.
Qed.

Lemma easeInOutCubic_low (t : Q) :
  t < 5 # 10 -> easeInOutCubic t == 4 * (t * t * t).
Proof.
  intros Ht. unfold easeInOutCubic. apply js_lt_iff in Ht. rewrite Ht. ring.
Qed.

Lemma easeInOutCubic_high (t : Q) :
  5 # 10 <= t -> easeInOutCubic t == 1 - 4 * ((1 - t) * (1 - t) * (1 - t)).
Proof.
  intros Ht. unfold easeInOutCubic. apply js_lt_false_iff in Ht. rewrite Ht.
  rewrite Math_pow_3. field.
Qed.

(** X5. The two cubic easings take the unit interval into itself without
    ever going back: for [0 <= t1 <= t2 <= 1] both [easeInOutCubic] and
    [easeOutCubic] satisfy [0 <= ease t1 <= ease t2 <= 1]; both are 0 at 0
    and 1 at 1; and [easeInOutCubic] stays at or below one half on the
    first half of the interval and at or above it on the second. *)
Theorem easings_rise_within_unit_interval (t1 t2 : Q) :
  0 <= t1 -> t1 <= t2 -> t2 <= 1 ->
  (0 <= easeInOutCubic t1 /\ easeInOutCubic t1 <= easeInOutCubic t2 /\
   easeInOutCubic t2 <= 1) /\
  (0 <= easeOutCubic t1 /\ easeOutCubic t1 <= easeOutCubic t2 /\
   easeOutCubic t2 <= 1) /\
  (t2 < 5 # 10 -> easeInOutCubic t2 <= 1 # 2) /\
  (5 # 10 <= t1 -> 1 # 2 <= easeInOutCubic t1) /\
  easeInOutCubic 0 == 0 /\ easeInOutCubic 1 == 1 /\
  easeOutCubic 0 == 0 /\ easeOutCubic 1 == 1.
Proof.
  intros H0 H12 H1.
  assert (Hlow : forall t, 0 <= t -> t < 5 # 10 ->
                   0 <= easeInOutCubic t <= 1 # 2).
  { intros t Ht0 Ht. rewrite (easeInOutCubic_low t Ht).
    apply cube_below_half. lra. }
  assert (Hhigh : forall t, 5 # 10 <= t -> t <= 1 ->
                    1 # 2 <= easeInOutCubic t <= 1).
  { intros t Ht Ht1. rewrite (easeInOutCubic_high t Ht).
    pose proof (cube_below_half (1 - t) ltac:(lra)). lra. }
  assert (Hio : easeInOutCubic t1 <= easeInOutCubic t2).
  { destruct (Qlt_le_dec t1 (5 # 10)) as [L1|G1];
      destruct (Qlt_le_dec t2 (5 # 10)) as [L2|G2].
    - rewrite (easeInOutCubic_low t1 L1), (easeInOutCubic_low t2 L2).
      pose proof (cube_mono t1 t2 ltac:(lra)). lra.
    - pose proof (Hlow t1 H0 L1). pose proof (Hhigh t2 G2 H1). lra.
    - exfalso. lra.
    - rewrite (easeInOutCubic_high t1 G1), (easeInOutCubic_high t2 G2).
      pose proof (cube_mono (1 - t2) (1 - t1) ltac:(lra)). lra. }
  assert (Hio0 : 0 <= easeInOutCubic t1).
  { destruct (Qlt_le_dec t1 (5 # 10)) as [L1|G1].
    - apply (Hlow t1 H0 L1).
    - pose proof (Hhigh t1 G1 ltac:(lra)). lra. }
  assert (Hio1 : easeInOutCubic t2 <= 1).
  { destruct (Qlt_le_dec t2 (5 # 10)) as [L2|G2].
    - pose proof (Hlow t2 ltac:(lra) L2). lra.
    - apply (Hhigh t2 G2 H1). }
  assert (Eo : forall t, easeOutCubic t == 1 - (1 - t) * (1 - t) * (1 - t)).
  { intros t. unfold easeOutCubic. now rewrite Math_pow_3. }
  split; [auto|]. split.
  - rewrite !Eo.
    pose proof (cube_mono (1 - t2) (1 - t1) ltac:(lra)).
    pose proof (cube_mono 0 (1 - t2) ltac:(lra)).
    pose proof (cube_mono (1 - t1) 1 ltac:(lra)).
    repeat split; lra.
  - split; [intros L2; apply (Hlow t2 ltac:(lra) L2)|].
    split; [intros G1; apply (Hhigh t1 G1 ltac:(lra))|].
    repeat split; reflexivity.
Qed.

Lemma easings_rise_within_unit_interval_witness :
  0 <= 1 # 4 /\ 1 # 4 <= 3 # 4 /\ 3 # 4 <= 1 /\
  easeInOutCubic (1 # 4) <= easeInOutCubic (3 # 4) /\
  easeOutCubic (1 # 4) <= easeOutCubic (3 # 4).
Proof.
  split; [discriminate|]. split; [discriminate|]. split; [discriminate|].
  pose proof (easings_rise_within_unit_interval (1 # 4) (3 # 4) ltac:(discriminate)
                ltac:(discriminate) ltac:(discriminate)) as ((_ & H1 & _) & (_ & H2 & _) & _).
  split; [exact H1|exact H2].
Defined.

Lemma floor_div_bounds (v cellSize : Q) :
  0 < cellSize ->
  inject_Z (Math_floor (v / cellSize)) * cellSize <= v
  < (inject_Z (Math_floor (v / cellSize)) + 1) * cellSize.
Proof.
  intros Hcs. unfold Math_floor.
  pose proof (Qfloor_le (v / cellSize)) as Hlo.
  pose proof (Qlt_floor (v / cellSize)) as Hhi.
  rewrite inject_Z_plus in Hhi. change (inject_Z 1) with 1 in Hhi.
  assert (Hv : v == v / cellSize * cellSize) by (field; lra).
  split.
  - rewrite Hv at 2. apply Qmult_le_compat_r; [exact Hlo|lra].
  - rewrite Hv at 1. apply Qmult_lt_compat_r; [exact Hcs|exact Hhi].
Qed.

End Utils.

(** ** SpatialGrid: clearing, coverage and what a query can return *)

Section SpatialGridMore.
Import SpatialGrid.
Context {E : Type}.
Implicit Types (g : SpatialGrid.t E) (e : E).

Lemma flat_map_nil {A B} (f : A -> list B) l :
  (forall a, In a l -> f a = []) -> flat_map f l = [].
Proof.
  induction l as [|a l IH]; intros H; cbn; [reflexivity|].
  rewrite (H a) by now left. apply IH. intros b Hb. apply H. now right.
Qed.

Lemma cell_at_clear g r c : cell_at (clear g) r c = [].
Proof.
  unfold cell_at, clear. cbn [grid with_grid].
  unfold cell_index. cbn [cols with_grid].
  rewrite list_lookup_fmap. destruct (grid g !! _); reflexivity.
Qed.

Lemma cell_index_inj g r c r' c' :
  in_grid g r c = true -> in_grid g r' c' = true ->
  cell_index g r c = cell_index g r' c' -> r = r' /\ c = c'.
Proof.
  intros [Hc Hr]%in_grid_iff [Hc' Hr']%in_grid_iff Heq. unfold cell_index in Heq.
  apply Z2Nat.inj in Heq; [|nia|nia].
  assert (r = r') by nia. subst. split; [reflexivity|lia].
Qed.

Lemma cell_at_insert_inv g p x y r c e :
  in_grid g r c = true ->
  In e (cell_at (insert g p x y) r c) ->
  In e (cell_at g r c) \/
  (e = p /\ in_bounds g x y = true /\
   Math_floor (y / cellSize g) = r /\ Math_floor (x / cellSize g) = c).
Proof.
  intros Hrc. unfold insert, in_bounds.
  destruct (in_grid g (Math_floor (y / cellSize g)) (Math_floor (x / cellSize g))) eqn:Hin;
    [|now left].
  unfold cell_at. cbn [grid with_grid]. unfold cell_index at 1. cbn [cols with_grid].
  fold (cell_index g r c).
  destruct (Nat.eq_dec (cell_index g (Math_floor (y / cellSize g))
                          (Math_floor (x / cellSize g))) (cell_index g r c)) as [Heq|Hne].
  - rewrite Heq, list_lookup_alter_eq.
    destruct (cell_index_inj _ _ _ _ _ Hin Hrc Heq) as [-> ->].
    destruct (grid g !! cell_index g r c) as [cell|]; cbn; [|tauto].
    intros [H|[H|[]]]%in_app_or; [now left|]. right. auto.
  - rewrite list_lookup_alter_ne by exact Hne. now left.
Qed.

Lemma cell_at_insert_all_inv g log r c e :
  in_grid g r c = true ->
  In e (cell_at (insert_all g log) r c) ->
  In e (cell_at g r c) \/
  exists x y, In (e, x, y) log /\ in_bounds g x y = true /\
              Math_floor (y / cellSize g) = r /\ Math_floor (x / cellSize g) = c.
Proof.
  revert g. induction log as [|[[p x] y] log IH]; intros g Hrc Hin; cbn in *; [now left|].
  destruct (insert_shape g p x y) as (Hc & Hr & Hs).
  destruct (IH (insert g p x y)) as [H|(x' & y' & H1 & H2 & H3 & H4)]; auto.
  - now rewrite in_grid_insert.
  - destruct (cell_at_insert_inv _ _ _ _ _ _ _ Hrc H) as [H'|(-> & H2 & H3 & H4)];
      [now left|]. right. exists x, y. auto.
  - right. exists x', y'. unfold in_bounds in *.
    rewrite in_grid_insert, Hs in H2. rewrite Hs in H3, H4. auto.
Qed.

(** X7. [clear()] empties every cell and keeps the grid's shape: after it,
    every query returns nothing, whatever the grid held and whatever the
    query point and radius. *)
Theorem clear_empties_every_cell g (x y radius : Q) :
  getNearby (clear g) x y radius = [] /\
  length (grid (clear g)) = length (grid g) /\
  cols (clear g) = cols g /\ rows (clear g) = rows g /\
  cellSize (clear g) = cellSize g.
Proof.
  split; [|cbn; rewrite length_map; auto].
  rewrite getNearby_block. apply flat_map_nil. intros [r c] _.
  unfold stored. cbn [fst snd]. rewrite cell_at_clear. now destruct (in_grid _ _ _).
Qed.

(** X8. A grid built by the constructor indexes the whole surface it was
    given: with a positive cell size every point with [0 <= x < width] and
    [0 <= y < height] passes [insert]'s guard, and a particle inserted there
    is returned by a query at the same point even with radius 0. *)
Theorem constructor_covers_surface (width height cs : Q) (p : E) (x y : Q) :
  0 < cs -> 0 <= x < width -> 0 <= y < height ->
  in_bounds (@new_SpatialGrid E width height cs) x y = true /\
  In p (getNearby (insert (new_SpatialGrid width height cs) p x y) x y 0).
Proof.
  intros Hcs [Hx0 Hx1] [Hy0 Hy1].
  assert (Hcover : forall v lim, 0 <= v < lim ->
            (0 <= Math_floor (v / cs) < Math_ceil (lim / cs))%Z).
  { intros v lim [Hv0 Hv1]. unfold Math_floor, Math_ceil.
    assert (Hinv : 0 < / cs) by now apply Qinv_lt_0_compat.
    assert (H0 : inject_Z 0 <= v / cs).
    { change (inject_Z 0) with 0. unfold Qdiv. apply Qmult_le_0_compat; lra. }
    apply Qfloor_resp_le in H0. rewrite Qfloor_Z in H0.
    assert (Hlt : v / cs < lim / cs).
    { unfold Qdiv. apply Qmult_lt_compat_r; assumption. }
    pose proof (Qfloor_le (v / cs)). pose proof (Qle_ceiling (lim / cs)).
    assert (Hz : inject_Z (Qfloor (v / cs)) < inject_Z (Qceiling (lim / cs))) by lra.
    rewrite <- Zlt_Qlt in Hz. lia. }
  assert (Hb : in_bounds (@new_SpatialGrid E width height cs) x y = true).
  { unfold in_bounds. apply in_grid_iff. cbn [cellSize cols rows new_SpatialGrid].
    split; apply Hcover; auto. }
  split; [exact Hb|].
  apply (getNearby_contains (new_SpatialGrid width height cs) [(p, x, y)] x y 0 p x y);
    auto using new_SpatialGrid_wf.
  - now left.
  - discriminate.
  - unfold utils.distanceSquared. cbv zeta. lra.
Qed.

(** X9. A query never invents anything and its false positives are
    bounded: on a grid that was cleared and then filled by [insert] calls,
    every particle [getNearby(qx, qy, r)] returns was passed to an [insert]
    that was not dropped, at a position less than
    [(ceil(r / cellSize) + 1) * cellSize] away from the query point along
    each axis. *)
Theorem getNearby_returns_only_nearby_inserts
    (g0 : SpatialGrid.t E) (log : list (E * Q * Q)) (qx qy r : Q) (p : E) :
  0 < cellSize g0 ->
  In p (getNearby (insert_all (clear g0) log) qx qy r) ->
  exists x y,
    In (p, x, y) log /\ in_bounds g0 x y = true /\
    let reach := (inject_Z (Math_ceil (r / cellSize g0)) + 1) * cellSize g0 in
    - reach < x - qx < reach /\ - reach < y - qy < reach.
Proof.
  intros Hcs Hin.
  destruct (insert_all_shape (clear g0) log) as (Hc & Hr & Hs).
  rewrite getNearby_block in Hin. apply in_flat_map in Hin as ([rr cc] & Hblk & Hst).
  unfold stored in Hst. cbn [fst snd] in Hst.
  destruct (in_grid _ rr cc) eqn:Hg; [|contradiction].
  rewrite in_grid_insert_all in Hg.
  apply cell_at_insert_all_inv in Hst; [|exact Hg].
  rewrite cell_at_clear in Hst.
  destruct Hst as [[]|(x & y & Hlog & Hb & Hy & Hx)].
  exists x, y. split; [exact Hlog|]. split; [exact Hb|].
  rewrite Hs in Hblk. cbn [cellSize clear with_grid] in *.
  apply in_block in Hblk as [Hrow Hcol]. cbv zeta.
  pose proof (floor_div_bounds x (cellSize g0) Hcs) as Px.
  pose proof (floor_div_bounds y (cellSize g0) Hcs) as Py.
  pose proof (floor_div_bounds qx (cellSize g0) Hcs) as Qx.
  pose proof (floor_div_bounds qy (cellSize g0) Hcs) as Qy.
  rewrite Hx in Px. rewrite Hy in Py.
  set (k := Math_ceil (r / cellSize g0)) in *.
  set (col := Math_floor (qx / cellSize g0)) in *.
  set (row := Math_floor (qy / cellSize g0)) in *.
  assert (Hcc1 : inject_Z cc <= inject_Z col + inject_Z k).
  { rewrite <- inject_Z_plus, <- Zle_Qle. lia. }
  assert (Hcc2 : inject_Z col - inject_Z k <= inject_Z cc).
  { assert (H : inject_Z col <= inject_Z cc + inject_Z k)
      by (rewrite <- inject_Z_plus, <- Zle_Qle; lia). lra. }
  assert (Hrr1 : inject_Z rr <= inject_Z row + inject_Z k).
  { rewrite <- inject_Z_plus, <- Zle_Qle. lia. }
  assert (Hrr2 : inject_Z row - inject_Z k <= inject_Z rr).
  { assert (H : inject_Z row <= inject_Z rr + inject_Z k)
      by (rewrite <- inject_Z_plus, <- Zle_Qle; lia). lra. }
  repeat split; nra.
Qed.

End SpatialGridMore.

Lemma constructor_covers_surface_witness :
  0 < 100 /\ 0 <= 799 < 800 /\ 0 <= 0 < 600 /\
  SpatialGrid.in_bounds (@SpatialGrid.new_SpatialGrid nat 800 600 100) 799 0 = true.
Proof.
  split; [reflexivity|]. split; [split; [discriminate|reflexivity]|].
  split; [split; [discriminate|reflexivity]|].
  refine (proj1 (@constructor_covers_surface nat 800 600 100 5%nat 799 0 _ _ _)).
  - reflexivity.
  - split; [discriminate|reflexivity].
  - split; [discriminate|reflexivity].
Defined.

Lemma getNearby_returns_only_nearby_inserts_witness :
  0 < SpatialGrid.cellSize (@SpatialGrid.new_SpatialGrid nat 800 600 100) /\
  exists x y,
    In (7%nat, x, y) [(3%nat, 710, 20); (7%nat, 150, 130)] /\
    SpatialGrid.in_bounds (@SpatialGrid.new_SpatialGrid nat 800 600 100) x y = true /\
    (- ((inject_Z (Math_ceil (120 / 100)) + 1) * 100) < x - 100
     < (inject_Z (Math_ceil (120 / 100)) + 1) * 100) /\
    (- ((inject_Z (Math_ceil (120 / 100)) + 1) * 100) < y - 100
     < (inject_Z (Math_ceil (120 / 100)) + 1) * 100).
Proof.
  split; [reflexivity|].
  refine (@getNearby_returns_only_nearby_inserts nat
            (SpatialGrid.new_SpatialGrid 800 600 100)
            [(3%nat, 710, 20); (7%nat, 150, 130)] 100 100 120 7%nat _ _).
  - reflexivity.
  - vm_compute. now left.
Defined.

Section SpatialGridCount.
Import SpatialGrid.
Context {E : Type}.

Lemma length_concat_push (p : E) (l : list (list E)) i :
  (i < length l)%nat ->
  length (concat (alter (fun cell => cell ++ [p]) i l)) = S (length (concat l)).
Proof.
  revert i. induction l as [|c l IH]; intros [|i] Hi; cbn in *;
    try lia; rewrite !length_app.
  - cbn. lia.
  - rewrite IH by lia. lia.
Qed.

(** X10. [insert] stores a particle exactly once when its position passes
    the guard and not at all otherwise: after any run of inserts the number
    of references held by the grid has grown by the number of inserts whose
    position was inside the indexed bounds. *)
Theorem inserts_are_stored_once
    (g : SpatialGrid.t E) (log : list (E * Q * Q)) :
  grid_wf g ->
  length (concat (grid (insert_all g log))) =
  (length (concat (grid g)) +
   length (List.filter (fun e => in_bounds g (snd (fst e)) (snd e)) log))%nat.
Proof.
  revert g. induction log as [|[[p x] y] log IH]; intros g Hwf; cbn [insert_all fold_left].
  - cbn. lia.
  - change (fold_left _ log (insert g p x y)) with (insert_all (insert g p x y) log).
    rewrite IH by now apply insert_wf.
    destruct (insert_shape g p x y) as (Hc & Hr & Hs).
    assert (Hsame : List.filter (fun e => in_bounds (insert g p x y) (snd (fst e)) (snd e)) log
                    = List.filter (fun e => in_bounds g (snd (fst e)) (snd e)) log).
    { apply filter_ext. intros e. unfold in_bounds. now rewrite in_grid_insert, Hs. }
    rewrite Hsame. cbn [List.filter fst snd].
    unfold insert. fold (in_bounds g x y).
    destruct (in_bounds g x y) eqn:Hb.
    + cbn [grid with_grid length]. rewrite length_concat_push; [lia|].
      now apply cell_index_lt.
    + lia.
Qed.

End SpatialGridCount.

Lemma inserts_are_stored_once_witness :
  SpatialGrid.grid_wf (@SpatialGrid.new_SpatialGrid nat 800 600 100) /\
  length (concat (SpatialGrid.grid
            (SpatialGrid.insert_all (SpatialGrid.new_SpatialGrid 800 600 100)
               [(1%nat, 10, 10); (2%nat, -5, 10); (3%nat, 10, 10)]))) = 2%nat.
Proof.
  split; [reflexivity|].
  exact (@inserts_are_stored_once nat (SpatialGrid.new_SpatialGrid 800 600 100)
           [(1%nat, 10, 10); (2%nat, -5, 10); (3%nat, 10, 10)] eq_refl).
Defined.

(** ** Particle3D: bounding volume and drawing *)

Section ParticleVolume.
Import Particle3D.

Lemma out_of_bounds_false_iff canvas p :
  out_of_bounds canvas p = false <->
  -50 <= x p <= cv_width canvas + 50 /\ -50 <= y p <= cv_height canvas + 50 /\
  -400 <= z p <= 400.
Proof.
  unfold out_of_bounds, js_gt. rewrite !orb_false_iff, !js_lt_false_iff. tauto.
Qed.

Lemma reset_inside canvas rnd p :
  (forall n, 0 <= rnd n < 1) -> 0 <= cv_width canvas -> 0 <= cv_height canvas ->
  0 <= x (reset canvas rnd p) <= cv_width canvas /\
  0 <= y (reset canvas rnd p) <= cv_height canvas /\
  -400 <= z (reset canvas rnd p) < 400.
Proof.
  intros Hr Hw Hh. cbn [reset x y z]. unfold utils.random.
  pose proof (Hr 0%nat). pose proof (Hr 1%nat). pose proof (Hr 2%nat).
  repeat split; nra.
Qed.

Lemma sample_trail_position t p :
  x (sample_trail t p) = x p /\ y (sample_trail t p) = y p /\ z (sample_trail t p) = z p.
Proof. unfold sample_trail. destruct (js_gt _ _); cbn; auto. Qed.

(** X11. No particle stays outside its bounding volume: after every
    [update] (random draws in [[0, 1)], canvas at least 0 x 0) the particle
    lies within 50 units of the canvas and has depth in [[-400, 400]].  A
    particle that the move took outside has been reset: it is back on the
    canvas with an empty trail. *)
Theorem update_keeps_particle_in_volume canvas currentTime rnd p :
  (forall n, 0 <= rnd n < 1) -> 0 <= cv_width canvas -> 0 <= cv_height canvas ->
  let p' := update canvas currentTime rnd p in
  out_of_bounds canvas p' = false /\
  (out_of_bounds canvas (move p) = true ->
   trail p' = [] /\ lastTrailTime p' == 0 /\
   0 <= x p' <= cv_width canvas /\ 0 <= y p' <= cv_height canvas /\
   -400 <= z p' < 400).
Proof.
  intros Hr Hw Hh p'. unfold p', update.
  assert (Hsame : out_of_bounds canvas (sample_trail currentTime (move p))
                  = out_of_bounds canvas (move p)).
  { unfold out_of_bounds. destruct (sample_trail_position currentTime (move p))
      as (-> & -> & ->). reflexivity. }
  rewrite Hsame. destruct (out_of_bounds canvas (move p)) eqn:Hout.
  - pose proof (reset_inside canvas rnd (sample_trail currentTime (move p)) Hr Hw Hh)
      as (Hx & Hy & Hz).
    split.
    + apply out_of_bounds_false_iff. repeat split; lra.
    + intros _. repeat split; try reflexivity; try lra.
  - split; [|discriminate]. now rewrite <- Hsame in Hout.
Qed.

Lemma update_keeps_particle_in_volume_witness :
  (forall n : nat, 0 <= (fun _ => 1 # 2) n < 1) /\ 0 <= 800 /\ 0 <= 600 /\
  out_of_bounds {| cv_width := 800; cv_height := 600 |}
    (update {| cv_width := 800; cv_height := 600 |} 1000 (fun _ => 1 # 2)
       (mk 849 300 0 2 0 0 1 (1 # 2) [] 8 0)) = false.
Proof.
  split; [intros n; split; [discriminate|reflexivity]|].
  split; [discriminate|]. split; [discriminate|].
  refine (proj1 (update_keeps_particle_in_volume
            {| cv_width := 800; cv_height := 600 |} 1000 (fun _ => 1 # 2)
            (mk 849 300 0 2 0 0 1 (1 # 2) [] 8 0) _ _ _)).
  - intros n. split; [discriminate|reflexivity].
  - discriminate.
  - discriminate.
Defined.

Lemma Math_abs_range v b : - b <= v <= b -> 0 <= Math_abs v <= b.
Proof.
  intros [H1 H2]. unfold Math_abs. split; [apply Qabs_nonneg|].
  apply Qabs_case; intros; lra.
Qed.

(** X12. [draw()] draws nothing under reduced motion.  Otherwise, for a
    particle inside its depth range and a quality level in [[0, 1]], it
    first fills one square placed half a side to the left of and above the
    particle, so that the square contains the particle's position; the side
    is between 0.3 and 1.5 times [size] (the clamp to [[0.1, 2]] never
    bites), the alpha of the fill style is between 0.3 and 1 times
    [baseOpacity], and [globalAlpha] is that alpha times the quality level,
    hence not above it.  The trail is stroked only off mobile and only when
    it holds at least two samples. *)
Theorem draw_fills_centred_square d quality p :
  -400 <= z p <= 400 -> 0 <= size p -> 0 <= baseOpacity p -> 0 <= quality <= 1 ->
  (reducedMotion d = true -> draw d quality p = []) /\
  (reducedMotion d = false ->
   exists alpha style left top side rest,
     draw d quality p = FillRect alpha style left top side side :: rest /\
     left == x p - side * (5 # 10) /\ top == y p - side * (5 # 10) /\
     left <= x p <= left + side /\ top <= y p <= top + side /\
     (3 # 10) * size p <= side <= (15 # 10) * size p /\
     (3 # 10) * baseOpacity p <= style <= baseOpacity p /\
     alpha == style * quality /\ 0 <= alpha <= style /\
     (mobile d = true \/ (length (trail p) <= 1)%nat -> rest = []) /\
     (mobile d = false -> (2 <= length (trail p))%nat ->
      exists points, rest = [StrokePath alpha (style * (5 # 10)) points])).
Proof.
  intros Hz Hs Hb Hq. unfold draw. split; [intros ->; reflexivity|]. intros ->.
  set (scale := utils.clamp _ _ _).
  set (opacity := baseOpacity p * _).
  assert (Hscale : 3 # 10 <= scale <= 15 # 10).
  { unfold scale, utils.clamp, utils.map.
    set (m := _ + _ * _).
    assert (Hm : 3 # 10 <= m <= 15 # 10).
    { unfold m.
      assert (E : (z p - -400) / (400 - -400) == (z p + 400) * (1 # 800)) by field.
      rewrite E. split; lra. }
    destruct (Math_min_cases 2 m) as [[H1 E1]|[H1 E1]];
    destruct (Math_max_cases (1 # 10) (Math_min 2 m)) as [[H2 E2]|[H2 E2]]; lra. }
  assert (Hop : (3 # 10) * baseOpacity p <= opacity <= baseOpacity p).
  { unfold opacity, utils.map.
    pose proof (Math_abs_range (z p) 400 ltac:(lra)) as [Ha0 Ha1].
    assert (E : (Math_abs (z p) - 0) / (400 - 0) == Math_abs (z p) * (1 # 400)) by field.
    rewrite E. split; nra. }
  assert (Hside : 0 <= size p * scale) by nra.
  eexists _, _, _, _, _, _. split; [reflexivity|].
  split; [reflexivity|]. split; [reflexivity|].
  split; [split; lra|]. split; [split; lra|].
  split; [split; nra|]. split; [exact Hop|].
  split; [reflexivity|]. split; [split; nra|].
  split.
  - intros [-> | Hlen].
    + now rewrite andb_false_r.
    + destruct (Nat.ltb_spec 1 (length (trail p))); [lia|reflexivity].
  - intros -> Hlen.
    destruct (Nat.ltb_spec 1 (length (trail p))); [|lia].
    cbn [negb andb]. eexists. reflexivity.
Qed.

Lemma draw_fills_centred_square_witness :
  let p := mk 100 100 200 0 0 0 2 (1 # 2)
             [{| tp_x := 90; tp_y := 90; tp_z := 200 |};
              {| tp_x := 95; tp_y := 95; tp_z := 200 |};
              {| tp_x := 100; tp_y := 100; tp_z := 200 |}] 8 0 in
  -400 <= z p <= 400 /\ 0 <= size p /\ 0 <= baseOpacity p /\ 0 <= 1 <= 1 /\
  reducedMotion desktop_device = false /\
  match draw desktop_device 1 p with
  | [FillRect alpha style x0 y0 w h; StrokePath alpha' style' points] =>
      alpha == 13 # 40 /\ style == 13 # 40 /\ x0 == 494 # 5 /\ y0 == 494 # 5 /\
      w == 12 # 5 /\ h == 12 # 5 /\ alpha' == 13 # 40 /\ style' == 13 # 80 /\
      points = [(90, 90); (100, 100)]
  | _ => False
  end /\
  exists alpha style left top side rest,
    draw desktop_device 1 p = FillRect alpha style left top side side :: rest /\
    left == x p - side * (5 # 10) /\ top == y p - side * (5 # 10) /\
    left <= x p <= left + side /\ top <= y p <= top + side /\
    (3 # 10) * size p <= side <= (15 # 10) * size p /\
    (3 # 10) * baseOpacity p <= style <= baseOpacity p /\
    alpha == style * 1 /\ 0 <= alpha <= style /\
    (mobile desktop_device = true \/ (length (trail p) <= 1)%nat -> rest = []) /\
    (mobile desktop_device = false -> (2 <= length (trail p))%nat ->
     exists points, rest = [StrokePath alpha (style * (5 # 10)) points]).
Proof.
  cbv zeta.
  split; [split; discriminate|]. split; [discriminate|]. split; [discriminate|].
  split; [split; discriminate|]. split; [reflexivity|].
  split; [vm_compute; repeat split|].
  refine (proj2 (draw_fills_centred_square desktop_device 1
            (mk 100 100 200 0 0 0 2 (1 # 2)
               [{| tp_x := 90; tp_y := 90; tp_z := 200 |};
                {| tp_x := 95; tp_y := 95; tp_z := 200 |};
                {| tp_x := 100; tp_y := 100; tp_z := 200 |}] 8 0) _ _ _ _) eq_refl).
  - split; discriminate.
  - discriminate.
  - discriminate.
  - split; discriminate.
Defined.

End ParticleVolume.

(** ** HeroParticle: one step of motion *)

Section HeroMotion.
Import HeroParticle.
Variable sqrt : Q -> Q.

Lemma wrap_range (v lim : Q) :
  0 <= lim ->
  let v1 := if js_lt v (-10) then lim + 10 else v in
  let v2 := if js_gt v1 (lim + 10) then -10 else v1 in
  -10 <= v2 <= lim + 10.
Proof.
  intros Hl. cbv zeta. unfold js_gt.
  destruct (js_lt v (-10)) eqn:E1.
  - destruct (js_lt (lim + 10) (lim + 10)) eqn:E2.
    + apply js_lt_iff in E2. lra.
    + lra.
  - apply js_lt_false_iff in E1. destruct (js_lt (lim + 10) v) eqn:E2.
    + lra.
    + apply js_lt_false_iff in E2. lra.
Qed.

(** X13. Whatever [Math.sqrt] returns and wherever the mouse is, after
    [update()] a hero particle lies within the wrap margin of the canvas
    ([-10 <= x <= width + 10], likewise for [y]); its home position, its
    drift velocity and its look never change; on mobile the mouse force is
    left alone; off mobile, with the mouse at or beyond the influence
    radius, the stored mouse force decays by the factor 0.95. *)
Theorem hero_update_wraps_and_keeps_home d c canvas mouse p :
  0 <= cv_width canvas -> 0 <= cv_height canvas ->
  let p' := update sqrt d c canvas mouse p in
  (-10 <= x p' <= cv_width canvas + 10) /\
  (-10 <= y p' <= cv_height canvas + 10) /\
  baseX p' = baseX p /\ baseY p' = baseY p /\
  vx p' = vx p /\ vy p' = vy p /\ size p' = size p /\
  opacity p' = opacity p /\ hue p' = hue p /\
  (mobile d = true ->
   mouseForceX p' = mouseForceX p /\ mouseForceY p' = mouseForceY p) /\
  (mobile d = false ->
   hero_mouseInfluence c * hero_mouseInfluence c
     <= utils.distanceSquared (x p + vx p * (3 # 10)) (y p + vy p * (3 # 10))
          (fst mouse) (snd mouse) ->
   mouseForceX p' = mouseForceX p * (95 # 100) /\
   mouseForceY p' = mouseForceY p * (95 # 100)).
Proof.
  intros Hw Hh p'. unfold p', update. cbv zeta. cbn [x y baseX baseY vx vy size opacity hue
    mouseForceX mouseForceY].
  split; [apply wrap_range; exact Hw|].
  split; [apply wrap_range; exact Hh|].
  do 7 (split; [reflexivity|]).
  split.
  - intros ->. split; reflexivity.
  - intros -> Hfar. cbn [negb]. unfold utils.distanceSquared in Hfar. cbv zeta in Hfar.
    apply js_lt_false_iff in Hfar. rewrite Hfar. split; reflexivity.
Qed.

End HeroMotion.

Lemma hero_update_wraps_and_keeps_home_witness :
  0 <= 800 /\ 0 <= 600 /\
  -10 <= HeroParticle.x
           (HeroParticle.update (fun q => q) desktop_device (CONFIG desktop_device)
              {| cv_width := 800; cv_height := 600 |} (400, 300)
              (HeroParticle.mk 810 300 805 300 (5 # 10) 0 2 (2 # 10) 200 30 0))
       <= 800 + 10.
Proof.
  split; [discriminate|]. split; [discriminate|].
  refine (proj1 (hero_update_wraps_and_keeps_home (fun q => q) desktop_device
            (CONFIG desktop_device) {| cv_width := 800; cv_height := 600 |} (400, 300)
            (HeroParticle.mk 810 300 805 300 (5 # 10) 0 2 (2 # 10) 200 30 0) _ _));
    discriminate.
Defined.

(** ** MatrixColumn: glyph ages, glyph indices and drawing *)

Section ColumnGlyphs.
Import MatrixColumn.

(** A glyph that can be in a column's buffer: not older than 80 and a valid
    index into [CONFIG.matrix.characters]. *)
Lemma age_chars_Forall (len : Z) cs :
  Forall (fun g => (0 <= age g <= 80)%Z /\ (0 <= char g < len)%Z) cs ->
  Forall (fun g => (1 <= age g <= 80)%Z /\ (0 <= char g < len)%Z) (age_chars cs).
Proof.
  induction 1 as [|g cs [Ha Hc] _ IH]; cbn [age_chars fold_right]; [constructor|].
  fold (age_chars cs). cbv zeta. cbn [age char].
  destruct (Z.ltb_spec 80 (age g + 1)); [exact IH|].
  constructor; [cbn [age char]; lia|exact IH].
Qed.

Lemma update_glyphs_valid d c canvas now rnd col :
  (0 < matrix_characters_length c)%Z -> (forall n, 0 <= rnd n < 1) ->
  Forall (fun g => (0 <= age g <= 80)%Z /\ (0 <= char g < matrix_characters_length c)%Z)
         (characters col) ->
  Forall (fun g => (0 <= age g <= 80)%Z /\ (0 <= char g < matrix_characters_length c)%Z)
         (characters (update d c canvas now rnd col)).
Proof.
  intros Hlen Hr Hinv. unfold update. destruct (reducedMotion d); [exact Hinv|].
  destruct (js_gt _ _); [constructor|].
  cbn [set_chars characters].
  eapply List.Forall_impl; [|apply age_chars_Forall].
  - cbn. intros g [H1 H2]. split; [lia|exact H2].
  - unfold add_char. destruct (_ && _); cbn [set_chars characters]; [|exact Hinv].
    apply Forall_app. split; [exact Hinv|]. constructor; [|constructor].
    cbn [age char]. split; [lia|].
    pose proof (randomInt_range (rnd 0%nat) 0 (matrix_characters_length c - 1)
                  (Hr 0%nat) ltac:(lia)). lia.
Qed.

(** X14. Every glyph a column ever holds is a valid index into
    [CONFIG.matrix.characters] and is at most 80 ticks old: this holds after
    any run of [update()] calls from a new column, for random draws in
    [[0, 1)] and a non-empty character set. *)
Theorem column_glyphs_stay_valid d c x0 rnd0 ticks :
  (0 < matrix_characters_length c)%Z ->
  Forall (fun k => forall n, 0 <= tick_rnd k n < 1) ticks ->
  Forall (fun g => (0 <= age g <= 80)%Z /\ (0 <= char g < matrix_characters_length c)%Z)
         (characters (run d c ticks (constructor d c x0 rnd0))).
Proof.
  intros Hlen Hticks.
  assert (H0 : Forall (fun g => (0 <= age g <= 80)%Z /\
                               (0 <= char g < matrix_characters_length c)%Z)
                 (characters (constructor d c x0 rnd0))) by constructor.
  revert H0. generalize (constructor d c x0 rnd0). unfold run.
  induction Hticks as [|k ticks Hk _ IH]; intros col Hcol; cbn [fold_left]; [exact Hcol|].
  apply IH. now apply update_glyphs_valid.
Qed.

Lemma column_glyphs_stay_valid_witness :
  (0 < matrix_characters_length (CONFIG desktop_device))%Z /\
  Forall (fun k => forall n, 0 <= tick_rnd k n < 1)
    [{| tick_canvas := {| cv_width := 800; cv_height := 600 |};
        tick_now := 1000; tick_rnd := fun _ => 99 # 100 |}] /\
  Forall (fun g => (0 <= age g <= 80)%Z /\
                   (0 <= char g < matrix_characters_length (CONFIG desktop_device))%Z)
    (characters (run desktop_device (CONFIG desktop_device)
       [{| tick_canvas := {| cv_width := 800; cv_height := 600 |};
           tick_now := 1000; tick_rnd := fun _ => 99 # 100 |}]
       (constructor desktop_device (CONFIG desktop_device) 20 (fun _ => 1 # 2)))).
Proof.
  assert (Ht : Forall (fun k => forall n, 0 <= tick_rnd k n < 1)
    [{| tick_canvas := {| cv_width := 800; cv_height := 600 |};
        tick_now := 1000; tick_rnd := fun _ => 99 # 100 |}]).
  { constructor; [|constructor]. intros n. split; [discriminate|reflexivity]. }
  split; [reflexivity|]. split; [exact Ht|].
  exact (column_glyphs_stay_valid desktop_device (CONFIG desktop_device) 20
           (fun _ => 1 # 2) _ eq_refl Ht).
Defined.

Lemma In_concat_imap {A B} (f : nat -> A -> list B) (l : list A) (b : B) :
  In b (concat (imap f l)) <-> exists i a, l !! i = Some a /\ In b (f i a).
Proof.
  revert f. induction l as [|a l IH]; intros f; cbn [imap concat].
  - split; [intros []|intros (i & a & H & _); discriminate].
  - rewrite in_app_iff, IH. split.
    + intros [H|(i & a' & Hl & H)]; [exists 0%nat, a; auto|exists (S i), a'; auto].
    + intros ([|i] & a' & Hl & H); cbn in Hl.
      * injection Hl as <-. now left.
      * right. exists i, a'. auto.
Qed.

Lemma length_concat_imap_le {A B} (f : nat -> A -> list B) (l : list A) :
  (forall i a, (length (f i a) <= 1)%nat) ->
  (length (concat (imap f l)) <= length l)%nat.
Proof.
  revert f. induction l as [|a l IH]; intros f H; cbn [imap concat length]; [lia|].
  rewrite length_app. specialize (IH (fun i => f (S i)) (fun i b => H (S i) b)).
  specialize (H 0%nat a). unfold compose in *. lia.
Qed.

(** The alpha [draw()] gives a glyph, from the glyph's age and place. *)
Lemma glyph_alpha (q : Q) (i : nat) (g : Glyph) :
  0 <= q -> (0 <= age g)%Z ->
  let fade := Math_max 0 (1 - inject_Z (age g) * (2 # 100)) in
  let a := if (i =? 0)%nat then q * fade else q * fade * (8 # 10) in
  0 <= a <= q /\
  ((50 <= age g)%Z -> a == 0) /\
  ((age g < 50)%Z -> 0 < q -> 0 < a) /\
  (age g = 0%Z -> i = 0%nat -> a == q).
Proof.
  intros Hq Hage fade a.
  assert (Hq0 : 0 <= inject_Z (age g)).
  { change 0 with (inject_Z 0). now rewrite <- Zle_Qle. }
  assert (Hfade : 0 <= fade <= 1).
  { unfold fade. destruct (Math_max_cases 0 (1 - inject_Z (age g) * (2 # 100)))
      as [[H1 E1]|[H1 E1]]; lra. }
  split; [|split; [|split]].
  - unfold a. destruct (i =? 0)%nat; split; nra.
  - intros Hold.
    assert (Hq50 : 50 <= inject_Z (age g)).
    { change 50 with (inject_Z 50). now rewrite <- Zle_Qle. }
    assert (E : fade == 0).
    { unfold fade. destruct (Math_max_cases 0 (1 - inject_Z (age g) * (2 # 100)))
        as [[H1 E1]|[H1 E1]]; lra. }
    unfold a. destruct (i =? 0)%nat; rewrite E; ring.
  - intros Hyoung Hpos.
    assert (Hq49 : inject_Z (age g) <= 49).
    { change 49 with (inject_Z 49). rewrite <- Zle_Qle. lia. }
    assert (E : 2 # 100 <= fade).
    { unfold fade. destruct (Math_max_cases 0 (1 - inject_Z (age g) * (2 # 100)))
        as [[H1 E1]|[H1 E1]]; lra. }
    unfold a. destruct (i =? 0)%nat; nra.
  - intros E0 ->. unfold a, fade. rewrite E0. cbn [Nat.eqb].
    assert (E : Math_max 0 (1 - inject_Z 0 * (2 # 100)) == 1).
    { destruct (Math_max_cases 0 (1 - inject_Z 0 * (2 # 100))) as [[H1 E1]|[H1 E1]];
        [rewrite E1; reflexivity|exfalso; revert H1; discriminate]. }
    rewrite E. ring.
Qed.

(** X15. [draw()] of a column draws nothing under reduced motion.
    Otherwise it draws one glyph for each buffer entry whose row is between
    20 units above and 20 units below the canvas, and nothing else: entry
    [i] goes to the column's [x] and to the row [y - i * (fontSize + 5)],
    in white for the head entry.  Each glyph is faded by its own age: its
    alpha is between 0 and [opacity * quality], is 0 from age 50 on, is
    positive below age 50, and is the full [opacity * quality] for a head
    glyph of age 0.  A glyph of age 50 to 79 is therefore drawn fully
    transparent and yet kept: the next [update()] that does not reset the
    column keeps every glyph younger than 80, one tick older. *)
Theorem column_draw_fades_glyphs d c canvas quality now rnd col :
  0 <= opacity col -> 0 <= quality ->
  Forall (fun g => (0 <= age g)%Z) (characters col) ->
  let row := fun i : nat => y col - inject_Z (Z.of_nat i) * inject_Z (fontSize col + 5) in
  let faded := fun (i : nat) (g : Glyph) (a : Q) =>
    0 <= a <= opacity col * quality /\
    ((50 <= age g)%Z -> a == 0) /\
    ((age g < 50)%Z -> 0 < opacity col * quality -> 0 < a) /\
    (age g = 0%Z -> i = 0%nat -> a == opacity col * quality) in
  (reducedMotion d = true -> draw d canvas quality col = []) /\
  (reducedMotion d = false ->
   (forall i g, characters col !! i = Some g ->
      -20 <= row i <= cv_height canvas + 20 ->
      exists a,
        In (FillText a (i =? 0)%nat (char g) (x col) (row i))
           (draw d canvas quality col) /\
        faded i g a) /\
   (forall cmd, In cmd (draw d canvas quality col) ->
      exists i g a,
        characters col !! i = Some g /\
        cmd = FillText a (i =? 0)%nat (char g) (x col) (row i) /\
        -20 <= row i <= cv_height canvas + 20 /\
        faded i g a) /\
   (length (draw d canvas quality col) <= length (characters col))%nat /\
   (js_gt (y col + speed col) (cv_height canvas + 100) = false ->
    forall g, In g (characters col) -> (age g < 80)%Z ->
      In {| char := char g; age := age g + 1 |}
         (characters (update d c canvas now rnd col)))).
Proof.
  intros Ho Hq Hages row faded. unfold draw.
  split; [intros ->; reflexivity|]. intros Hrm. rewrite Hrm. cbv zeta.
  assert (Hprod : 0 <= opacity col * quality) by nra.
  assert (Hage : forall i g, characters col !! i = Some g -> (0 <= age g)%Z).
  { intros i g Hg. rewrite List.Forall_forall in Hages. apply Hages.
    apply list_elem_of_In, list_elem_of_lookup. eauto. }
  assert (Hon : forall i,
    js_lt (row i) (-20) || js_gt (row i) (cv_height canvas + 20) = false <->
    -20 <= row i <= cv_height canvas + 20).
  { intros i. unfold js_gt. rewrite orb_false_iff, !js_lt_false_iff. tauto. }
  split; [|split; [|split]].
  - intros i g Hg Hrow.
    pose proof (glyph_alpha (opacity col * quality) i g Hprod (Hage i g Hg)) as Ha.
    cbv zeta in Ha.
    eexists. split; [|exact Ha].
    apply In_concat_imap. exists i, g. split; [exact Hg|].
    fold (row i). apply Hon in Hrow. rewrite Hrow.
    destruct (i =? 0)%nat; now left.
  - intros cmd Hin. apply In_concat_imap in Hin as (i & g & Hg & Hin).
    fold (row i) in Hin.
    destruct (js_lt (row i) (-20) || js_gt (row i) (cv_height canvas + 20)) eqn:Ey;
      [destruct Hin|].
    apply Hon in Ey.
    pose proof (glyph_alpha (opacity col * quality) i g Hprod (Hage i g Hg)) as Ha.
    cbv zeta in Ha.
    exists i, g. eexists. split; [exact Hg|]. split; [|split; [exact Ey|exact Ha]].
    destruct (i =? 0)%nat; destruct Hin as [<-|[]]; reflexivity.
  - apply length_concat_imap_le. intros i g.
    destruct (_ || _); [cbn; lia|]. destruct (i =? 0)%nat; cbn; lia.
  - intros Hy g Hg Hlt.
    destruct (update_characters_cases d c canvas now rnd col) as (_ & _ & Hc).
    rewrite (Hc Hrm Hy). apply in_or_app. left.
    apply List.filter_In. split.
    + apply (in_map (fun g0 => {| char := char g0; age := age g0 + 1 |})), Hg.
    + cbn [age]. apply Z.leb_le. lia.
Qed.

End ColumnGlyphs.

Lemma column_draw_fades_glyphs_witness :
  let col := MatrixColumn.mk 20 100 1
               [{| MatrixColumn.char := 3; MatrixColumn.age := 1 |};
                {| MatrixColumn.char := 5; MatrixColumn.age := 60 |}] 6 (1 # 2) 0 13 in
  0 <= MatrixColumn.opacity col /\ 0 <= 1 /\
  Forall (fun g => (0 <= MatrixColumn.age g)%Z) (MatrixColumn.characters col) /\
  reducedMotion desktop_device = false /\
  match MatrixColumn.draw desktop_device {| cv_width := 800; cv_height := 600 |} 1 col with
  | [FillText a0 w0 g0 x0 y0; FillText a1 w1 g1 x1 y1] =>
      a0 == 49 # 100 /\ w0 = true /\ g0 = 3%Z /\ y0 == 100 /\
      a1 == 0 /\ w1 = false /\ g1 = 5%Z /\ y1 == 82
  | _ => False
  end /\
  (length (MatrixColumn.draw desktop_device {| cv_width := 800; cv_height := 600 |} 1 col)
   <= length (MatrixColumn.characters col))%nat.
Proof.
  cbv zeta.
  assert (Ha : Forall (fun g => (0 <= MatrixColumn.age g)%Z)
                 [{| MatrixColumn.char := 3; MatrixColumn.age := 1 |};
                  {| MatrixColumn.char := 5; MatrixColumn.age := 60 |}]).
  { repeat constructor; cbn; lia. }
  split; [discriminate|]. split; [discriminate|]. split; [exact Ha|].
  split; [reflexivity|]. split; [vm_compute; repeat split|].
  refine (proj1 (proj2 (proj2 (proj2 (column_draw_fades_glyphs desktop_device
            (CONFIG desktop_device) {| cv_width := 800; cv_height := 600 |} 1 7000
            (fun _ => 1 # 2)
            (MatrixColumn.mk 20 100 1
               [{| MatrixColumn.char := 3; MatrixColumn.age := 1 |};
                {| MatrixColumn.char := 5; MatrixColumn.age := 60 |}] 6 (1 # 2) 0 13)
            _ _ Ha) eq_refl)))).
  - discriminate.
  - discriminate.
Defined.

(** ** The animation loops when the site is paused and resumed *)

Section Lifecycle.
Context {Err Env : Type}.
Variable b : Behaviour Err Env.
Variable d : DeviceConfig.

(** A scene callback that finds its scene inactive (or, for the intro, the
    intro completed) returns at once. *)
Lemma animate_guards time env (w : World Err) :
  (isActive (hero w) = false -> HeroCanvas.animate b d time env w = w) /\
  (isActive (matrix w) = false -> MatrixCanvas.animate b time env w = w) /\
  (isActive (intro w) = false \/ introCompleted w = true ->
   IntroController.animate b time env w = w).
Proof.
  split; [|split].
  - intros H. unfold HeroCanvas.animate. now rewrite H.
  - intros H. unfold MatrixCanvas.animate. now rewrite H.
  - intros [H|H]; unfold IntroController.animate; rewrite H; [reflexivity|].
    now rewrite orb_true_r.
Qed.

(** X16. A scene's animation callback that runs while its scene is inactive
    changes nothing at all: it returns at its [isActive] guard before
    polling the frame gate, touching an entity or requesting another frame
    (for the intro the guard also covers a completed intro).  Hence after
    [pauseAnimations()] any sequence of scene callbacks, with any
    timestamps, leaves every global as the pause left it: callbacks that
    were requested before the pause and escaped its cancellation restart
    nothing. *)
Theorem inactive_scenes_ignore_their_callbacks :
  (forall time env (w : World Err),
      isActive (hero w) = false -> HeroCanvas.animate b d time env w = w) /\
  (forall time env (w : World Err),
      isActive (matrix w) = false -> MatrixCanvas.animate b time env w = w) /\
  (forall time env (w : World Err),
      isActive (intro w) = false \/ introCompleted w = true ->
      IntroController.animate b time env w = w) /\
  (forall (calls : list (Q * Env * Callback)) (w : World Err),
      fold_left (fun w k => dispatch b d (fst (fst k)) (snd (fst k)) (snd k) w)
                calls (MemoryManager.pauseAnimations w)
      = MemoryManager.pauseAnimations w).
Proof.
  split; [intros time env w; apply animate_guards|].
  split; [intros time env w; apply animate_guards|].
  split; [intros time env w; apply animate_guards|].
  intros calls w.
  pose proof (pauseAnimations_stops_all w) as (Hh & Hm & Hi & _).
  revert Hh Hm Hi. generalize (MemoryManager.pauseAnimations w). intros v Hh Hm Hi.
  induction calls as [|k calls IH]; cbn [fold_left]; [reflexivity|].
  assert (E : dispatch b d (fst (fst k)) (snd (fst k)) (snd k) v = v).
  { destruct (animate_guards (fst (fst k)) (snd (fst k)) v) as (G1 & G2 & G3).
    destruct (snd k); cbn [dispatch]; auto. }
  rewrite E. exact IH.
Qed.

End Lifecycle.

Section PauseThenResume.
Context {Err Env : Type}.
Variable b : Behaviour Err Env.
Variable d : DeviceConfig.
Import MemoryManager.

(** When every pending callback is remembered by a handle variable,
    [pauseAnimations()] cancels them all. *)
Lemma pauseAnimations_empties_queue (w : World Err) :
  (forall e, In e (queue (sched w)) ->
     Some (fst e) = frameHandle (hero w) \/ Some (fst e) = frameHandle (matrix w) \/
     Some (fst e) = frameHandle (intro w)) ->
  queue (sched (pauseAnimations w)) = [].
Proof.
  intros H.
  destruct (queue (sched (pauseAnimations w))) as [|e q] eqn:E; [reflexivity|exfalso].
  assert (Hin : In e (queue (sched (pauseAnimations w)))) by (rewrite E; now left).
  clear E. revert Hin.
  destruct w as [done i h m g c f fh er lc sc st].
  destruct i as [ia ic ih ie]; destruct h as [ha hc hh he];
    destruct m as [ma mc mh me]. cbn in H.
  destruct ih as [ih|]; destruct hh as [hh|]; destruct mh as [mh|]; cbn;
    rewrite ?filter_In; intros Hin;
    repeat match goal with
           | H0 : _ /\ _ |- _ => destruct H0
           | H0 : negb (_ =? _)%positive = true |- _ =>
               apply negb_true_iff, Pos.eqb_neq in H0
           end;
    match goal with
    | H0 : In e _ |- _ => destruct (H e H0) as [K|[K|K]]; congruence
    end.
Qed.

Ltac scene_cbn :=
  cbn -[FPSController.updateQuality FPSController.shouldRender
        HeroCanvas.drawConnections HeroCanvas.rebuild forEach].

(** One call of [animate()] on an active scene whose handle variable is
    [null]: the other scenes are untouched, and the queue grows by exactly
    the callback that the scene's handle variable remembers afterwards. *)
Lemma hero_animate_from_rest now env (v : World Err) :
  isActive (hero v) = true -> frameHandle (hero v) = None ->
  let v1 := HeroCanvas.animate b d now env v in
  matrix v1 = matrix v /\ intro v1 = intro v /\
  introCompleted v1 = introCompleted v /\
  queue (sched v1) = queue (sched v) ++ pending_of (frameHandle (hero v1)) HeroAnimate /\
  (isActive (hero v1) = true -> frameHandle (hero v1) <> None).
Proof.
  destruct v as [done i h m g c f fh er lc [q n ca ti] st].
  destruct h as [ha hc hh he]. cbn. intros -> ->.
  unfold HeroCanvas.animate. scene_cbn.
  destruct (FPSController.shouldRender now f) as [[|] f1]; scene_cbn.
  - unfold HeroCanvas.render. scene_cbn.
    destruct (FPSController.updateQuality fh (f1, c)) as [f2 c2]. scene_cbn.
    destruct hc as [cv|]; scene_cbn.
    + destruct (forEach _ _ _) as [ps|ps e]; scene_cbn;
        rewrite ?app_nil_r; repeat split; congruence.
    + rewrite ?app_nil_r; repeat split; congruence.
  - repeat split; congruence.
Qed.

Lemma matrix_animate_from_rest now env (v : World Err) :
  isActive (matrix v) = true -> frameHandle (matrix v) = None ->
  let v1 := MatrixCanvas.animate b now env v in
  hero v1 = hero v /\ intro v1 = intro v /\
  introCompleted v1 = introCompleted v /\
  queue (sched v1) =
    queue (sched v) ++ pending_of (frameHandle (matrix v1)) MatrixAnimate /\
  (isActive (matrix v1) = true -> frameHandle (matrix v1) <> None).
Proof.
  destruct v as [done i h m g c f fh er lc [q n ca ti] st].
  destruct m as [ma mc mh me]. cbn. intros -> ->.
  unfold MatrixCanvas.animate. scene_cbn.
  destruct (FPSController.shouldRender now f) as [[|] f1]; scene_cbn.
  - unfold MatrixCanvas.render. scene_cbn.
    destruct mc as [cv|]; scene_cbn.
    + destruct (forEach _ _ _) as [cs|cs e]; scene_cbn;
        rewrite ?app_nil_r; repeat split; congruence.
    + rewrite ?app_nil_r; repeat split; congruence.
  - repeat split; congruence.
Qed.

Lemma intro_animate_from_rest now env (v : World Err) :
  frameHandle (intro v) = None ->
  let v1 := IntroController.animate b now env v in
  hero v1 = hero v /\ matrix v1 = matrix v /\
  queue (sched v1) =
    queue (sched v) ++ pending_of (frameHandle (intro v1)) IntroAnimate.
Proof.
  destruct v as [done i h m g c f fh er lc [q n ca ti] st].
  destruct i as [ia ic ih ie]. cbn. intros ->.
  unfold IntroController.animate. scene_cbn.
  destruct (negb ia || done); scene_cbn; [rewrite app_nil_r; auto|].
  destruct (FPSController.shouldRender now f) as [[|] f1]; scene_cbn.
  - unfold IntroController.render. scene_cbn.
    destruct ic as [cv|]; scene_cbn.
    + destruct (forEach _ _ _) as [ps|ps e]; scene_cbn;
        rewrite ?app_nil_r; repeat split; congruence.
    + rewrite ?app_nil_r; repeat split; congruence.
  - repeat split; congruence.
Qed.

(** The timeout of [resumeAnimations()] on a world with no pending callback
    and no remembered handle. *)
Lemma resume_from_rest now1 now2 env (v : World Err) :
  frameHandle (hero v) = None -> frameHandle (matrix v) = None ->
  frameHandle (intro v) = None -> queue (sched v) = [] ->
  let v' := resumeAnimations_timeout b d now1 now2 env v in
  queue (sched v') =
    pending_of (frameHandle (hero v')) HeroAnimate ++
    pending_of (frameHandle (matrix v')) MatrixAnimate ++
    pending_of (frameHandle (intro v')) IntroAnimate /\
  (introCompleted v = true -> canvas (hero v) <> None ->
   isActive (hero v') = true -> frameHandle (hero v') <> None) /\
  (introCompleted v = true -> canvas (matrix v) <> None ->
   isActive (matrix v') = true -> frameHandle (matrix v') <> None).
Proof.
  intros Hh Hm Hi Hq. unfold resumeAnimations_timeout.
  destruct (introCompleted v) eqn:Hdone.
  - (* the main site *)
    set (v2 := set_matrix _ _).
    assert (Hh2 : frameHandle (hero v2) = None) by exact Hh.
    assert (Hm2 : frameHandle (matrix v2) = None) by exact Hm.
    assert (Hi2 : frameHandle (intro v2) = None) by exact Hi.
    assert (Hq2 : queue (sched v2) = []) by exact Hq.
    assert (Ha2 : isActive (hero v2) = true) by reflexivity.
    assert (Hma2 : isActive (matrix v2) = true) by reflexivity.
    assert (Hch : canvas (hero v2) = canvas (hero v)) by reflexivity.
    assert (Hcm : canvas (matrix v2) = canvas (matrix v)) by reflexivity.
    rewrite <- Hch, <- Hcm. clearbody v2. clear Hch Hcm.
    set (v3 := match canvas (hero v2) with
               | Some _ => HeroCanvas.animate b d now1 env v2
               | None => v2
               end).
    assert (H3 : matrix v3 = matrix v2 /\ intro v3 = intro v2 /\
                 queue (sched v3) = pending_of (frameHandle (hero v3)) HeroAnimate /\
                 (canvas (hero v2) <> None -> isActive (hero v3) = true ->
                  frameHandle (hero v3) <> None)).
    { subst v3. destruct (canvas (hero v2)) as [cv|].
      - destruct (hero_animate_from_rest now1 env v2 Ha2 Hh2) as (E1 & E2 & _ & E4 & E5).
        rewrite Hq2 in E4. repeat split; auto.
      - rewrite Hh2, Hq2. repeat split; auto; intros Hc; now contradiction Hc. }
    destruct H3 as (E1 & E2 & E3 & E4). clearbody v3.
    assert (Hm3 : frameHandle (matrix v3) = None) by (now rewrite E1).
    assert (Hma3 : isActive (matrix v3) = true) by (now rewrite E1).
    assert (Hi3 : frameHandle (intro v3) = None) by (now rewrite E2).
    assert (Hcm3 : canvas (matrix v3) = canvas (matrix v2)) by (now rewrite E1).
    rewrite <- Hcm3.
    destruct (canvas (matrix v3)) as [cv|].
    + destruct (matrix_animate_from_rest now2 env v3 Hma3 Hm3) as (F1 & F2 & _ & F4 & F5).
      cbv zeta. rewrite F1, F2, F4, E3, Hi3. cbn [pending_of]. rewrite app_nil_r.
      repeat split; auto.
    + cbv zeta. rewrite E3, Hm3, Hi3. cbn [pending_of]. rewrite !app_nil_r.
      repeat split; auto; intros _ Hc; now contradiction Hc.
  - (* the intro *)
    split; [|split; intros; discriminate].
    set (v2 := set_intro _ _ _).
    assert (Hh2 : frameHandle (hero v2) = None) by exact Hh.
    assert (Hm2 : frameHandle (matrix v2) = None) by exact Hm.
    assert (Hi2 : frameHandle (intro v2) = None) by exact Hi.
    assert (Hq2 : queue (sched v2) = []) by exact Hq.
    clearbody v2.
    destruct (canvas (intro v2)) as [cv|].
    + destruct (intro_animate_from_rest now1 env v2 Hi2) as (F1 & F2 & F3).
      rewrite F1, F2, F3, Hq2, Hh2, Hm2. reflexivity.
    + rewrite Hq2, Hh2, Hm2, Hi2. reflexivity.
Qed.

(** X17. [pauseAnimations()] followed by [resumeAnimations()] and its
    timeout restarts each loop at most once.  If every callback pending
    before the pause was remembered by a handle variable, then afterwards
    the pending callbacks are exactly the ones the three handle variables
    remember, so a later pause cancels them all; and on the main site a
    scene that has its canvas and is still active has its callback
    pending. *)
Theorem pause_then_resume_keeps_one_loop_per_scene now1 now2 env (w : World Err) :
  (forall e, In e (queue (sched w)) ->
     Some (fst e) = frameHandle (hero w) \/ Some (fst e) = frameHandle (matrix w) \/
     Some (fst e) = frameHandle (intro w)) ->
  let w' := resumeAnimations_timeout b d now1 now2 env
              (resumeAnimations (pauseAnimations w)) in
  queue (sched w') =
    pending_of (frameHandle (hero w')) HeroAnimate ++
    pending_of (frameHandle (matrix w')) MatrixAnimate ++
    pending_of (frameHandle (intro w')) IntroAnimate /\
  (introCompleted w = true -> canvas (hero w) <> None ->
   isActive (hero w') = true -> frameHandle (hero w') <> None) /\
  (introCompleted w = true -> canvas (matrix w) <> None ->
   isActive (matrix w') = true -> frameHandle (matrix w') <> None).
Proof.
  intros H.
  pose proof (pauseAnimations_empties_queue w H) as Hq.
  pose proof (pauseAnimations_stops_all w) as (_ & _ & _ & Hh & Hm & Hi).
  assert (Hd : introCompleted (pauseAnimations w) = introCompleted w).
  { destruct w as [done i h m g c f fh er lc sc st].
    destruct i as [ia ic [ih|] ie]; destruct h as [ha hc [hh|] he];
      destruct m as [ma mc [mh|] me]; reflexivity. }
  assert (Hch : canvas (hero (pauseAnimations w)) = canvas (hero w)).
  { destruct w as [done i h m g c f fh er lc sc st].
    destruct i as [ia ic [ih|] ie]; destruct h as [ha hc [hh|] he];
      destruct m as [ma mc [mh|] me]; reflexivity. }
  assert (Hcm : canvas (matrix (pauseAnimations w)) = canvas (matrix w)).
  { destruct w as [done i h m g c f fh er lc sc st].
    destruct i as [ia ic [ih|] ie]; destruct h as [ha hc [hh|] he];
      destruct m as [ma mc [mh|] me]; reflexivity. }
  rewrite <- Hd, <- Hch, <- Hcm.
  apply (resume_from_rest now1 now2 env (resumeAnimations (pauseAnimations w)));
    assumption.
Qed.

End PauseThenResume.

Lemma pause_then_resume_keeps_one_loop_per_scene_witness :
  let w := main_site [HeroParticle.at_rest 100 100] [] in
  let w' := MemoryManager.resumeAnimations_timeout quiet desktop_device 5000 5001 tt
              (MemoryManager.resumeAnimations (MemoryManager.pauseAnimations w)) in
  (forall e, In e (queue (sched w)) ->
     Some (fst e) = frameHandle (hero w) \/ Some (fst e) = frameHandle (matrix w) \/
     Some (fst e) = frameHandle (intro w)) /\
  queue (sched w') = [(3, HeroAnimate); (4, MatrixAnimate)]%positive /\
  queue (sched w') =
    pending_of (frameHandle (hero w')) HeroAnimate ++
    pending_of (frameHandle (matrix w')) MatrixAnimate ++
    pending_of (frameHandle (intro w')) IntroAnimate.
Proof.
  cbv zeta.
  assert (H : forall e,
    In e (queue (sched (main_site [HeroParticle.at_rest 100 100] []))) ->
    Some (fst e) = frameHandle (hero (main_site [HeroParticle.at_rest 100 100] [])) \/
    Some (fst e) = frameHandle (matrix (main_site [HeroParticle.at_rest 100 100] [])) \/
    Some (fst e) = frameHandle (intro (main_site [HeroParticle.at_rest 100 100] []))).
  { intros e [<-|[<-|[]]]; cbn; auto. }
  split; [exact H|]. split; [vm_compute; reflexivity|].
  exact (proj1 (pause_then_resume_keeps_one_loop_per_scene quiet desktop_device
                  5000 5001 tt (main_site [HeroParticle.at_rest 100 100] []) H)).
Defined.

(** ** The error log *)

Section ErrorLog.
Context {Err : Type}.

Lemma tl_drop {A} (l : list A) : tl l = drop 1 l.
Proof. destruct l; reflexivity. Qed.

Lemma logError_last_ten (e : Err) (w : World Err) :
  (length (errors w) <= 10)%nat ->
  errors (ErrorHandler.logError e w) =
    drop (length (errors w ++ [e]) - 10) (errors w ++ [e]) /\
  (length (errors (ErrorHandler.logError e w)) <= 10)%nat.
Proof.
  intros Hlen. unfold ErrorHandler.logError. cbv zeta. cbn [errors set_errors].
  destruct (Nat.ltb_spec 10 (length (errors w ++ [e]))) as [Hgt|Hle].
  - rewrite length_app in Hgt |- *. cbn [length] in Hgt |- *.
    replace (length (errors w) + 1 - 10)%nat with 1%nat by lia.
    rewrite tl_drop. split; [reflexivity|].
    rewrite length_drop, length_app. cbn [length]. lia.
  - replace (length (errors w ++ [e]) - 10)%nat with 0%nat by lia.
    split; [reflexivity|exact Hle].
Qed.

(** X18. The error log is a window on the ten most recent errors: after any
    number of [logError] calls on a log of at most ten entries, the log
    holds the last ten of all the errors seen, oldest first, so it never
    holds more than ten and the newest error is its last entry. *)
Theorem error_log_keeps_the_last_ten (es : list Err) (w : World Err) :
  (length (errors w) <= 10)%nat ->
  let w' := fold_left (fun w e => ErrorHandler.logError e w) es w in
  errors w' = drop (length (errors w ++ es) - 10) (errors w ++ es) /\
  (length (errors w') <= 10)%nat /\
  (forall e es0, es = es0 ++ [e] -> List.last (errors w') e = e /\ errors w' <> []).
Proof.
  intros Hlen w'.
  assert (H : errors w' = drop (length (errors w ++ es) - 10) (errors w ++ es) /\
              (length (errors w') <= 10)%nat).
  { subst w'. revert w Hlen. induction es as [|e es IH]; intros w Hlen; cbn [fold_left].
    - rewrite app_nil_r. replace (length (errors w) - 10)%nat with 0%nat by lia.
      split; [reflexivity|exact Hlen].
    - destruct (logError_last_ten e w Hlen) as [E1 L1].
      destruct (IH _ L1) as [E2 L2]. split; [|exact L2].
      rewrite E2, E1.
      set (l := errors w ++ [e]).
      replace (errors w ++ e :: es) with (l ++ es)
        by (unfold l; now rewrite <- app_assoc).
      assert (Hk : (length l - 10 <= length l)%nat) by lia.
      rewrite <- (drop_app_le l es (length l - 10) Hk).
      rewrite drop_drop. f_equal.
      rewrite length_drop, !length_app. lia. }
  destruct H as [E L]. split; [exact E|]. split; [exact L|].
  intros e es0 ->. rewrite E, app_assoc.
  set (l := errors w ++ es0).
  assert (Hk : (length (l ++ [e]) - 10 <= length l)%nat).
  { rewrite length_app. cbn [length]. lia. }
  rewrite (drop_app_le l [e] _ Hk).
  split.
  - apply last_last.
  - intros Hnil. apply app_eq_nil in Hnil as [_ Hnil]. discriminate.
Qed.

End ErrorLog.

Lemma error_log_keeps_the_last_ten_witness :
  (length (errors (main_site [] [])) <= 10)%nat /\
  errors (fold_left (fun w e => ErrorHandler.logError e w)
            (List.map Failure (seq 0 12)) (main_site [] [])) =
  List.map Failure (seq 2 10).
Proof.
  split; [cbn; lia|].
  exact (proj1 (error_log_keeps_the_last_ten (List.map Failure (seq 0 12))
                  (main_site [] []) ltac:(cbn; lia))).
Defined.

(** ** The frame-rate history *)

Section FrameRateHistory.
Import PerformanceMonitor.

Lemma sum_from (l : list Z) (a : Z) : fold_left Z.add l a = (a + sum l)%Z.
Proof.
  unfold sum. revert a. induction l as [|v l IH]; intros a; cbn [fold_left]; [lia|].
  rewrite (IH (a + v)%Z), (IH (0 + v)%Z). lia.
Qed.

Lemma sum_bounds (l : list Z) (lo hi : Z) :
  Forall (fun v => (lo <= v <= hi)%Z) l ->
  (Z.of_nat (length l) * lo <= sum l <= Z.of_nat (length l) * hi)%Z.
Proof.
  induction 1 as [|v l Hv _ IH].
  - cbn. lia.
  - unfold sum in *. cbn [fold_left length]. rewrite sum_from. unfold sum. nia.
Qed.

Lemma Math_round_between (q : Q) (lo hi : Z) :
  inject_Z lo <= q <= inject_Z hi -> (lo <= Math_round q <= hi)%Z.
Proof.
  intros [Hlo Hhi]. unfold Math_round. split.
  - rewrite <- (Qfloor_Z lo). apply Qfloor_resp_le. lra.
  - assert (H : inject_Z (Qfloor (q + (1 # 2))) < inject_Z (hi + 1)).
    { apply Qle_lt_trans with (q + (1 # 2)); [apply Qfloor_le|].
      rewrite inject_Z_plus. change (inject_Z 1) with 1. lra. }
    rewrite <- Zlt_Qlt in H. lia.
Qed.

(** X19. [getAverageFPS()] lies between the smallest and the largest sample
    of the history it averages, and is 0 for an empty history (no division
    by zero is attempted). *)
Theorem average_fps_within_history (fpsHistory : list Z) (lo hi : Z) :
  Forall (fun v => (lo <= v <= hi)%Z) fpsHistory ->
  (fpsHistory = [] -> getAverageFPS fpsHistory = 0%Z) /\
  (fpsHistory <> [] -> (lo <= getAverageFPS fpsHistory <= hi)%Z).
Proof.
  intros Hall. split; [intros ->; reflexivity|].
  intros Hne. unfold getAverageFPS.
  destruct (Nat.ltb_spec 0 (length fpsHistory)) as [Hpos|Hz];
    [|destruct fpsHistory; [congruence|cbn in Hz; lia]].
  apply Math_round_between.
  pose proof (sum_bounds fpsHistory lo hi Hall) as [Hs1 Hs2].
  assert (Hn : 0 < inject_Z (Z.of_nat (length fpsHistory))).
  { change 0 with (inject_Z 0). rewrite <- Zlt_Qlt. lia. }
  split.
  - apply Qle_shift_div_l; [exact Hn|].
    rewrite <- inject_Z_mult, <- Zle_Qle. lia.
  - apply Qle_shift_div_r; [exact Hn|].
    rewrite <- inject_Z_mult, <- Zle_Qle. lia.
Qed.

End FrameRateHistory.

Lemma average_fps_within_history_witness :
  Forall (fun v => (20 <= v <= 61)%Z) [20; 61; 58]%Z /\
  (20 <= PerformanceMonitor.getAverageFPS [20; 61; 58] <= 61)%Z.
Proof.
  assert (H : Forall (fun v => (20 <= v <= 61)%Z) [20; 61; 58]%Z).
  { repeat constructor; lia. }
  split; [exact H|].
  exact (proj2 (average_fps_within_history [20; 61; 58]%Z 20 61 H) ltac:(discriminate)).
Defined.

(** ** Device scaling and the entity counts of CONFIG *)

Section EntityCounts.

Lemma Math_floor_scale (base : Z) (q : Q) :
  (0 <= base)%Z -> 0 <= q <= 1 ->
  (0 <= Math_floor (inject_Z base * q) <= base)%Z.
Proof.
  intros Hb [Hq0 Hq1]. unfold Math_floor.
  assert (Hb' : 0 <= inject_Z base).
  { change 0 with (inject_Z 0). now rewrite <- Zle_Qle. }
  split.
  - change 0%Z with (Qfloor 0). apply Qfloor_resp_le. nra.
  - rewrite <- (Qfloor_Z base) at 2. apply Qfloor_resp_le. nra.
Qed.

Lemma Math_floor_zero (q : Q) : Math_floor (inject_Z 0 * q) = 0%Z.
Proof.
  unfold Math_floor. assert (H : inject_Z 0 * q == 0) by ring.
  rewrite H. reflexivity.
Qed.

(** X20. The device scaling of [DEVICE_CONFIG] never enlarges: for a base
    count or a base speed that is not negative, [getParticleCount] and
    [getAnimationSpeed] return a value between 0 and the base, and exactly
    0 when the user prefers reduced motion, whatever the other device flags
    say. *)
Theorem device_scaling_never_enlarges (d : DeviceConfig) (count : Z) (speed : Q) :
  (0 <= count)%Z -> 0 <= speed ->
  (0 <= getParticleCount d count <= count)%Z /\
  0 <= getAnimationSpeed d speed <= speed /\
  (reducedMotion d = true ->
   getParticleCount d count = 0%Z /\ getAnimationSpeed d speed = 0).
Proof.
  intros Hc Hs. unfold getParticleCount, getAnimationSpeed.
  split; [|split].
  - destruct (reducedMotion d); [lia|].
    destruct (mobile d); [apply Math_floor_scale; [lia|lra]|].
    destruct (tablet d); [apply Math_floor_scale; [lia|lra]|].
    destruct (lowEndDevice d); [apply Math_floor_scale; [lia|lra]|]. lia.
  - destruct (reducedMotion d); [lra|].
    destruct (mobile d); [lra|].
    destruct (lowEndDevice d); lra.
  - intros ->. split; reflexivity.
Qed.

(** X21. The static mode does not survive performance adaptation.  Once
    [handleCanvasError] has set the three entity counts of [CONFIG] to 0,
    one [adaptPerformance()] raises them to 5, 8 and 10 whatever the
    quality level is, and one [optimizeForLowFPS()] raises them to 3, 5
    and 8. *)
Theorem static_mode_is_undone_by_adaptation (f : FPSController.t) (c : Config) :
  let c0 := ErrorHandler.handleCanvasError_timeout c in
  (hero_particleCount c0 = 0 /\ intro_particleCount c0 = 0 /\ matrix_columns c0 = 0)%Z /\
  (hero_particleCount (FPSController.adaptPerformance f c0) = 5 /\
   intro_particleCount (FPSController.adaptPerformance f c0) = 8 /\
   matrix_columns (FPSController.adaptPerformance f c0) = 10)%Z /\
  (hero_particleCount (PerformanceMonitor.optimizeForLowFPS c0) = 3 /\
   intro_particleCount (PerformanceMonitor.optimizeForLowFPS c0) = 5 /\
   matrix_columns (PerformanceMonitor.optimizeForLowFPS c0) = 8)%Z.
Proof.
  cbv zeta. unfold ErrorHandler.handleCanvasError_timeout, FPSController.adaptPerformance,
    PerformanceMonitor.optimizeForLowFPS, set_counts.
  cbn [hero_particleCount intro_particleCount matrix_columns].
  rewrite !Math_floor_zero. repeat split; reflexivity.
Qed.

(** X22. [optimizeForLowFPS()] never enlarges a count that is at or above
    its floor and never lets one fall below it: afterwards the hero count
    is between 3 and its old value, the intro count between 5 and its old
    value, the column count between 8 and its old value, and the connection
    distance between 60 and its old value; the other settings and the
    target frame rate are untouched. *)
Theorem optimizeForLowFPS_shrinks_to_floors (c : Config) :
  (3 <= hero_particleCount c)%Z -> (5 <= intro_particleCount c)%Z ->
  (8 <= matrix_columns c)%Z -> 60 <= hero_connectionDistance c ->
  let c' := PerformanceMonitor.optimizeForLowFPS c in
  (3 <= hero_particleCount c' <= hero_particleCount c)%Z /\
  (5 <= intro_particleCount c' <= intro_particleCount c)%Z /\
  (8 <= matrix_columns c' <= matrix_columns c)%Z /\
  60 <= hero_connectionDistance c' <= hero_connectionDistance c /\
  hero_maxConnections c' = hero_maxConnections c /\
  hero_mouseInfluence c' = hero_mouseInfluence c /\
  performance_targetFPS c' = performance_targetFPS c.
Proof.
  intros Hh Hi Hm Hd. cbv zeta. unfold PerformanceMonitor.optimizeForLowFPS.
  cbn [hero_particleCount intro_particleCount matrix_columns hero_connectionDistance
       hero_maxConnections hero_mouseInfluence performance_targetFPS].
  pose proof (Math_floor_scale (hero_particleCount c) (8 # 10) ltac:(lia) ltac:(lra)).
  pose proof (Math_floor_scale (intro_particleCount c) (8 # 10) ltac:(lia) ltac:(lra)).
  pose proof (Math_floor_scale (matrix_columns c) (8 # 10) ltac:(lia) ltac:(lra)).
  repeat split; try lia.
  - destruct (Math_max_cases 60 (hero_connectionDistance c * (9 # 10))) as [[? E]|[? E]];
      lra.
  - destruct (Math_max_cases 60 (hero_connectionDistance c * (9 # 10))) as [[? E]|[? E]];
      lra.
Qed.

End EntityCounts.

Lemma device_scaling_never_enlarges_witness :
  (0 <= 15)%Z /\ 0 <= 2 /\
  (0 <= getParticleCount mobile_device 15 <= 15)%Z /\
  0 <= getAnimationSpeed mobile_device 2 <= 2.
Proof.
  split; [lia|]. split; [discriminate|].
  pose proof (device_scaling_never_enlarges mobile_device 15 2 ltac:(lia)
                ltac:(discriminate)) as (H1 & H2 & _).
  split; [exact H1|exact H2].
Defined.

Lemma optimizeForLowFPS_shrinks_to_floors_witness :
  (3 <= hero_particleCount (CONFIG desktop_device))%Z /\
  (5 <= intro_particleCount (CONFIG desktop_device))%Z /\
  (8 <= matrix_columns (CONFIG desktop_device))%Z /\
  60 <= hero_connectionDistance (CONFIG desktop_device) /\
  (3 <= hero_particleCount (PerformanceMonitor.optimizeForLowFPS (CONFIG desktop_device))
     <= hero_particleCount (CONFIG desktop_device))%Z.
Proof.
  split; [cbn; lia|]. split; [cbn; lia|]. split; [cbn; lia|]. split; [discriminate|].
  exact (proj1 (optimizeForLowFPS_shrinks_to_floors (CONFIG desktop_device)
                  ltac:(cbn; lia) ltac:(cbn; lia) ltac:(cbn; lia) ltac:(discriminate))).
Defined.

(** ** The frame counter of FPSController *)

Section FrameCounter.
Import FPSController.

(** X23. [shouldRender] counts accepted polls and nothing else: after any
    history of polls the frame counter has advanced by exactly the number
    of polls answered [true], and the quality level, the target rate and
    the frame interval are what they were. *)
Theorem frameCount_counts_accepted_polls (trace : list (SceneId * Q)) (f : t) :
  frameCount (polls trace f) = (frameCount f + Z.of_nat (length (accepted trace f)))%Z /\
  qualityLevel (polls trace f) = qualityLevel f /\
  targetFPS (polls trace f) = targetFPS f /\
  frameInterval (polls trace f) = frameInterval f.
Proof.
  revert f. induction trace as [|e trace IH]; intros f.
  - cbn. repeat split; lia.
  - unfold polls in *. cbn [fold_left accepted].
    specialize (IH (snd (shouldRender (snd e) f))).
    destruct IH as (I1 & I2 & I3 & I4). rewrite I1, I2, I3, I4. clear I1 I2 I3 I4.
    unfold shouldRender. destruct (js_ge _ _); cbn [snd fst length frameCount qualityLevel
      targetFPS frameInterval]; repeat split; lia.
Qed.

End FrameCounter.

(** ** The progress shown by the intro *)

Section IntroProgress.
Import IntroController.

Lemma div_intro_duration (a : Q) : a / intro_duration == a * (1 # 5000).
Proof. unfold intro_duration. field. Qed.

Lemma progress_range startTime currentTime :
  0 <= progress startTime currentTime <= 1.
Proof.
  unfold progress, utils.clamp. cbv zeta.
  set (v := (currentTime - startTime) / intro_duration).
  destruct (Math_min_cases 1 v) as [[? E1]|[? E1]];
    destruct (Math_max_cases 0 (Math_min 1 v)) as [[? E2]|[? E2]]; lra.
Qed.

Lemma progress_mono startTime t1 t2 :
  t1 <= t2 -> progress startTime t1 <= progress startTime t2.
Proof.
  intros Ht. unfold progress, utils.clamp. cbv zeta.
  assert (Hv : (t1 - startTime) / intro_duration <= (t2 - startTime) / intro_duration).
  { rewrite !div_intro_duration. lra. }
  revert Hv.
  generalize ((t1 - startTime) / intro_duration) ((t2 - startTime) / intro_duration).
  intros v1 v2 Hv.
  destruct (Math_min_cases 1 v1) as [[? E1]|[? E1]];
    destruct (Math_min_cases 1 v2) as [[? E2]|[? E2]];
    destruct (Math_max_cases 0 (Math_min 1 v1)) as [[? E3]|[? E3]];
    destruct (Math_max_cases 0 (Math_min 1 v2)) as [[? E4]|[? E4]]; lra.
Qed.

(** X24. The percentage shown by the intro is a whole number between 0 and
    100 that never goes back as time advances; it is 0 up to the start time
    and 100 from 5000 ms after it, however late the frame comes. *)
Theorem intro_percentage_is_monotone startTime t1 t2 :
  t1 <= t2 ->
  (0 <= progressPercent startTime t1 <= progressPercent startTime t2)%Z /\
  (progressPercent startTime t2 <= 100)%Z /\
  (t2 <= startTime -> progressPercent startTime t2 = 0%Z) /\
  (startTime + 5000 <= t1 -> progressPercent startTime t1 = 100%Z).
Proof.
  intros Ht. unfold progressPercent.
  pose proof (progress_range startTime t1) as [L1 U1].
  pose proof (progress_range startTime t2) as [L2 U2].
  pose proof (progress_mono startTime t1 t2 Ht) as Hm.
  split; [split|split; [|split]].
  - apply (Math_round_between _ 0 100). change (inject_Z 0) with 0.
    change (inject_Z 100) with 100. lra.
  - unfold Math_round. apply Qfloor_resp_le. lra.
  - apply (Math_round_between _ 0 100). change (inject_Z 0) with 0.
    change (inject_Z 100) with 100. lra.
  - intros Hle.
    assert (E : progress startTime t2 == 0).
    { unfold progress, utils.clamp. cbv zeta.
      assert (Hv : (t2 - startTime) / intro_duration <= 0).
      { rewrite !div_intro_duration. lra. }
      revert Hv. generalize ((t2 - startTime) / intro_duration). intros v Hv.
      destruct (Math_min_cases 1 v) as [[? E1]|[? E1]];
        destruct (Math_max_cases 0 (Math_min 1 v)) as [[? E2]|[? E2]]; lra. }
    unfold Math_round. rewrite E. reflexivity.
  - intros Hge.
    assert (E : progress startTime t1 == 1).
    { unfold progress, utils.clamp. cbv zeta.
      assert (Hv : 1 <= (t1 - startTime) / intro_duration).
      { rewrite !div_intro_duration. lra. }
      revert Hv. generalize ((t1 - startTime) / intro_duration). intros v Hv.
      destruct (Math_min_cases 1 v) as [[? E1]|[? E1]];
        destruct (Math_max_cases 0 (Math_min 1 v)) as [[? E2]|[? E2]]; lra. }
    unfold Math_round. rewrite E. reflexivity.
Qed.

End IntroProgress.

Lemma intro_percentage_is_monotone_witness :
  1200 <= 2610 /\
  (0 <= IntroController.progressPercent 1000 1200
     <= IntroController.progressPercent 1000 2610)%Z.
Proof.
  split; [discriminate|].
  exact (proj1 (intro_percentage_is_monotone 1000 1200 2610 ltac:(discriminate))).
Defined.

(** ** Notifications *)

Section Notifications.
Import NotificationSystem.

Lemma step_keeps_cap (s : t) (e : Event) :
  (Z.of_nat (length (notifications s)) <= Z.max 0 (maxNotifications s))%Z ->
  (Z.of_nat (length (notifications (step s e))) <= Z.max 0 (maxNotifications (step s e)))%Z /\
  maxNotifications (step s e) = maxNotifications s /\
  container (step s e) = container s /\
  (container s = false -> notifications s = [] -> notifications (step s e) = []).
Proof.
  intros Hcap. destruct e as [|n]; cbn [step].
  - unfold show. destruct (container s) eqn:Ec; cbn [negb orb].
    + destruct (Z.leb_spec (maxNotifications s) (Z.of_nat (length (notifications s))));
        cbn [notifications maxNotifications container].
      * repeat split; [lia|exact Ec|discriminate].
      * rewrite length_app. cbn [length]. repeat split; [lia|discriminate].
    + repeat split; [lia|exact Ec|auto].
  - unfold delete. cbn [notifications maxNotifications container].
    pose proof (List.filter_length_le (fun k => negb (k =? n)%nat) (notifications s)).
    repeat split; [lia|]. intros _ ->. reflexivity.
Qed.

(** X25. However many [show] calls arrive and whenever notifications are
    removed, the set of live notifications never holds more than
    [maxNotifications] elements (3 on mobile, 5 otherwise): a [show] at the
    cap is dropped.  When the container element is missing no notification
    is ever created. *)
Theorem notifications_never_exceed_the_cap (d : DeviceConfig) (found : bool)
    (events : list Event) :
  let s := run events (init d found) in
  (Z.of_nat (length (notifications s)) <= (if mobile d then 3 else 5))%Z /\
  (found = false -> notifications s = []).
Proof.
  cbv zeta.
  assert (H : forall s0,
    (Z.of_nat (length (notifications s0)) <= Z.max 0 (maxNotifications s0))%Z ->
    (Z.of_nat (length (notifications (run events s0)))
       <= Z.max 0 (maxNotifications s0))%Z /\
    (container s0 = false -> notifications s0 = [] ->
     notifications (run events s0) = [])).
  { unfold run. induction events as [|e events IH]; intros s0 Hcap; cbn [fold_left].
    - auto.
    - destruct (step_keeps_cap s0 e Hcap) as (H1 & H2 & H3 & H4).
      destruct (IH _ H1) as [I1 I2]. rewrite H2 in I1. split; [exact I1|].
      intros Hc Hn. apply I2; [now rewrite H3|now apply H4]. }
  destruct (H (init d found)) as [H1 H2].
  - cbn. destruct (mobile d); lia.
  - split.
    + cbn [init maxNotifications] in H1. destruct (mobile d); lia.
    + intros ->. now apply H2.
Qed.

End Notifications.

(** ** PerformanceMonitor.monitor *)

Section MonitorLoop.
Context {Err : Type}.
Import PerformanceMonitor.

Lemma store_bounded (h : list Z) (sample : Z) :
  (length h <= 60)%nat -> (0 <= sample)%Z -> Forall (fun v => (0 <= v)%Z) h ->
  (length (store h sample) <= 60)%nat /\ Forall (fun v => (0 <= v)%Z) (store h sample).
Proof.
  intros Hlen Hs Hall. unfold store. cbv zeta.
  assert (Hp : Forall (fun v => (0 <= v)%Z) (h ++ [sample])).
  { apply Forall_app. split; [exact Hall|]. constructor; [exact Hs|constructor]. }
  destruct (Nat.ltb_spec 60 (length (h ++ [sample]))) as [Hgt|Hle].
  - rewrite length_app in Hgt. cbn [length] in Hgt.
    destruct h as [|v h]; [cbn in Hgt; lia|].
    cbn [app tl]. split.
    + rewrite length_app. cbn [length] in *. lia.
    + cbn [app] in Hp. now inversion Hp.
  - split; [exact Hle|exact Hp].
Qed.

Lemma forceCleanup_keeps_history now (w : World Err) :
  fpsHistory (MemoryManager.forceCleanup now w) = fpsHistory w /\
  length (entities (intro (MemoryManager.forceCleanup now w))) = length (entities (intro w)) /\
  length (entities (hero (MemoryManager.forceCleanup now w))) = length (entities (hero w)) /\
  length (entities (matrix (MemoryManager.forceCleanup now w)))
    = length (entities (matrix w)).
Proof.
  unfold MemoryManager.forceCleanup, MemoryManager.cleanup. cbv zeta.
  destruct (js_lt _ _); cbn; rewrite ?length_map; auto.
Qed.

Lemma monitor_step now memoryMB cleanupNow (m : t) (w : World Err) :
  (length (fpsHistory w) <= 60)%nat -> (0 <= frames m)%Z ->
  Forall (fun v => (0 <= v)%Z) (fpsHistory w) ->
  let s' := monitor now memoryMB cleanupNow (m, w) in
  (length (fpsHistory (snd s')) <= 60)%nat /\
  (0 <= frames (fst s'))%Z /\
  Forall (fun v => (0 <= v)%Z) (fpsHistory (snd s')) /\
  length (entities (intro (snd s'))) = length (entities (intro w)) /\
  length (entities (hero (snd s'))) = length (entities (hero w)) /\
  length (entities (matrix (snd s'))) = length (entities (matrix w)).
Proof.
  intros Hlen Hfr Hall. unfold monitor. cbv zeta.
  destruct (js_ge now (lastTime m + 1000)) eqn:Edue; cbn [fst snd frames];
    [|repeat split; auto; lia].
  apply js_le_iff in Edue.
  set (sample := Math_round _).
  assert (Hs : (0 <= sample)%Z).
  { unfold sample, Math_round. change 0%Z with (Qfloor 0). apply Qfloor_resp_le.
    assert (H0 : 0 <= inject_Z ((frames m + 1) * 1000) / (now - lastTime m)).
    { apply Qle_shift_div_l; [lra|].
      assert (H1 : inject_Z 0 <= inject_Z ((frames m + 1) * 1000)).
      { rewrite <- Zle_Qle. lia. }
      change (inject_Z 0) with 0 in H1. lra. }
    lra. }
  destruct (store_bounded (fpsHistory w) sample Hlen Hs Hall) as [S1 S2].
  set (w1 := set_fpsHistory w _).
  set (w2 := if js_lt _ _ then _ else w1).
  assert (H2 : fpsHistory w2 = store (fpsHistory w) sample /\
               entities (intro w2) = entities (intro w) /\
               entities (hero w2) = entities (hero w) /\
               entities (matrix w2) = entities (matrix w)).
  { unfold w2. destruct (js_lt _ _); repeat split; reflexivity. }
  destruct H2 as (E1 & E2 & E3 & E4). clearbody w2.
  assert (H3 : forall w3,
    w3 = match memoryMB with
         | Some mb => if (100 <? mb)%Z then MemoryManager.forceCleanup cleanupNow w2 else w2
         | None => w2
         end ->
    fpsHistory w3 = fpsHistory w2 /\
    length (entities (intro w3)) = length (entities (intro w2)) /\
    length (entities (hero w3)) = length (entities (hero w2)) /\
    length (entities (matrix w3)) = length (entities (matrix w2))).
  { intros w3 ->. destruct memoryMB as [mb|]; [|auto].
    destruct (100 <? mb)%Z; [|auto]. apply forceCleanup_keeps_history. }
  destruct (H3 _ eq_refl) as (F1 & F2 & F3 & F4).
  rewrite F1, F2, F3, F4, E1, E2, E3, E4. repeat split; auto; lia.
Qed.

(** X26. Over any run of [monitor()] calls, whatever the clock and the heap
    size do, the frame-rate history never holds more than 60 samples, every
    sample it stores is a whole number that is not negative, and the
    monitor removes no entity (the forced cleanup it may start empties
    buffers only). *)
Theorem monitor_history_stays_bounded (ticks : list MonitorTick) (m : t)
    (w : World Err) :
  (length (fpsHistory w) <= 60)%nat -> (0 <= frames m)%Z ->
  Forall (fun v => (0 <= v)%Z) (fpsHistory w) ->
  let s' := monitor_run ticks (m, w) in
  (length (fpsHistory (snd s')) <= 60)%nat /\
  Forall (fun v => (0 <= v)%Z) (fpsHistory (snd s')) /\
  length (entities (intro (snd s'))) = length (entities (intro w)) /\
  length (entities (hero (snd s'))) = length (entities (hero w)) /\
  length (entities (matrix (snd s'))) = length (entities (matrix w)).
Proof.
  unfold monitor_run. revert m w.
  induction ticks as [|k ticks IH]; intros m w Hlen Hfr Hall; cbn [fold_left].
  - cbn. auto.
  - pose proof (monitor_step (mt_now k) (mt_memoryMB k) (mt_cleanupNow k) m w
                  Hlen Hfr Hall) as H.
    cbv zeta in H.
    destruct (monitor (mt_now k) (mt_memoryMB k) (mt_cleanupNow k) (m, w)) as [m1 w1].
    cbn [fst snd] in H. destruct H as (H1 & H2 & H3 & H4 & H5 & H6).
    specialize (IH m1 w1 H1 H2 H3). cbv zeta in IH.
    rewrite <- H4, <- H5, <- H6. exact IH.
Qed.

End MonitorLoop.

Lemma monitor_history_stays_bounded_witness :
  let ticks := List.map (fun i => {| mt_now := inject_Z (Z.of_nat i) * 1000;
                                     mt_memoryMB := Some 120%Z;
                                     mt_cleanupNow := inject_Z (Z.of_nat i) * 1000 |})
                        (seq 1 70) in
  let w := main_site [HeroParticle.at_rest 100 100] [] in
  (length (fpsHistory w) <= 60)%nat /\
  (0 <= PerformanceMonitor.frames (PerformanceMonitor.mk 0 0 0))%Z /\
  Forall (fun v => (0 <= v)%Z) (fpsHistory w) /\
  (length (fpsHistory (snd (monitor_run ticks (PerformanceMonitor.mk 0 0 0, w)))) <= 60)%nat.
Proof.
  cbv zeta.
  split; [cbn; lia|]. split; [cbn; lia|]. split; [constructor|].
  refine (proj1 (monitor_history_stays_bounded _ (PerformanceMonitor.mk 0 0 0)
                   (main_site [HeroParticle.at_rest 100 100] []) _ _ _)).
  - cbn; lia.
  - cbn; lia.
  - constructor.
Defined.

(** ** MemoryManager.cleanup *)

Section CleanupWindow.
Context {Err : Type}.
Import MemoryManager.

Lemma trim_trail_suffix p :
  (0 < Particle3D.maxTrailLength p)%Z ->
  Particle3D.trail (trim_trail p) =
    drop (length (Particle3D.trail p) - Z.to_nat (Particle3D.maxTrailLength p))
         (Particle3D.trail p) /\
  Particle3D.set_trail (trim_trail p) (Particle3D.trail p) (Particle3D.lastTrailTime p) = p.
Proof.
  intros Hpos. unfold trim_trail.
  destruct (Z.ltb_spec (Particle3D.maxTrailLength p)
              (Z.of_nat (length (Particle3D.trail p)))) as [Hover|Hfit].
  - cbn [Particle3D.set_trail Particle3D.trail]. split; [|destruct p; reflexivity].
    unfold slice, js_trunc.
    assert (Hneg : Qle_bool 0 (- inject_Z (Particle3D.maxTrailLength p)) = false).
    { apply not_true_iff_false. rewrite Qle_bool_iff.
      intros H. assert (H' : inject_Z (Particle3D.maxTrailLength p) <= inject_Z 0).
      { change (inject_Z 0) with 0. lra. }
      rewrite <- Zle_Qle in H'. lia. }
    rewrite Hneg.
    change (- inject_Z (Particle3D.maxTrailLength p))
      with (inject_Z (- Particle3D.maxTrailLength p)).
    rewrite Qceiling_Z.
    destruct (Z.ltb_spec (- Particle3D.maxTrailLength p) 0); [|lia].
    f_equal. lia.
  - split; [|destruct p; reflexivity].
    replace (length (Particle3D.trail p) - Z.to_nat (Particle3D.maxTrailLength p))%nat
      with 0%nat by lia.
    reflexivity.
Qed.

(** X27. [cleanup()] is throttled and keeps the newest samples.  A call less
    than 5000 ms after the last cleanup changes nothing.  Otherwise every
    particle's trail is cut to its last [maxTrailLength] samples (a trail
    within its cap is kept whole), nothing else of a particle changes, the
    time is recorded, and a further call within the next 5000 ms changes
    nothing. *)
Theorem cleanup_is_throttled_and_keeps_newest (now : Q) (w : World Err) :
  Forall (fun p => (0 < Particle3D.maxTrailLength p)%Z) (entities (intro w)) ->
  (now - lastCleanup w < 5000 -> cleanup now w = w) /\
  (5000 <= now - lastCleanup w ->
   let w' := cleanup now w in
   lastCleanup w' = now /\
   Forall2 (fun p p' =>
              Particle3D.trail p' =
                drop (length (Particle3D.trail p)
                      - Z.to_nat (Particle3D.maxTrailLength p))
                     (Particle3D.trail p) /\
              Particle3D.set_trail p' (Particle3D.trail p) (Particle3D.lastTrailTime p)
                = p)
           (entities (intro w)) (entities (intro w')) /\
   hero w' = hero w /\
   (forall later, later - now < 5000 -> cleanup later w' = w')).
Proof.
  intros Hcap. split.
  - intros Hsoon. unfold cleanup. apply js_lt_iff in Hsoon. now rewrite Hsoon.
  - intros Hdue. cbv zeta. apply js_lt_false_iff in Hdue.
    assert (E : cleanup now w =
      set_lastCleanup
        (set_matrix
           (set_intro w (introCompleted w)
              (set_entities (intro w) (List.map trim_trail (entities (intro w)))))
           (set_entities (matrix w) (List.map trim_characters (entities (matrix w)))))
        now).
    { unfold cleanup. rewrite Hdue. reflexivity. }
    rewrite E.
    cbn [lastCleanup set_lastCleanup set_matrix set_intro set_entities intro entities hero].
    split; [reflexivity|]. split; [|split; [reflexivity|]].
    + clear E. induction Hcap as [|p ps Hp _ IH]; cbn [List.map]; constructor.
      * now apply trim_trail_suffix.
      * exact IH.
    + intros later Hl. unfold cleanup. cbn [lastCleanup set_lastCleanup].
      apply js_lt_iff in Hl. now rewrite Hl.
Qed.

End CleanupWindow.

Lemma cleanup_is_throttled_and_keeps_newest_witness :
  let p := Particle3D.mk 10 10 0 1 1 0 1 (1 # 2)
             [{| Particle3D.tp_x := 1; Particle3D.tp_y := 1; Particle3D.tp_z := 0 |};
              {| Particle3D.tp_x := 2; Particle3D.tp_y := 2; Particle3D.tp_z := 0 |};
              {| Particle3D.tp_x := 3; Particle3D.tp_y := 3; Particle3D.tp_z := 0 |}]
             2 0 in
  let w := set_intro (main_site [] []) false
             (running_scene {| cv_width := 800; cv_height := 600 |} [p] None) in
  Forall (fun p => (0 < Particle3D.maxTrailLength p)%Z) (entities (intro w)) /\
  5000 <= 6000 - lastCleanup w /\
  List.map Particle3D.trail (entities (intro (MemoryManager.cleanup 6000 w))) =
    [[{| Particle3D.tp_x := 2; Particle3D.tp_y := 2; Particle3D.tp_z := 0 |};
      {| Particle3D.tp_x := 3; Particle3D.tp_y := 3; Particle3D.tp_z := 0 |}]] /\
  lastCleanup (MemoryManager.cleanup 6000 w) = 6000.
Proof.
  cbv zeta.
  split; [repeat constructor|]. split; [discriminate|]. split; [reflexivity|].
  refine (proj1 (proj2 (cleanup_is_throttled_and_keeps_newest 6000 _ _) _)).
  - repeat constructor.
  - discriminate.
Defined.

(** ** Initialising the scenes *)

Section SceneInit.

Lemma lookup_map_seq {A} (f : nat -> A) (a n i : nat) (y : A) :
  List.map f (seq a n) !! i = Some y -> (i < n)%nat /\ y = f (a + i)%nat.
Proof.
  revert a i. induction n as [|n IH]; intros a i H; cbn in H; [discriminate|].
  destruct i as [|i]; cbn in H.
  - injection H as <-. split; [lia|]. f_equal. lia.
  - apply IH in H as [Hi ->]. split; [lia|]. f_equal. lia.
Qed.

(** X28. [initColumns()] creates exactly [CONFIG.matrix.columns] columns
    (none when that count is 0 or negative).  On a canvas of positive width
    the [i]-th column is placed at [i * columnWidth + columnWidth / 2] with
    [columnWidth = width / columns]: strictly inside the canvas, and
    strictly to the left of every later column.  Each column starts above
    the canvas, between 200 and 50 units over its top edge, with no
    glyph. *)
Theorem initColumns_spreads_columns_evenly d c cv (rnd : nat -> nat -> Q) :
  0 < cv_width cv -> (forall i n, 0 <= rnd i n < 1) ->
  let cols := MatrixCanvas.initColumns d c cv rnd in
  let columnWidth := cv_width cv / inject_Z (matrix_columns c) in
  length cols = Z.to_nat (matrix_columns c) /\
  (forall i col, cols !! i = Some col ->
     MatrixColumn.x col == inject_Z (Z.of_nat i) * columnWidth + columnWidth / 2 /\
     0 < MatrixColumn.x col < cv_width cv /\
     -200 <= MatrixColumn.y col <= -50 /\
     MatrixColumn.characters col = []) /\
  (forall i j col col', cols !! i = Some col -> cols !! j = Some col' ->
     (i < j)%nat -> MatrixColumn.x col < MatrixColumn.x col').
Proof.
  intros Hw Hr. cbv zeta. unfold MatrixCanvas.initColumns.
  destruct (Z.ltb_spec 0 (matrix_columns c)) as [Hpos|Hnone].
  - cbv zeta.
    set (n := inject_Z (matrix_columns c)).
    assert (Hn : 0 < n).
    { unfold n. change 0 with (inject_Z 0). rewrite <- Zlt_Qlt. lia. }
    set (cw := cv_width cv / n).
    assert (Hcw : cw * n == cv_width cv) by (unfold cw; field; lra).
    assert (Hcw0 : 0 < cw) by (unfold cw; apply Qlt_shift_div_l; lra).
    assert (Hhalf : forall k, k * cw + cw / 2 == (k + (1 # 2)) * cw)
      by (intros k; field).
    split; [now rewrite length_map, length_seq|]. split.
    + intros i col Hi. apply lookup_map_seq in Hi as [Hlt ->].
      cbn [MatrixColumn.constructor MatrixColumn.reset MatrixColumn.x MatrixColumn.y
           MatrixColumn.characters Nat.add].
      fold n. fold cw.
      set (k := inject_Z (Z.of_nat i)).
      assert (Hk0 : 0 <= k).
      { unfold k. change 0 with (inject_Z 0). rewrite <- Zle_Qle. lia. }
      assert (Hk1 : k + 1 <= n).
      { unfold k, n. change 1 with (inject_Z 1).
        rewrite <- inject_Z_plus, <- Zle_Qle. lia. }
      split; [reflexivity|]. rewrite (Hhalf k).
      split; [split; nra|]. split; [|reflexivity].
      pose proof (random_range (rnd i 0%nat) (-200) (-50) (Hr i 0%nat)
                    ltac:(discriminate)) as [Hy _].
      exact Hy.
    + intros i j col col' Hi Hj Hij.
      apply lookup_map_seq in Hi as [_ ->]. apply lookup_map_seq in Hj as [_ ->].
      cbn [MatrixColumn.constructor MatrixColumn.reset MatrixColumn.x Nat.add].
      fold n. fold cw. rewrite !Hhalf.
      assert (Hlt : inject_Z (Z.of_nat i) < inject_Z (Z.of_nat j)).
      { rewrite <- Zlt_Qlt. lia. }
      nra.
  - replace (Z.to_nat (matrix_columns c)) with 0%nat by lia.
    split; [reflexivity|]. split; intros; discriminate.
Qed.

(** X29. [HeroCanvas.initParticles()] and [IntroController.initParticles()]
    create exactly as many particles as [CONFIG] asks for (none for a count
    of 0 or less).  Every hero particle starts on the canvas, at its home
    position, with no mouse force and a drift of at most half a unit per
    axis; every intro particle starts on the canvas with depth in
    [[-400, 400)] and an empty trail. *)
Theorem initParticles_fill_the_canvas d c cv (rnd : nat -> nat -> Q) :
  0 <= cv_width cv -> 0 <= cv_height cv -> (forall i n, 0 <= rnd i n < 1) ->
  let hs := HeroCanvas.initParticles c cv rnd in
  let ps := IntroController.initParticles d c cv rnd in
  length hs = Z.to_nat (hero_particleCount c) /\
  length ps = Z.to_nat (intro_particleCount c) /\
  Forall (fun p =>
            0 <= HeroParticle.x p <= cv_width cv /\
            0 <= HeroParticle.y p <= cv_height cv /\
            HeroParticle.baseX p = HeroParticle.x p /\
            HeroParticle.baseY p = HeroParticle.y p /\
            HeroParticle.mouseForceX p = 0 /\ HeroParticle.mouseForceY p = 0 /\
            - (1 # 2) <= HeroParticle.vx p <= 1 # 2 /\
            - (1 # 2) <= HeroParticle.vy p <= 1 # 2) hs /\
  Forall (fun p =>
            0 <= Particle3D.x p <= cv_width cv /\
            0 <= Particle3D.y p <= cv_height cv /\
            -400 <= Particle3D.z p < 400 /\
            Particle3D.trail p = [] /\
            Particle3D.maxTrailLength p = (if mobile d then 4 else 8)%Z) ps.
Proof.
  intros Hw Hh Hr. cbv zeta.
  unfold HeroCanvas.initParticles, IntroController.initParticles.
  split; [|split; [|split]].
  - destruct (Z.ltb_spec 0 (hero_particleCount c));
      [now rewrite length_map, length_seq|cbn; lia].
  - destruct (Z.ltb_spec 0 (intro_particleCount c));
      [now rewrite length_map, length_seq|cbn; lia].
  - destruct (0 <? hero_particleCount c)%Z; [|constructor].
    apply List.Forall_forall. intros p Hp. apply in_map_iff in Hp as (i & <- & _).
    cbn [HeroParticle.reset HeroParticle.x HeroParticle.y HeroParticle.baseX
         HeroParticle.baseY HeroParticle.mouseForceX HeroParticle.mouseForceY
         HeroParticle.vx HeroParticle.vy].
    unfold utils.random.
    pose proof (Hr i 0%nat). pose proof (Hr i 1%nat).
    pose proof (Hr i 2%nat). pose proof (Hr i 3%nat).
    repeat split; nra.
  - destruct (0 <? intro_particleCount c)%Z; [|constructor].
    apply List.Forall_forall. intros p Hp. apply in_map_iff in Hp as (i & <- & _).
    unfold Particle3D.constructor.
    destruct (reset_inside cv (rnd i)
                {| Particle3D.x := 0; Particle3D.y := 0; Particle3D.z := 0;
                   Particle3D.vx := 0; Particle3D.vy := 0; Particle3D.vz := 0;
                   Particle3D.size := 0; Particle3D.baseOpacity := 0;
                   Particle3D.trail := [];
                   Particle3D.maxTrailLength := if mobile d then 4%Z else 8%Z;
                   Particle3D.lastTrailTime := 0 |} (Hr i) Hw Hh) as (H1 & H2 & H3).
    repeat split; try apply H1; try apply H2; try apply H3.
Qed.

End SceneInit.

Lemma initColumns_spreads_columns_evenly_witness :
  0 < 800 /\ (forall i n : nat, 0 <= 1 # 2 < 1) /\
  Forall2 Qeq
    (List.map MatrixColumn.x
       (firstn 3 (MatrixCanvas.initColumns desktop_device (CONFIG desktop_device)
                    {| cv_width := 800; cv_height := 600 |} (fun _ _ => 1 # 2))))
    [20; 60; 100] /\
  length (MatrixCanvas.initColumns desktop_device (CONFIG desktop_device)
            {| cv_width := 800; cv_height := 600 |} (fun _ _ => 1 # 2)) = 20%nat.
Proof.
  split; [reflexivity|]. split; [intros _ _; split; [discriminate|reflexivity]|].
  split; [vm_compute; repeat constructor|].
  refine (proj1 (initColumns_spreads_columns_evenly desktop_device (CONFIG desktop_device)
                   {| cv_width := 800; cv_height := 600 |} (fun _ _ => 1 # 2) _ _)).
  - reflexivity.
  - intros _ _; split; [discriminate|reflexivity].
Defined.

Lemma initParticles_fill_the_canvas_witness :
  0 <= 800 /\ 0 <= 600 /\ (forall i n : nat, 0 <= 1 # 4 < 1) /\
  length (HeroCanvas.initParticles (CONFIG mobile_device)
            {| cv_width := 800; cv_height := 600 |} (fun _ _ => 1 # 4)) = 3%nat.
Proof.
  split; [discriminate|]. split; [discriminate|].
  split; [intros _ _; split; [discriminate|reflexivity]|].
  refine (proj1 (initParticles_fill_the_canvas mobile_device (CONFIG mobile_device)
                   {| cv_width := 800; cv_height := 600 |} (fun _ _ => 1 # 4) _ _ _)).
  - discriminate.
  - discriminate.
  - intros _ _; split; [discriminate|reflexivity].
Defined.

(** ** Destroying a scene *)

Section Destroy.
Context {Err Env : Type}.
Variable b : Behaviour Err Env.
Variable d : DeviceConfig.

Ltac world_cbn :=
  cbn -[FPSController.updateQuality FPSController.shouldRender
        HeroCanvas.drawConnections HeroCanvas.rebuild forEach].

(** A callback of another scene leaves an inactive hero scene, its grid and
    its strokes alone; likewise for an inactive matrix scene. *)
Lemma dispatch_keeps_inactive_hero time env cb (v : World Err) :
  isActive (hero v) = false ->
  hero (dispatch b d time env cb v) = hero v /\
  spatialGrid (dispatch b d time env cb v) = spatialGrid v /\
  strokes (dispatch b d time env cb v) = strokes v.
Proof.
  destruct v as [done i h m g c f fh er lc [q n ca ti] st].
  destruct h as [ha hc hh he]. cbn [hero isActive]. intros ->.
  destruct cb; cbn [dispatch].
  - unfold IntroController.animate. world_cbn.
    destruct (negb (isActive i) || done); [auto|].
    destruct (FPSController.shouldRender time f) as [[|] f1]; world_cbn; [|auto].
    unfold IntroController.render. world_cbn.
    destruct (canvas i); world_cbn.
    + destruct (forEach _ _ _) as [ps|ps e]; world_cbn; [auto|].
      unfold IntroController.complete. world_cbn.
      destruct (frameHandle i); world_cbn; auto.
    + unfold IntroController.complete. world_cbn.
      destruct (frameHandle i); world_cbn; auto.
  - unfold HeroCanvas.animate. world_cbn. auto.
  - unfold MatrixCanvas.animate. world_cbn.
    destruct (negb (isActive m)); [auto|].
    destruct (FPSController.shouldRender time f) as [[|] f1]; world_cbn; [|auto].
    unfold MatrixCanvas.render. world_cbn.
    destruct (canvas m); world_cbn; [|auto].
    destruct (forEach _ _ _) as [cs|cs e]; world_cbn; auto.
Qed.

Lemma dispatch_keeps_inactive_matrix time env cb (v : World Err) :
  isActive (matrix v) = false ->
  matrix (dispatch b d time env cb v) = matrix v.
Proof.
  destruct v as [done i h m g c f fh er lc [q n ca ti] st].
  destruct m as [ma mc mh me]. cbn [matrix isActive]. intros ->.
  destruct cb; cbn [dispatch].
  - unfold IntroController.animate. world_cbn.
    destruct (negb (isActive i) || done); [auto|].
    destruct (FPSController.shouldRender time f) as [[|] f1]; world_cbn; [|auto].
    unfold IntroController.render. world_cbn.
    destruct (canvas i); world_cbn.
    + destruct (forEach _ _ _) as [ps|ps e]; world_cbn; [auto|].
      unfold IntroController.complete. world_cbn.
      destruct (frameHandle i); world_cbn; auto.
    + unfold IntroController.complete. world_cbn.
      destruct (frameHandle i); world_cbn; auto.
  - unfold HeroCanvas.animate. world_cbn.
    destruct (negb (isActive h)); [auto|].
    destruct (FPSController.shouldRender time f) as [[|] f1]; world_cbn; [|auto].
    unfold HeroCanvas.render. world_cbn.
    destruct (FPSController.updateQuality fh (f1, c)) as [f2 c2]. world_cbn.
    destruct (canvas h); world_cbn; [|auto].
    destruct (forEach _ _ _) as [ps|ps e]; world_cbn; auto.
  - unfold MatrixCanvas.animate. world_cbn. auto.
Qed.

Lemma frames_keep_inactive_hero env times (v : World Err) :
  isActive (hero v) = false ->
  hero (run_frames b d env times v) = hero v /\
  spatialGrid (run_frames b d env times v) = spatialGrid v /\
  strokes (run_frames b d env times v) = strokes v.
Proof.
  unfold run_frames. revert v. induction times as [|t times IH]; intros v Hv;
    cbn [fold_left]; [auto|].
  assert (H : hero (run_frame b d t env v) = hero v /\
              spatialGrid (run_frame b d t env v) = spatialGrid v /\
              strokes (run_frame b d t env v) = strokes v).
  { unfold run_frame. cbv zeta.
    set (v0 := set_sched v _).
    assert (H0 : hero v0 = hero v /\ spatialGrid v0 = spatialGrid v /\
                 strokes v0 = strokes v) by (repeat split; reflexivity).
    revert H0. generalize v0. clear v0.
    induction (queue (sched v)) as [|e pending IHp]; intros v0 (H1 & H2 & H3);
      cbn [fold_left]; [auto|].
    apply IHp. destruct (existsb _ _); [auto|].
    destruct (dispatch_keeps_inactive_hero t env (snd e) v0) as (D1 & D2 & D3);
      [now rewrite H1|].
    rewrite D1, D2, D3. auto. }
  destruct H as (H1 & H2 & H3).
  destruct (IH (run_frame b d t env v)) as (I1 & I2 & I3); [now rewrite H1|].
  rewrite I1, I2, I3. auto.
Qed.

Lemma frames_keep_inactive_matrix env times (v : World Err) :
  isActive (matrix v) = false ->
  matrix (run_frames b d env times v) = matrix v.
Proof.
  unfold run_frames. revert v. induction times as [|t times IH]; intros v Hv;
    cbn [fold_left]; [auto|].
  assert (H : matrix (run_frame b d t env v) = matrix v).
  { unfold run_frame. cbv zeta.
    set (v0 := set_sched v _).
    assert (H0 : matrix v0 = matrix v) by reflexivity.
    revert H0. generalize v0. clear v0.
    induction (queue (sched v)) as [|e pending IHp]; intros v0 H1;
      cbn [fold_left]; [auto|].
    apply IHp. destruct (existsb _ _); [auto|].
    rewrite dispatch_keeps_inactive_matrix; [exact H1|now rewrite H1]. }
  rewrite IH; [exact H|now rewrite H].
Qed.

(** X30. A destroyed scene stays stopped and empty.  After
    [HeroCanvas.destroy()] the hero scene is inactive, remembers no handle,
    has no particle and no spatial grid, and whatever animation frames
    follow (with the other scenes running, failing or completing, and with
    stale hero callbacks still queued) it stays exactly so and no further
    connection is stroked; after [MatrixCanvas.destroy()] the same holds
    for the matrix scene and its columns. *)
Theorem destroyed_scene_stays_stopped env times (w : World Err) :
  let w1 := run_frames b d env times (HeroCanvas.destroy w) in
  let w2 := run_frames b d env times (MatrixCanvas.destroy w) in
  hero w1 = {| isActive := false; canvas := canvas (hero w); frameHandle := None;
               entities := [] |} /\
  spatialGrid w1 = None /\ strokes w1 = strokes w /\
  matrix w2 = {| isActive := false; canvas := canvas (matrix w); frameHandle := None;
                 entities := [] |} /\
  (forall h, frameHandle (hero w) = Some h ->
             In h (cancelled (sched (HeroCanvas.destroy w)))) /\
  (forall h, frameHandle (matrix w) = Some h ->
             In h (cancelled (sched (MatrixCanvas.destroy w)))).
Proof.
  cbv zeta.
  assert (Hd : hero (HeroCanvas.destroy w) =
                 {| isActive := false; canvas := canvas (hero w); frameHandle := None;
                    entities := [] |} /\
               spatialGrid (HeroCanvas.destroy w) = None /\
               strokes (HeroCanvas.destroy w) = strokes w).
  { unfold HeroCanvas.destroy. cbv zeta. cbn [frameHandle set_isActive].
    destruct (frameHandle (hero w)) eqn:E; cbn;
      unfold set_entities, set_frameHandle, set_isActive; cbn; rewrite ?E;
      repeat split; reflexivity. }
  assert (Hm : matrix (MatrixCanvas.destroy w) =
                 {| isActive := false; canvas := canvas (matrix w); frameHandle := None;
                    entities := [] |}).
  { unfold MatrixCanvas.destroy. cbv zeta. cbn [frameHandle set_isActive].
    destruct (frameHandle (matrix w)) eqn:E; cbn;
      unfold set_entities, set_frameHandle, set_isActive; cbn; rewrite ?E; reflexivity. }
  destruct Hd as (D1 & D2 & D3).
  destruct (frames_keep_inactive_hero env times (HeroCanvas.destroy w)) as (F1 & F2 & F3);
    [now rewrite D1|].
  rewrite F1, F2, F3, D1, D2, D3.
  rewrite frames_keep_inactive_matrix by (now rewrite Hm). rewrite Hm.
  repeat split; try reflexivity.
  - intros h Hh. unfold HeroCanvas.destroy. cbv zeta. cbn [frameHandle set_isActive].
    rewrite Hh. cbn. apply in_or_app. right. now left.
  - intros h Hh. unfold MatrixCanvas.destroy. cbv zeta. cbn [frameHandle set_isActive].
    rewrite Hh. cbn. apply in_or_app. right. now left.
Qed.

End Destroy.
